(** * xunused: cross-translation-unit detection of unused functions

    A shallow embedding of [src/main.cpp].  The Clang AST, the source
    manager and the tooling executor are collaborators of the program: the
    embedding takes from them exactly the queries the source calls
    ([hasBody], [isWeak], [getCanonicalDecl], [getFilename], ...) and models
    the program's own code on top of them: the per-TU match handler
    ([run], [handleUse]), the classifier and merge ([finalize]), and the
    report loop and exit status of [main].

    A failed [assert] ends the process: the functions that can reach one
    return an [option], [None] being the abort.  Left out are the debug
    traces ([printDebug], [printDebugDecl]), which write to [llvm::dbgs()]
    only, and the statistic [NumUnusedFunctions], which nothing in the
    program reads. *)

From stdpp Require Import base option list sorting gmap strings pretty.
From Stdlib Require Import NArith Ascii.

Local Open Scope string_scope.
Local Open Scope positive_scope.
Local Open Scope list_scope.

(** * Part I: the embedding *)

(** ** Pointers and the two standard containers the source uses *)

(** A non-null [const FunctionDecl *]; the null pointer is [None] of
    [option FunctionDeclPtr]. *)
Definition FunctionDeclPtr := positive.

Module StdSet.

(** [std::set<const FunctionDecl *>]: the elements in strictly increasing
    pointer order, which is the order [begin()..end()] visits. *)
Abbreviation t := (list FunctionDeclPtr) (only parsing).

Definition empty : t := [].

(** [c.insert(x)] *)
Fixpoint insert (x : FunctionDeclPtr) (c : t) : t :=
  match c with
  | [] => [x]
  | y :: c' =>
      if x <? y then x :: c
      else if y <? x then y :: insert x c'
      else c
  end.

(** [discard_if(c, pred)]: the erase loop of lines 24-33. *)
Fixpoint discard_if (pred : FunctionDeclPtr -> bool) (c : t) : t :=
  match c with
  | [] => []
  | x :: c' => if pred x then discard_if pred c' else x :: discard_if pred c'
  end.

(** [std::set_difference(first1, last1, first2, last2, back_inserter)]:
    the standard two-finger walk over two sorted ranges. *)
Fixpoint set_difference (r1 : list FunctionDeclPtr)
    : list FunctionDeclPtr -> list FunctionDeclPtr :=
  match r1 with
  | [] => fun _ => []
  | x :: r1' =>
      fix walk (r2 : list FunctionDeclPtr) : list FunctionDeclPtr :=
        match r2 with
        | [] => x :: r1'
        | y :: r2' =>
            if x <? y then x :: set_difference r1' r2
            else if y <? x then walk r2'
            else set_difference r1' r2'
        end
  end.

(** The class invariant of [std::set]: strictly increasing, as a test. *)
Fixpoint is_set (c : t) : bool :=
  match c with
  | [] => true
  | x :: c' =>
      match c' with
      | [] => true
      | y :: _ => (x <? y) && is_set c'
      end
  end.

End StdSet.

(** ** The collaborators: source manager and AST *)

(** A [SourceLocation] is an opaque token that only the source manager
    interprets. *)
Definition SourceLocation := N.

(** The queries the program makes of [SourceManager] (and, through
    [getFileManager()], of the file manager).  [makeAbsolutePath] rewrites
    its argument in place in the source; here it returns the new path. *)
Record SourceManager := {
  getFilename : SourceLocation -> string;
  getSpellingLineNumber : SourceLocation -> N;
  isInSystemHeader : SourceLocation -> bool;
  isWrittenInMainFile : SourceLocation -> bool;
  makeAbsolutePath : string -> string
}.

(** [llvm::sys::path::is_absolute] for POSIX paths: the path has a root
    directory. *)
Definition is_absolute (Path : string) : bool :=
  match Path with
  | String "/"%char _ => true
  | _ => false
  end.

(** What [dyn_cast<CXXMethodDecl>(F)] exposes when it succeeds. *)
Record CXXMethodDecl := {
  isVirtual : bool;
  overridden_methods : list FunctionDeclPtr;
  isCXXDestructorDecl : bool
}.

Definition size_overridden_methods (MD : CXXMethodDecl) : nat :=
  length (overridden_methods MD).

(** One [FunctionDecl] node, as far as the program looks at it.  Accessors
    that return a possibly-null pointer return an [option]. *)
Record FunctionDecl := {
  hasBody : bool;
  doesThisDeclarationHaveABody : bool;
  getInstantiatedFromMemberFunction : option FunctionDeclPtr;
  isTemplateInstantiation : bool;
  getTemplateInstantiationPattern : option FunctionDeclPtr;
  getBegin : SourceLocation;
  asCXXMethodDecl : option CXXMethodDecl;
  isPure : bool;
  isMain : bool;
  getCanonicalDecl : FunctionDeclPtr;
  hasConstructorAttr : bool;
  isWeak : bool;
  getDefinition : option FunctionDeclPtr;
  getQualifiedNameAsString : string;
  redecls : list FunctionDeclPtr;
  generateUSRForDecl : option string
}.

(** The AST of one translation unit: what each pointer points to. *)
Definition ASTContext := FunctionDeclPtr -> FunctionDecl.

(** [R->getDecl()], [R->getMemberDecl()]: a [ValueDecl] that may or may
    not be a function. *)
Inductive ValueDecl :=
  | FunctionValue (FD : FunctionDeclPtr)
  | OtherValue.

Definition dyn_cast_FunctionDecl (D : ValueDecl) : option FunctionDeclPtr :=
  match D with
  | FunctionValue FD => Some FD
  | OtherValue => None
  end.

(** One callback of the match finder, by the name its node is bound to
    (lines 232-237); the referenced declaration is already extracted. *)
Inductive MatchResult :=
  | fnDecl (F : FunctionDeclPtr)
  | declRef (D : ValueDecl)
  | memberRef (D : ValueDecl)
  | cxxConstructExpr (Ctor : FunctionDeclPtr).

(** ** The program's data *)

Module DeclLoc.

Record t := mk { Filename : string; Line : N }.

End DeclLoc.

(** [size_t] is 64 bits wide: [Uses++] wraps around at [2^64]. *)
Definition SIZE_MODULUS : N := 2 ^ 64.

Module DefInfo.

(** [struct DefInfo]; the field [Definition] is spelled [Definition_]
    here. *)
Record t := mk {
  Definition_ : option FunctionDeclPtr;
  Uses : N;
  Name : string;
  Filename : string;
  Line : N;
  Declarations : list DeclLoc.t
}.

(** [DefInfo{F, U}]: the remaining members are value-initialised. *)
Definition init (F : option FunctionDeclPtr) (U : N) : t :=
  mk F U EmptyString EmptyString 0 [].

Definition set_Definition (F : option FunctionDeclPtr) (I : t) : t :=
  mk F (Uses I) (Name I) (Filename I) (Line I) (Declarations I).
Definition set_Name (s : string) (I : t) : t :=
  mk (Definition_ I) (Uses I) s (Filename I) (Line I) (Declarations I).
Definition set_Filename (s : string) (I : t) : t :=
  mk (Definition_ I) (Uses I) (Name I) s (Line I) (Declarations I).
Definition set_Line (n : N) (I : t) : t :=
  mk (Definition_ I) (Uses I) (Name I) (Filename I) n (Declarations I).
Definition set_Declarations (Ds : list DeclLoc.t) (I : t) : t :=
  mk (Definition_ I) (Uses I) (Name I) (Filename I) (Line I) Ds.
(** [Uses++] on a [size_t]. *)
Definition incr_Uses (I : t) : t :=
  mk (Definition_ I) ((Uses I + 1) mod SIZE_MODULUS)%N
     (Name I) (Filename I) (Line I) (Declarations I).

End DefInfo.

(** [std::map<std::string, DefInfo> AllDecls], the table shared by all
    translation units. *)
Abbreviation AllDeclsMap := (gmap string DefInfo.t).

(** [m.emplace(k, v)]: inserts only when [k] is absent; the flag is
    [it_inserted.second], and [it_inserted.first] designates the element
    at [k] either way. *)
Definition emplace (k : string) (v : DefInfo.t) (m : AllDeclsMap)
    : AllDeclsMap * bool :=
  match m !! k with
  | Some _ => (m, false)
  | None => (<[k := v]> m, true)
  end.

(** ** Lines 55-94: USRs and declaration sites *)

Definition getUSRForDecl (Ctx : ASTContext) (D : FunctionDeclPtr)
    : option string :=
  generateUSRForDecl (Ctx D).

(** The loop of [getDeclarations] over [F->redecls()], [Decls] being the
    vector built so far. *)
Fixpoint getDeclarations_loop (Ctx : ASTContext) (SM : SourceManager)
    (Rs : list FunctionDeclPtr) (Decls : list DeclLoc.t) : list DeclLoc.t :=
  match Rs with
  | [] => Decls
  | R :: Rs' =>
      if doesThisDeclarationHaveABody (Ctx R)
      then getDeclarations_loop Ctx SM Rs' Decls
      else
        let Begin := getBegin (Ctx R) in
        getDeclarations_loop Ctx SM Rs'
          (Decls ++ [DeclLoc.mk (makeAbsolutePath SM (getFilename SM Begin))
                                (getSpellingLineNumber SM Begin)])
  end.

Definition getDeclarations (Ctx : ASTContext) (SM : SourceManager)
    (F : FunctionDeclPtr) : list DeclLoc.t :=
  getDeclarations_loop Ctx SM (redecls (Ctx F)) [].

(** ** Lines 96-227: the match handler *)

Record FunctionDeclMatchHandler := {
  Defs : list FunctionDeclPtr;
  Uses : list FunctionDeclPtr
}.

Definition newHandler : FunctionDeclMatchHandler :=
  {| Defs := StdSet.empty; Uses := StdSet.empty |}.

(** Both sets satisfy the invariant of [std::set]. *)
Definition handler_ok (h : FunctionDeclMatchHandler) : bool :=
  StdSet.is_set (Defs h) && StdSet.is_set (Uses h).

(** [if (F->isTemplateInstantiation()) { F = pattern; assert(F); }]:
    [None] is the failed assertion. *)
Definition instantiationPattern (Ctx : ASTContext) (F : FunctionDeclPtr)
    : option FunctionDeclPtr :=
  if isTemplateInstantiation (Ctx F)
  then getTemplateInstantiationPattern (Ctx F)
  else Some F.

(** Lines 159-174.  [None] is the failed assertion of line 168. *)
Definition handleUse (Ctx : ASTContext) (SM : SourceManager) (D : ValueDecl)
    (h : FunctionDeclMatchHandler) : option FunctionDeclMatchHandler :=
  match dyn_cast_FunctionDecl D with
  | None => Some h
  | Some FD =>
      if isInSystemHeader SM (getBegin (Ctx FD)) then Some h
      else
        FD ← instantiationPattern Ctx FD;
        Some {| Defs := Defs h;
                Uses := StdSet.insert (getCanonicalDecl (Ctx FD)) (Uses h) |}
  end.

(** Lines 195-201: the test made on [dyn_cast<CXXMethodDecl>(F)]. *)
Definition isOverridingMethod (Ctx : ASTContext) (F : FunctionDeclPtr)
    : bool :=
  match asCXXMethodDecl (Ctx F) with
  | Some MD =>
      isVirtual MD && negb (isPure (Ctx F))
        && negb (Nat.eqb (size_overridden_methods MD) 0)
  | None => false
  end.

Definition isDestructor (Ctx : ASTContext) (F : FunctionDeclPtr) : bool :=
  match asCXXMethodDecl (Ctx F) with
  | Some MD => isCXXDestructorDecl MD
  | None => false
  end.

(** Lines 175-223.  [None] is a failed assertion (lines 185, 168). *)
Definition run (Ctx : ASTContext) (SM : SourceManager) (Result : MatchResult)
    (h : FunctionDeclMatchHandler) : option FunctionDeclMatchHandler :=
  match Result with
  | fnDecl F =>
      if negb (hasBody (Ctx F)) then Some h
      else
        let F := match getInstantiatedFromMemberFunction (Ctx F) with
                 | Some Templ => Templ
                 | None => F
                 end in
        F ← instantiationPattern Ctx F;
        let Begin := getBegin (Ctx F) in
        if isInSystemHeader SM Begin then Some h
        else if negb (isWrittenInMainFile SM Begin) then Some h
        else if isOverridingMethod Ctx F then Some h
        else if isDestructor Ctx F then Some h
        else if isMain (Ctx F) then Some h
        else
          let h := {| Defs := StdSet.insert (getCanonicalDecl (Ctx F)) (Defs h);
                      Uses := Uses h |} in
          if hasConstructorAttr (Ctx F)
          then handleUse Ctx SM (FunctionValue F) h
          else Some h
  | declRef D => handleUse Ctx SM D h
  | memberRef D => handleUse Ctx SM D h
  | cxxConstructExpr Ctor => handleUse Ctx SM (FunctionValue Ctor) h
  end.

(** [Matcher.matchAST(Context)]: the callbacks in the order the finder
    makes them. *)
Fixpoint matchAST (Ctx : ASTContext) (SM : SourceManager)
    (Results : list MatchResult) (h : FunctionDeclMatchHandler)
    : option FunctionDeclMatchHandler :=
  match Results with
  | [] => Some h
  | R :: Results' => h' ← run Ctx SM R h; matchAST Ctx SM Results' h'
  end.

(** Lines 106-124, the body of the loop over [UnusedDefs].  [None] is the
    failed [assert(F)] of line 108. *)
Definition recordUnusedDef (Ctx : ASTContext) (SM : SourceManager)
    (F : FunctionDeclPtr) (AllDecls : AllDeclsMap) : option AllDeclsMap :=
  F ← getDefinition (Ctx F);
  match getUSRForDecl Ctx F with
  | None => Some AllDecls
  | Some USR =>
      let '(AllDecls, inserted) :=
        emplace USR (DefInfo.init (Some F) 0) AllDecls in
      let AllDecls :=
        if negb inserted
        then alter (DefInfo.set_Definition (Some F)) USR AllDecls
        else AllDecls in
      let AllDecls :=
        alter (DefInfo.set_Name (getQualifiedNameAsString (Ctx F))) USR
          AllDecls in
      let Begin := getBegin (Ctx F) in
      let AllDecls :=
        alter (DefInfo.set_Filename (getFilename SM Begin)) USR AllDecls in
      let AllDecls :=
        alter (DefInfo.set_Line (getSpellingLineNumber SM Begin)) USR
          AllDecls in
      Some (alter (DefInfo.set_Declarations (getDeclarations Ctx SM F)) USR
              AllDecls)
  end.

Fixpoint recordUnusedDefs (Ctx : ASTContext) (SM : SourceManager)
    (UnusedDefs : list FunctionDeclPtr) (AllDecls : AllDeclsMap)
    : option AllDeclsMap :=
  match UnusedDefs with
  | [] => Some AllDecls
  | F :: rest =>
      AllDecls' ← recordUnusedDef Ctx SM F AllDecls;
      recordUnusedDefs Ctx SM rest AllDecls'
  end.

(** Lines 146-156, the body of the loop over [ExternalUses]. *)
Definition recordExternalUse (Ctx : ASTContext) (F : FunctionDeclPtr)
    (AllDecls : AllDeclsMap) : AllDeclsMap :=
  match getUSRForDecl Ctx F with
  | None => AllDecls
  | Some USR =>
      let '(AllDecls, inserted) :=
        emplace USR (DefInfo.init None 1) AllDecls in
      if negb inserted then alter DefInfo.incr_Uses USR AllDecls
      else AllDecls
  end.

Fixpoint recordExternalUses (Ctx : ASTContext)
    (ExternalUses : list FunctionDeclPtr) (AllDecls : AllDeclsMap)
    : AllDeclsMap :=
  match ExternalUses with
  | [] => AllDecls
  | F :: rest => recordExternalUses Ctx rest (recordExternalUse Ctx F AllDecls)
  end.

(** Lines 98-157.  The handler comes back with the weak definitions
    discarded from [Defs]; [None] is a failed assertion. *)
Definition finalize (Ctx : ASTContext) (SM : SourceManager)
    (h : FunctionDeclMatchHandler) (AllDecls : AllDeclsMap)
    : option (FunctionDeclMatchHandler * AllDeclsMap) :=
  let UnusedDefs := StdSet.set_difference (Defs h) (Uses h) in
  AllDecls ← recordUnusedDefs Ctx SM UnusedDefs AllDecls;
  let h := {| Defs := StdSet.discard_if (fun FD => isWeak (Ctx FD)) (Defs h);
              Uses := Uses h |} in
  let ExternalUses := StdSet.set_difference (Uses h) (Defs h) in
  Some (h, recordExternalUses Ctx ExternalUses AllDecls).

(** ** Lines 229-306: one consumer per translation unit, and [main] *)

(** A translation unit as the consumer meets it: its AST, its source
    manager, and the match callbacks the finder makes over it. *)
Record TranslationUnit := {
  Context : ASTContext;
  SourceMgr : SourceManager;
  Results : list MatchResult
}.

(** The state in which [finalize] is entered: the handler that
    [matchAST] has filled, with the AST and source manager it refers to. *)
Record MatchedTU := {
  TU_Context : ASTContext;
  TU_SourceMgr : SourceManager;
  TU_Handler : FunctionDeclMatchHandler
}.

Definition matched (TU : TranslationUnit) : option MatchedTU :=
  h ← matchAST (Context TU) (SourceMgr TU) (Results TU) newHandler;
  Some {| TU_Context := Context TU; TU_SourceMgr := SourceMgr TU;
          TU_Handler := h |}.

(** [XUnusedASTConsumer::HandleTranslationUnit], lines 240-243. *)
Definition HandleTranslationUnit (TU : TranslationUnit)
    (AllDecls : AllDeclsMap) : option AllDeclsMap :=
  h ← matchAST (Context TU) (SourceMgr TU) (Results TU) newHandler;
  r ← finalize (Context TU) (SourceMgr TU) h AllDecls;
  Some r.2.

(** The executor runs one consumer per translation unit.  The matching of
    a translation unit touches only its own handler, and [finalize] holds
    the mutex from its first to its last statement, so a run is described by
    the order in which the translation units acquire the mutex. *)
Fixpoint execute (TUs : list TranslationUnit) (AllDecls : AllDeclsMap)
    : option AllDeclsMap :=
  match TUs with
  | [] => Some AllDecls
  | TU :: rest =>
      AllDecls' ← HandleTranslationUnit TU AllDecls;
      execute rest AllDecls'
  end.

(** The same run seen from the states in which [finalize] is entered. *)
Fixpoint finalizeAll (TUs : list MatchedTU) (AllDecls : AllDeclsMap)
    : option AllDeclsMap :=
  match TUs with
  | [] => Some AllDecls
  | TU :: rest =>
      r ← finalize (TU_Context TU) (TU_SourceMgr TU) (TU_Handler TU) AllDecls;
      finalizeAll rest r.2
  end.

(** ["\n"] *)
Definition nl : string := String "010"%char EmptyString.

(** Lines 297-298: the warning line of a finding. *)
Definition warningLine (I : DefInfo.t) : string :=
  DefInfo.Filename I +:+ ":" +:+ pretty (DefInfo.Line I) +:+ ": warning:"
    +:+ " Function '" +:+ DefInfo.Name I +:+ "' is unused" +:+ nl.

(** Lines 301-302: the note line of one declaration site. *)
Definition noteLine (D : DeclLoc.t) : string :=
  DeclLoc.Filename D +:+ ":" +:+ pretty (DeclLoc.Line D) +:+ ": note:"
    +:+ " declared here" +:+ nl.

(** Lines 300-303: the inner loop, [errs] being what has been written to
    [llvm::errs()] so far. *)
Fixpoint printNotes (Ds : list DeclLoc.t) (errs : string) : string :=
  match Ds with
  | [] => errs
  | D :: Ds' => printNotes Ds' (errs +:+ noteLine D)
  end.

(** Line 296: [I.Definition && I.Uses == 0]. *)
Definition isUnused (I : DefInfo.t) : bool :=
  match DefInfo.Definition_ I with
  | Some _ => (DefInfo.Uses I =? 0)%N
  | None => false
  end.

(** Lines 295-304, the body of the loop over [AllDecls], [errs] being what
    has been written to [llvm::errs()] so far. *)
Definition printEntry (errs : string) (KV : string * DefInfo.t) : string :=
  let I := KV.2 in
  if isUnused I
  then printNotes (DefInfo.Declarations I) (errs +:+ warningLine I)
  else errs.

(** The keys of the map in the order [begin()..end()] visits them:
    increasing for [std::less<std::string>], which compares byte-wise. *)
Definition keys (AllDecls : AllDeclsMap) : list string :=
  merge_sort String.le (elements (dom AllDecls)).

Definition entries (AllDecls : AllDeclsMap) : list (string * DefInfo.t) :=
  omap (fun k => pair k <$> AllDecls !! k) (keys AllDecls).

(** Lines 294-305. *)
Definition printReport (AllDecls : AllDeclsMap) (errs : string) : string :=
  foldl printEntry errs (entries AllDecls).

(** [llvm::Expected<T>]. *)
Inductive Expected (T : Type) :=
  | Value (v : T)
  | Failure (msg : string).
Arguments Value {T} v.
Arguments Failure {T} msg.

(** What the tool executor does when [execute] is called on it: the
    translation units whose consumer runs, in the order they take the mutex,
    and the error [execute] returns, if any. *)
Record ToolExecutor := {
  Units : list TranslationUnit;
  Err : option string
}.

(** [main], lines 264-306: what the program itself writes to
    [llvm::errs()], and the exit status; [None] is a failed assertion.
    Control reaches the end of [main] without a [return], which is exit
    status 0. *)
Definition main (Executor : Expected ToolExecutor) : option (string * Z) :=
  match Executor with
  | Failure msg => Some (msg +:+ nl, 1%Z)
  | Value E =>
      AllDecls ← execute (Units E) ∅;
      let errs := match Err E with
                  | Some msg => msg +:+ nl
                  | None => EmptyString
                  end in
      Some (printReport AllDecls errs, 0%Z)
  end.

(** ** The report as a list of findings *)

(** The entries of the table that the report loop prints. *)
Definition findings (AllDecls : AllDeclsMap) : list (string * DefInfo.t) :=
  filter (fun KV => isUnused KV.2 = true) (entries AllDecls).

(** The text of one finding: the warning line, then the note lines. *)
Definition findingText (I : DefInfo.t) : list string :=
  warningLine I :: map noteLine (DefInfo.Declarations I).

(** ** The merge as the specification words it (section 4.2)

    The specification describes [finalize] as a classifier that produces a
    per-TU result, followed by [merge(tuResult)]: "for each canonical id in
    UnusedCandidates: look up or create its SymbolRecord; set definitionSite
    and declarationSites; for each canonical id in ExternalUses: look up or
    create its SymbolRecord; increment useCount by 1".  These definitions
    follow those words; [finalize_merge] below shows that the code refines
    them. *)

Inductive Observation :=
  | Defined (D : DefInfo.t)
  | Used.

Abbreviation TUResult := (list (string * Observation)).

(** A record that has just been created, before anything is set in it. *)
Definition blank : DefInfo.t := DefInfo.init None 0.

(** The effect of one observation on the record of its symbol: a definition
    replaces everything but the use count, a use increments the count. *)
Definition observe (o : Observation) (I : DefInfo.t) : DefInfo.t :=
  match o with
  | Defined D =>
      DefInfo.mk (DefInfo.Definition_ D) (DefInfo.Uses I) (DefInfo.Name D)
        (DefInfo.Filename D) (DefInfo.Line D) (DefInfo.Declarations D)
  | Used => DefInfo.incr_Uses I
  end.

Definition merge1 (AllDecls : AllDeclsMap) (KO : string * Observation)
    : AllDeclsMap :=
  <[KO.1 := observe KO.2 (default blank (AllDecls !! KO.1))]> AllDecls.

Definition merge (AllDecls : AllDeclsMap) (tuResult : TUResult)
    : AllDeclsMap :=
  foldl merge1 AllDecls tuResult.

(** What lines 113-123 write for the definition [F]. *)
Definition definitionOf (Ctx : ASTContext) (SM : SourceManager)
    (F : FunctionDeclPtr) : DefInfo.t :=
  DefInfo.mk (Some F) 0 (getQualifiedNameAsString (Ctx F))
    (getFilename SM (getBegin (Ctx F)))
    (getSpellingLineNumber SM (getBegin (Ctx F)))
    (getDeclarations Ctx SM F).

(** The two ranges [finalize] computes. *)
Definition UnusedDefs (h : FunctionDeclMatchHandler) : list FunctionDeclPtr :=
  StdSet.set_difference (Defs h) (Uses h).

Definition ExternalUses (Ctx : ASTContext) (h : FunctionDeclMatchHandler)
    : list FunctionDeclPtr :=
  StdSet.set_difference (Uses h)
    (StdSet.discard_if (fun FD => isWeak (Ctx FD)) (Defs h)).

Definition defObservation (Ctx : ASTContext) (SM : SourceManager)
    (F : FunctionDeclPtr) : option (string * Observation) :=
  F ← getDefinition (Ctx F);
  USR ← getUSRForDecl Ctx F;
  Some (USR, Defined (definitionOf Ctx SM F)).

Definition useObservation (Ctx : ASTContext) (F : FunctionDeclPtr)
    : option (string * Observation) :=
  USR ← getUSRForDecl Ctx F;
  Some (USR, Used).

(** The result of one translation unit: its definition observations, then
    its use observations, each in the order of the range it comes from. *)
Definition tuResult (TU : MatchedTU) : TUResult :=
  omap (defObservation (TU_Context TU) (TU_SourceMgr TU))
       (UnusedDefs (TU_Handler TU))
  ++ omap (useObservation (TU_Context TU))
       (ExternalUses (TU_Context TU) (TU_Handler TU)).

(** The assertion of line 108 holds for every unused definition. *)
Definition definitionsFound (TU : MatchedTU) : bool :=
  forallb (fun F => bool_decide (is_Some (getDefinition (TU_Context TU F))))
    (UnusedDefs (TU_Handler TU)).

(** A [MatchedTU] whose two sets are sets and whose assertion holds. *)
Definition matched_ok (TU : MatchedTU) : bool :=
  handler_ok (TU_Handler TU) && definitionsFound TU.

(** ** The record of one symbol after a sequence of observations *)

(** The observations of a result that concern the symbol [USR]. *)
Definition observationsOf (USR : string) (r : TUResult) : list Observation :=
  omap (fun KO => if decide (KO.1 = USR) then Some KO.2 else None) r.

Definition definedIn (os : list Observation) : list DefInfo.t :=
  omap (fun o => match o with Defined D => Some D | Used => None end) os.

Definition usedIn (os : list Observation) : N :=
  N.of_nat
    (length (omap (fun o => match o with Used => Some () | _ => None end) os)).

Definition usesOf (r : option DefInfo.t) : N :=
  from_option DefInfo.Uses 0%N r.

(** The record in closed form: the definition data of the last definition
    observation (or of the record as it was), and the count advanced by the
    number of use observations, as a [size_t]. *)
Definition summaryOf (os : list Observation) (I : DefInfo.t) : DefInfo.t :=
  let D := default I (last (definedIn os)) in
  DefInfo.mk (DefInfo.Definition_ D)
    ((DefInfo.Uses I + usedIn os) mod SIZE_MODULUS)%N
    (DefInfo.Name D) (DefInfo.Filename D) (DefInfo.Line D)
    (DefInfo.Declarations D).

Definition recordAfter (os : list Observation) (r : option DefInfo.t)
    : option DefInfo.t :=
  match os with
  | [] => r
  | _ => Some (summaryOf os (default blank r))
  end.

(** Every use count in the table is a [size_t]. *)
Definition counts_bounded (AllDecls : AllDeclsMap) : Prop :=
  forall k I, AllDecls !! k = Some I -> (DefInfo.Uses I < SIZE_MODULUS)%N.

(** The concatenation of the pieces written to the stream. *)
Definition concatText (pieces : list string) : string :=
  foldr String.append EmptyString pieces.

(** ** What one translation unit observes of one symbol *)

#[global] Instance DeclLoc_eq_dec : EqDecision DeclLoc.t.
Proof. solve_decision. Defined.

#[global] Instance DefInfo_eq_dec : EqDecision DefInfo.t.
Proof. solve_decision. Defined.

(** The USR under which lines 107-113 record the canonical declaration
    [f] of [Defs]: that of its definition. *)
Definition definitionUSR (Ctx : ASTContext) (f : FunctionDeclPtr)
    : option string :=
  F ← getDefinition (Ctx f); getUSRForDecl Ctx F.

(** The members of [Defs] recorded under [USR]. *)
Definition definersOf (TU : MatchedTU) (USR : string) : list FunctionDeclPtr :=
  filter (fun f => definitionUSR (TU_Context TU) f = Some USR)
    (Defs (TU_Handler TU)).

(** The members of [Uses] whose USR is [USR]: the references the
    translation unit makes to the symbol. *)
Definition referencesOf (TU : MatchedTU) (USR : string)
    : list FunctionDeclPtr :=
  filter (fun n => getUSRForDecl (TU_Context TU) n = Some USR)
    (Uses (TU_Handler TU)).

(** The members of [ExternalUses] whose USR is [USR]. *)
Definition externalUsesOf (TU : MatchedTU) (USR : string)
    : list FunctionDeclPtr :=
  filter (fun n => getUSRForDecl (TU_Context TU) n = Some USR)
    (ExternalUses (TU_Context TU) (TU_Handler TU)).

(** The number of times the whole run increments the count of [USR]. *)
Definition externalUseCount (TUs : list MatchedTU) (USR : string) : N :=
  usedIn (observationsOf USR (TUs ≫= tuResult)).

(** The definition observation that the member [f] of [UnusedDefs]
    contributes to the symbol [USR], if any. *)
Definition definitionFor (TU : MatchedTU) (USR : string)
    (f : FunctionDeclPtr) : option DefInfo.t :=
  F ← getDefinition (TU_Context TU f);
  if decide (getUSRForDecl (TU_Context TU) F = Some USR)
  then Some (definitionOf (TU_Context TU) (TU_SourceMgr TU) F)
  else None.

(** ** The references a translation unit makes *)

(** The declaration a use callback refers to. *)
Definition referencedBy (R : MatchResult) : option FunctionDeclPtr :=
  match R with
  | fnDecl _ => None
  | declRef D => dyn_cast_FunctionDecl D
  | memberRef D => dyn_cast_FunctionDecl D
  | cxxConstructExpr Ctor => Some Ctor
  end.

(** The number of use callbacks of a translation unit that refer to a
    declaration of the symbol [USR]. *)
Definition referenceCount (TU : TranslationUnit) (USR : string) : N :=
  N.of_nat
    (length (filter
       (fun R => referencedBy R ≫= getUSRForDecl (Context TU) = Some USR)
       (Results TU))).

(** ** The definition matches that [run] turns away *)

(** Lines 180-186: the declaration on which lines 188-204 make their
    tests; [None] is the failed assertion of line 185. *)
Definition definitionSubject (Ctx : ASTContext) (F : FunctionDeclPtr)
    : option FunctionDeclPtr :=
  instantiationPattern Ctx
    (match getInstantiatedFromMemberFunction (Ctx F) with
     | Some Templ => Templ
     | None => F
     end).

(** The matched definition is one that lines 177, 197-200 or 203 turn
    away: it has no body, or the declaration tested is a virtual method,
    not pure itself, that overrides some method, or a destructor, or
    [main]. *)
Definition exempt (Ctx : ASTContext) (F : FunctionDeclPtr) : bool :=
  negb (hasBody (Ctx F))
  || match definitionSubject Ctx F with
     | Some F' =>
         isOverridingMethod Ctx F' || isDestructor Ctx F' || isMain (Ctx F')
     | None => false
     end.

(** The USR under which a definition match of [F] is recorded when it is
    not turned away. *)
Definition definitionKey (Ctx : ASTContext) (F : FunctionDeclPtr)
    : option string :=
  F' ← definitionSubject Ctx F;
  definitionUSR Ctx (getCanonicalDecl (Ctx F')).

(** The condition in the words of the specification: the method
    overrides a virtual method of a base class that is not pure. *)
Definition overridesNonPureVirtual (Ctx : ASTContext) (F : FunctionDeclPtr)
    : bool :=
  match asCXXMethodDecl (Ctx F) with
  | Some MD =>
      existsb
        (fun B => negb (isPure (Ctx B))
                  && match asCXXMethodDecl (Ctx B) with
                     | Some MB => isVirtual MB
                     | None => false
                     end)
        (overridden_methods MD)
  | None => false
  end.

(** ** Definition observations that print alike *)

(** Two definition observations print alike: same name, file, line and
    declaration list. *)
Definition sameSite (D1 D2 : DefInfo.t) : bool :=
  bool_decide (DefInfo.Name D1 = DefInfo.Name D2)
  && bool_decide (DefInfo.Filename D1 = DefInfo.Filename D2)
  && bool_decide (DefInfo.Line D1 = DefInfo.Line D2)
  && bool_decide (DefInfo.Declarations D1 = DefInfo.Declarations D2).

Definition agree (x y : string * Observation) : bool :=
  match x.2, y.2 with
  | Defined D1, Defined D2 => negb (bool_decide (x.1 = y.1)) || sameSite D1 D2
  | _, _ => true
  end.

(** Any two definition observations that the run makes of one symbol print
    alike. *)
Definition definitionsAgree (TUs : list MatchedTU) : bool :=
  forallb (fun x => forallb (agree x) (TUs ≫= tuResult)) (TUs ≫= tuResult).

(** Two records that the report loop cannot tell apart. *)
Definition similar (I1 I2 : DefInfo.t) : Prop :=
  (is_Some (DefInfo.Definition_ I1) <-> is_Some (DefInfo.Definition_ I2))
  /\ DefInfo.Uses I1 = DefInfo.Uses I2
  /\ DefInfo.Name I1 = DefInfo.Name I2
  /\ DefInfo.Filename I1 = DefInfo.Filename I2
  /\ DefInfo.Line I1 = DefInfo.Line I2
  /\ DefInfo.Declarations I1 = DefInfo.Declarations I2.

(** ** A small project, used for the examples below *)

Module Project.

(** A location is a file number and a line. *)
Definition at_line (file line : N) : SourceLocation := (file * 1000 + line)%N.

Definition fileName (file : N) : string :=
  match file with
  | 1 => "/proj/a.cpp"
  | 2 => "/proj/b.cpp"
  | 3 => "include/api.h"
  | 4 => "src/c.cpp"
  | 5 => "/proj/tool1.c"
  | 6 => "/proj/tool2.c"
  | 7 => "/proj/d.cpp"
  | 8 => "/proj/w.c"
  | _ => "/usr/include/stdio.h"
  end%N.

(** The source manager of the translation unit whose main file is
    [mainFile]; relative paths are resolved against [/proj]. *)
Definition sourceManager (mainFile : N) : SourceManager := {|
  getFilename := fun l => fileName (l / 1000)%N;
  getSpellingLineNumber := fun l => (l mod 1000)%N;
  isInSystemHeader := fun l => (l / 1000 =? 9)%N;
  isWrittenInMainFile := fun l => (l / 1000 =? mainFile)%N;
  makeAbsolutePath := fun Path =>
    if is_absolute Path then Path else "/proj/" +:+ Path
|}.

(** A free function: one declaration of the chain [chain], at [loc]. *)
Definition function (canonical : FunctionDeclPtr)
    (definition : option FunctionDeclPtr) (body : bool) (loc : SourceLocation)
    (name usr : string) (chain : list FunctionDeclPtr) : FunctionDecl := {|
  hasBody := bool_decide (is_Some definition);
  doesThisDeclarationHaveABody := body;
  getInstantiatedFromMemberFunction := None;
  isTemplateInstantiation := false;
  getTemplateInstantiationPattern := None;
  getBegin := loc;
  asCXXMethodDecl := None;
  isPure := false;
  isMain := false;
  getCanonicalDecl := canonical;
  hasConstructorAttr := false;
  isWeak := false;
  getDefinition := definition;
  getQualifiedNameAsString := name;
  redecls := chain;
  generateUSRForDecl := Some usr
|}.

Definition weak (D : FunctionDecl) : FunctionDecl := {|
  hasBody := hasBody D;
  doesThisDeclarationHaveABody := doesThisDeclarationHaveABody D;
  getInstantiatedFromMemberFunction := getInstantiatedFromMemberFunction D;
  isTemplateInstantiation := isTemplateInstantiation D;
  getTemplateInstantiationPattern := getTemplateInstantiationPattern D;
  getBegin := getBegin D;
  asCXXMethodDecl := asCXXMethodDecl D;
  isPure := isPure D;
  isMain := isMain D;
  getCanonicalDecl := getCanonicalDecl D;
  hasConstructorAttr := hasConstructorAttr D;
  isWeak := true;
  getDefinition := getDefinition D;
  getQualifiedNameAsString := getQualifiedNameAsString D;
  redecls := redecls D;
  generateUSRForDecl := generateUSRForDecl D
|}.

Definition method (MD : CXXMethodDecl) (pure : bool) (D : FunctionDecl)
    : FunctionDecl := {|
  hasBody := hasBody D;
  doesThisDeclarationHaveABody := doesThisDeclarationHaveABody D;
  getInstantiatedFromMemberFunction := getInstantiatedFromMemberFunction D;
  isTemplateInstantiation := isTemplateInstantiation D;
  getTemplateInstantiationPattern := getTemplateInstantiationPattern D;
  getBegin := getBegin D;
  asCXXMethodDecl := Some MD;
  isPure := pure;
  isMain := isMain D;
  getCanonicalDecl := getCanonicalDecl D;
  hasConstructorAttr := hasConstructorAttr D;
  isWeak := isWeak D;
  getDefinition := getDefinition D;
  getQualifiedNameAsString := getQualifiedNameAsString D;
  redecls := redecls D;
  generateUSRForDecl := generateUSRForDecl D
|}.

(** What a pointer to nothing of interest points to. *)
Definition elsewhere : FunctionDecl :=
  function 1 None false (at_line 9 1) "printf" "c:@F@printf" [].

(** [a.cpp] defines [helper] (prototype in [api.h]) and calls [g], which
    [api.h] declares, twice. *)
Definition astA : ASTContext := fun p =>
  match p with
  | 10 => function 10 (Some 11) false (at_line 3 3) "helper" "c:@F@helper#"
            [10; 11]
  | 11 => function 10 (Some 11) true (at_line 1 7) "helper" "c:@F@helper#"
            [11; 10]
  | 20 => function 20 None false (at_line 3 5) "g" "c:@F@g#" [20]
  | _ => elsewhere
  end.

Definition tuA : TranslationUnit := {|
  Context := astA;
  SourceMgr := sourceManager 1;
  Results := [fnDecl 11; declRef (FunctionValue 20);
              declRef (FunctionValue 20)]
|}.

Definition matchedA : MatchedTU := {|
  TU_Context := astA;
  TU_SourceMgr := sourceManager 1;
  TU_Handler := {| Defs := [10]; Uses := [20] |}
|}.

(** [b.cpp] defines [g]. *)
Definition astB : ASTContext := fun p =>
  match p with
  | 20 => function 20 (Some 21) false (at_line 3 5) "g" "c:@F@g#" [20; 21]
  | 21 => function 20 (Some 21) true (at_line 2 4) "g" "c:@F@g#" [21; 20]
  | _ => elsewhere
  end.

Definition tuB : TranslationUnit := {|
  Context := astB;
  SourceMgr := sourceManager 2;
  Results := [fnDecl 21]
|}.

Definition matchedB : MatchedTU := {|
  TU_Context := astB;
  TU_SourceMgr := sourceManager 2;
  TU_Handler := {| Defs := [20]; Uses := [] |}
|}.

(** [w.c] holds a weak definition of [hook]; in [tuW] nothing refers to
    it, in [tuWUsed] the file calls it itself. *)
Definition astW : ASTContext := fun p =>
  match p with
  | 30 => weak (function 30 (Some 30) true (at_line 8 2) "hook" "c:@F@hook"
                  [30])
  | _ => elsewhere
  end.

Definition tuW : TranslationUnit := {|
  Context := astW;
  SourceMgr := sourceManager 8;
  Results := [fnDecl 30]
|}.

Definition matchedW : MatchedTU := {|
  TU_Context := astW;
  TU_SourceMgr := sourceManager 8;
  TU_Handler := {| Defs := [30]; Uses := [] |}
|}.

Definition handlerWUsed : FunctionDeclMatchHandler :=
  {| Defs := [30]; Uses := [30] |}.

(** [tool1.c] and [tool2.c] are two programs of the project; each has its
    own [usage], with external linkage, that nothing calls. *)
Definition astTool (file line : N) : ASTContext := fun p =>
  match p with
  | 40 => function 40 (Some 40) true (at_line file line) "usage"
            "c:@F@usage#" [40]
  | _ => elsewhere
  end.

Definition tuTool1 : TranslationUnit := {|
  Context := astTool 5 12;
  SourceMgr := sourceManager 5;
  Results := [fnDecl 40]
|}.

Definition tuTool2 : TranslationUnit := {|
  Context := astTool 6 30;
  SourceMgr := sourceManager 6;
  Results := [fnDecl 40]
|}.

(** [d.cpp]: [struct B { virtual void f(); };
    struct D : B { void f() override = 0; };  void D::f() {}].
    [D::f] overrides the non-pure [B::f], is pure itself, and has a body. *)
Definition astD : ASTContext := fun p =>
  match p with
  | 1 => method {| isVirtual := true; overridden_methods := [2];
                   isCXXDestructorDecl := false |} true
           (function 3 (Some 1) true (at_line 7 9) "D::f" "c:@S@D@F@f#"
              [1; 3])
  | 2 => method {| isVirtual := true; overridden_methods := [];
                   isCXXDestructorDecl := false |} false
           (function 2 None false (at_line 7 2) "B::f" "c:@S@B@F@f#" [2])
  | 3 => method {| isVirtual := true; overridden_methods := [2];
                   isCXXDestructorDecl := false |} true
           (function 3 (Some 1) false (at_line 7 5) "D::f" "c:@S@D@F@f#"
              [3; 1])
  | _ => elsewhere
  end.

Definition tuD : TranslationUnit := {|
  Context := astD;
  SourceMgr := sourceManager 7;
  Results := [fnDecl 1]
|}.

(** [src/c.cpp], compiled under that relative name, defines [orphan],
    which [include/api.h] declares and nothing calls. *)
Definition astC : ASTContext := fun p =>
  match p with
  | 50 => function 50 (Some 51) false (at_line 3 8) "orphan" "c:@F@orphan#"
            [50; 51]
  | 51 => function 50 (Some 51) true (at_line 4 4) "orphan" "c:@F@orphan#"
            [51; 50]
  | _ => elsewhere
  end.

Definition tuC : TranslationUnit := {|
  Context := astC;
  SourceMgr := sourceManager 4;
  Results := [fnDecl 51]
|}.

End Project.

(** ** What the matcher collects, one callback at a time *)

(** Lines 177-204 as one test: the declaration whose canonical declaration
    line 208 inserts into [Defs] for a definition match of [F], when the
    match is not turned away. *)
Definition acceptedSubject (Ctx : ASTContext) (SM : SourceManager)
    (F : FunctionDeclPtr) : option FunctionDeclPtr :=
  if hasBody (Ctx F) then
    F' ← definitionSubject Ctx F;
    let Begin := getBegin (Ctx F') in
    if isInSystemHeader SM Begin
       || negb (isWrittenInMainFile SM Begin)
       || isOverridingMethod Ctx F'
       || isDestructor Ctx F'
       || isMain (Ctx F')
    then None
    else Some F'
  else None.

(** Lines 164-173: the canonical declaration that [handleUse] inserts into
    [Uses] for the function [FD], if it inserts one. *)
Definition recordedUse (Ctx : ASTContext) (SM : SourceManager)
    (FD : FunctionDeclPtr) : option FunctionDeclPtr :=
  if isInSystemHeader SM (getBegin (Ctx FD)) then None
  else
    FD' ← instantiationPattern Ctx FD;
    Some (getCanonicalDecl (Ctx FD')).

(** The member of [Uses] that one callback accounts for: the declaration a
    use callback refers to, or the definition itself when it carries the
    constructor attribute (lines 210-212). *)
Definition useOfResult (Ctx : ASTContext) (SM : SourceManager)
    (R : MatchResult) : option FunctionDeclPtr :=
  match R with
  | fnDecl F =>
      F' ← acceptedSubject Ctx SM F;
      if hasConstructorAttr (Ctx F') then recordedUse Ctx SM F' else None
  | _ => referencedBy R ≫= recordedUse Ctx SM
  end.

(** Lines 89-91: the site recorded for the redeclaration [R]. *)
Definition declarationSite (Ctx : ASTContext) (SM : SourceManager)
    (R : FunctionDeclPtr) : DeclLoc.t :=
  DeclLoc.mk (makeAbsolutePath SM (getFilename SM (getBegin (Ctx R))))
    (getSpellingLineNumber SM (getBegin (Ctx R))).

(** The definition observations of the symbol [USR] in the order in which
    the run makes them. *)
Definition definitionsOf (TUs : list MatchedTU) (USR : string)
    : list DefInfo.t :=
  TUs ≫= fun TU => omap (definitionFor TU USR) (UnusedDefs (TU_Handler TU)).

(** The number of canonical declarations of the symbol [USR] in the ranges
    [ExternalUses] of the translation units, added up. *)
Definition externalUseTotal (TUs : list MatchedTU) (USR : string) : N :=
  foldr N.add 0%N
    ((fun TU => N.of_nat (length (externalUsesOf TU USR))) <$> TUs).

(** ** More example data *)

Module Examples.

Definition fileName (file : N) : string :=
  match file with
  | 1 => "/proj/e.cpp"
  | 2 => "/proj/e.h"
  | 3 => "/proj/s.cpp"
  | _ => "/usr/include/stdlib.h"
  end%N.

(** The source manager of the translation unit whose main file is
    [mainFile]; a location is a file number and a line. *)
Definition sourceManager (mainFile : N) : SourceManager := {|
  getFilename := fun l => fileName (l / 1000)%N;
  getSpellingLineNumber := fun l => (l mod 1000)%N;
  isInSystemHeader := fun l => (4 <=? l / 1000)%N;
  isWrittenInMainFile := fun l => (l / 1000 =? mainFile)%N;
  makeAbsolutePath := fun Path => Path
|}.

(** A declaration of a free function; [pattern] is the template pattern
    when the function is a template instantiation. *)
Definition decl (canonical : FunctionDeclPtr)
    (definition pattern : option FunctionDeclPtr) (body ctor weak : bool)
    (file line : N) (name : string) (usr : option string)
    (chain : list FunctionDeclPtr) : FunctionDecl := {|
  hasBody := bool_decide (is_Some definition);
  doesThisDeclarationHaveABody := body;
  getInstantiatedFromMemberFunction := None;
  isTemplateInstantiation := bool_decide (is_Some pattern);
  getTemplateInstantiationPattern := pattern;
  getBegin := (file * 1000 + line)%N;
  asCXXMethodDecl := None;
  isPure := false;
  isMain := false;
  getCanonicalDecl := canonical;
  hasConstructorAttr := ctor;
  isWeak := weak;
  getDefinition := definition;
  getQualifiedNameAsString := name;
  redecls := chain;
  generateUSRForDecl := usr
|}.

(** [e.cpp]:
    - [setup] (1) carries the constructor attribute and nothing calls it;
    - [twice<T>] (2) is a function template defined in [e.cpp], and [run_all]
      (4) calls its instantiation [twice<int>] (3);
    - [run_all] (4) is declared in [e.h] (5) and defined in [e.cpp], and
      calls [abort] (6) of a system header too;
    - [fallback] (7) is a weak definition that [run_all] calls;
    - [local] (8) has no USR. *)
Definition astE : ASTContext := fun p =>
  match p with
  | 1 => decl 1 (Some 1) None true true false 1 3 "setup" (Some "c:@F@setup")
           [1]
  | 2 => decl 2 (Some 2) None true false false 1 6 "twice"
           (Some "c:@FT@twice") [2]
  | 3 => decl 3 (Some 3) (Some 2) true false false 1 6 "twice"
           (Some "c:@F@twice<#I>") [3]
  | 4 => decl 5 (Some 4) None true false false 1 9 "run_all"
           (Some "c:@F@run_all") [4; 5]
  | 5 => decl 5 (Some 4) None false false false 2 1 "run_all"
           (Some "c:@F@run_all") [5; 4]
  | 7 => decl 7 (Some 7) None true false true 1 15 "fallback"
           (Some "c:@F@fallback") [7]
  | 8 => decl 8 (Some 8) None true false false 1 20 "local" None [8]
  | _ => decl 6 None None false false false 4 40 "abort" (Some "c:@F@abort")
           [6]
  end.

Definition callbacks : list MatchResult :=
  [fnDecl 1; fnDecl 2; fnDecl 3; fnDecl 4; declRef (FunctionValue 3);
   declRef (FunctionValue 6); declRef OtherValue; fnDecl 7;
   declRef (FunctionValue 7); fnDecl 8].

Definition tuE : TranslationUnit := {|
  Context := astE;
  SourceMgr := sourceManager 1;
  Results := callbacks
|}.

(** The handler that the matcher reaches on [e.cpp]. *)
Definition handlerE : FunctionDeclMatchHandler :=
  {| Defs := [1; 2; 5; 7; 8]; Uses := [1; 2; 7] |}.

Definition matchedE : MatchedTU := {|
  TU_Context := astE;
  TU_SourceMgr := sourceManager 1;
  TU_Handler := handlerE
|}.

(** A translation unit in which [twice<int>] has lost its pattern: the
    assertion of line 185 fails on it. *)
Definition astBroken : ASTContext := fun p =>
  match p with
  | 3 => {| hasBody := true;
            doesThisDeclarationHaveABody := true;
            getInstantiatedFromMemberFunction := None;
            isTemplateInstantiation := true;
            getTemplateInstantiationPattern := None;
            getBegin := 1006%N;
            asCXXMethodDecl := None;
            isPure := false;
            isMain := false;
            getCanonicalDecl := 3;
            hasConstructorAttr := false;
            isWeak := false;
            getDefinition := Some 3;
            getQualifiedNameAsString := "twice";
            redecls := [3];
            generateUSRForDecl := Some "c:@F@twice<#I>" |}
  | _ => astE p
  end.

Definition tuBroken : TranslationUnit := {|
  Context := astBroken;
  SourceMgr := sourceManager 1;
  Results := [fnDecl 3]
|}.

(** [s.cpp] holds the strong definition of [fallback]; nothing in
    [s.cpp] calls it. *)
Definition astS : ASTContext := fun p =>
  match p with
  | 7 => decl 7 (Some 7) None true false false 3 2 "fallback"
           (Some "c:@F@fallback") [7]
  | _ => decl 6 None None false false false 4 40 "abort" (Some "c:@F@abort")
           [6]
  end.

Definition tuS : TranslationUnit := {|
  Context := astS;
  SourceMgr := sourceManager 3;
  Results := [fnDecl 7]
|}.

Definition matchedS : MatchedTU := {|
  TU_Context := astS;
  TU_SourceMgr := sourceManager 3;
  TU_Handler := {| Defs := [7]; Uses := [] |}
|}.

(** The table when [s.cpp] has been handled. *)
Definition tableS : AllDeclsMap :=
  {[ "c:@F@fallback" := definitionOf astS (sourceManager 3) 7 ]}.

End Examples.

(** ** The text of a list of findings *)

(** What the report loop writes for a list of findings: for each of them
    the warning line, then its note lines. *)
Definition reportText (fs : list (string * DefInfo.t)) : string :=
  concatText (fs ≫= fun KV => findingText KV.2).

(** ** Example data: exempt definitions, and a weak definition overridden *)

Module Scenarios.

(** The entry point. *)
Definition entryPoint (D : FunctionDecl) : FunctionDecl := {|
  hasBody := hasBody D;
  doesThisDeclarationHaveABody := doesThisDeclarationHaveABody D;
  getInstantiatedFromMemberFunction := getInstantiatedFromMemberFunction D;
  isTemplateInstantiation := isTemplateInstantiation D;
  getTemplateInstantiationPattern := getTemplateInstantiationPattern D;
  getBegin := getBegin D;
  asCXXMethodDecl := asCXXMethodDecl D;
  isPure := isPure D;
  isMain := true;
  getCanonicalDecl := getCanonicalDecl D;
  hasConstructorAttr := hasConstructorAttr D;
  isWeak := isWeak D;
  getDefinition := getDefinition D;
  getQualifiedNameAsString := getQualifiedNameAsString D;
  redecls := redecls D;
  generateUSRForDecl := generateUSRForDecl D
|}.

(** A definition that is [= default] or [= delete]: it has no body. *)
Definition bodiless (D : FunctionDecl) : FunctionDecl := {|
  hasBody := false;
  doesThisDeclarationHaveABody := false;
  getInstantiatedFromMemberFunction := getInstantiatedFromMemberFunction D;
  isTemplateInstantiation := isTemplateInstantiation D;
  getTemplateInstantiationPattern := getTemplateInstantiationPattern D;
  getBegin := getBegin D;
  asCXXMethodDecl := asCXXMethodDecl D;
  isPure := isPure D;
  isMain := isMain D;
  getCanonicalDecl := getCanonicalDecl D;
  hasConstructorAttr := hasConstructorAttr D;
  isWeak := isWeak D;
  getDefinition := getDefinition D;
  getQualifiedNameAsString := getQualifiedNameAsString D;
  redecls := redecls D;
  generateUSRForDecl := generateUSRForDecl D
|}.

Definition plainMethod : CXXMethodDecl :=
  {| isVirtual := false; overridden_methods := [];
     isCXXDestructorDecl := false |}.

Definition destructor : CXXMethodDecl :=
  {| isVirtual := false; overridden_methods := [];
     isCXXDestructorDecl := true |}.

Definition virtualMethod (overridden : list FunctionDeclPtr)
    : CXXMethodDecl :=
  {| isVirtual := true; overridden_methods := overridden;
     isCXXDestructorDecl := false |}.

(** [d.cpp] in full, where nothing is ever called:
    [struct B { virtual void f(); virtual void g(); };
     struct D : B { D() = default; ~D(); void f() override = 0;
                    void g() override; };
     D::~D() {}  void D::f() {}  void D::g() {}
     void spare() {}  int main() {}]. *)
Definition astV : ASTContext := fun p =>
  match p with
  | 1 => entryPoint
           (Project.function 1 (Some 1) true (Project.at_line 7 40) "main"
              "c:@F@main" [1])
  | 2 => Project.method destructor false
           (Project.function 2 (Some 3) false (Project.at_line 7 5) "D::~D"
              "c:@S@D@F@~D#" [2; 3])
  | 3 => Project.method destructor false
           (Project.function 2 (Some 3) true (Project.at_line 7 20) "D::~D"
              "c:@S@D@F@~D#" [3; 2])
  | 4 => Project.method (virtualMethod [11]) false
           (Project.function 4 (Some 5) false (Project.at_line 7 7) "D::g"
              "c:@S@D@F@g#" [4; 5])
  | 5 => Project.method (virtualMethod [11]) false
           (Project.function 4 (Some 5) true (Project.at_line 7 24) "D::g"
              "c:@S@D@F@g#" [5; 4])
  | 6 => Project.method (virtualMethod [10]) true
           (Project.function 6 (Some 7) false (Project.at_line 7 6) "D::f"
              "c:@S@D@F@f#" [6; 7])
  | 7 => Project.method (virtualMethod [10]) true
           (Project.function 6 (Some 7) true (Project.at_line 7 22) "D::f"
              "c:@S@D@F@f#" [7; 6])
  | 8 => bodiless
           (Project.method plainMethod false
              (Project.function 8 (Some 8) true (Project.at_line 7 4) "D::D"
                 "c:@S@D@F@D#" [8]))
  | 9 => Project.function 9 (Some 9) true (Project.at_line 7 30) "spare"
           "c:@F@spare#" [9]
  | 10 => Project.method (virtualMethod []) false
            (Project.function 10 None false (Project.at_line 7 1) "B::f"
               "c:@S@B@F@f#" [10])
  | 11 => Project.method (virtualMethod []) false
            (Project.function 11 None false (Project.at_line 7 2) "B::g"
               "c:@S@B@F@g#" [11])
  | _ => Project.elsewhere
  end.

Definition tuV : TranslationUnit := {|
  Context := astV;
  SourceMgr := Project.sourceManager 7;
  Results := [fnDecl 8; fnDecl 3; fnDecl 7; fnDecl 5; fnDecl 9; fnDecl 1]
|}.

(** The handler that the matcher reaches on [d.cpp]: of the six
    definitions only [D::f] (canonical declaration 6) and [spare] are let
    through. *)
Definition matchedV : MatchedTU := {|
  TU_Context := astV;
  TU_SourceMgr := Project.sourceManager 7;
  TU_Handler := {| Defs := [6; 9]; Uses := [] |}
|}.

(** A [b.cpp] that holds the strong definition of [hook], which [w.c]
    defines weakly; nothing calls [hook]. *)
Definition astH : ASTContext := fun p =>
  match p with
  | 31 => Project.function 31 (Some 31) true (Project.at_line 2 40) "hook"
            "c:@F@hook" [31]
  | _ => Project.elsewhere
  end.

Definition tuH : TranslationUnit := {|
  Context := astH;
  SourceMgr := Project.sourceManager 2;
  Results := [fnDecl 31]
|}.

Definition matchedH : MatchedTU := {|
  TU_Context := astH;
  TU_SourceMgr := Project.sourceManager 2;
  TU_Handler := {| Defs := [31]; Uses := [] |}
|}.

End Scenarios.

(** * Part II: lemmas and theorems *)

(** ** The two containers *)

Section std_set_facts.

Import StdSet.

Lemma is_set_cons x c :
  is_set (x :: c) = true <-> Forall (fun y => x < y) c /\ is_set c = true.
Proof.
  revert x. induction c as [|y c IH]; intros x.
  - simpl. split; [intros _; split; [constructor | reflexivity] | reflexivity].
  - change (is_set (x :: y :: c)) with ((x <? y) && is_set (y :: c))%bool.
    rewrite andb_true_iff, Pos.ltb_lt, (IH y). split.
    + intros (Hxy & Hall & Hc). split; [|split; assumption].
      constructor; [assumption|].
      eapply Forall_impl; [exact Hall|]. intros z Hz. simpl in Hz. lia.
    + intros (Hall & Hc). inversion Hall; subst. tauto.
Qed.

Lemma is_set_NoDup c : is_set c = true -> NoDup c.
Proof.
  induction c as [|x c IH]; intros H; [constructor|].
  apply is_set_cons in H as [Hall Hc]. constructor; [|auto].
  intros Hin. rewrite Forall_forall in Hall. specialize (Hall _ Hin). lia.
Qed.

Lemma elem_of_insert x y c : y ∈ insert x c <-> y = x \/ y ∈ c.
Proof.
  induction c as [|z c IH]; simpl.
  - rewrite list_elem_of_singleton. rewrite elem_of_nil. tauto.
  - destruct (x <? z) eqn:Hxz; [rewrite !elem_of_cons; tauto|].
    destruct (z <? x) eqn:Hzx.
    + rewrite !elem_of_cons, IH. tauto.
    + apply Pos.ltb_ge in Hxz, Hzx. assert (x = z) by lia. subst z.
      rewrite elem_of_cons. tauto.
Qed.

Lemma is_set_insert x c : is_set c = true -> is_set (insert x c) = true.
Proof.
  induction c as [|z c IH]; intros Hc; [reflexivity|].
  simpl. destruct (x <? z) eqn:Hxz.
  - apply is_set_cons. split; [|assumption].
    apply Pos.ltb_lt in Hxz. apply is_set_cons in Hc as [Hall _].
    constructor; [assumption|].
    eapply Forall_impl; [exact Hall|]. intros w Hw. simpl in Hw. lia.
  - destruct (z <? x) eqn:Hzx; [|assumption].
    apply Pos.ltb_lt in Hzx. apply is_set_cons in Hc as [Hall Hc].
    apply is_set_cons. split; [|auto].
    rewrite Forall_forall in *. intros w Hw.
    apply elem_of_insert in Hw as [->|Hw]; auto.
Qed.

Lemma discard_if_filter pred c :
  discard_if pred c = filter (fun x => pred x = false) c.
Proof.
  induction c as [|x c IH]; [reflexivity|]. cbn [discard_if].
  destruct (pred x) eqn:Hp.
  - rewrite filter_cons_False by (rewrite Hp; discriminate). exact IH.
  - rewrite filter_cons_True by exact Hp. by rewrite IH.
Qed.

Lemma elem_of_discard_if pred c x :
  x ∈ discard_if pred c <-> x ∈ c /\ pred x = false.
Proof. rewrite discard_if_filter, list_elem_of_filter. tauto. Qed.

Lemma is_set_discard_if pred c :
  is_set c = true -> is_set (discard_if pred c) = true.
Proof.
  induction c as [|x c IH]; intros Hc; [reflexivity|].
  apply is_set_cons in Hc as [Hall Hc]. simpl.
  destruct (pred x); [auto|].
  apply is_set_cons. split; [|auto].
  rewrite Forall_forall in *. intros y Hy.
  apply elem_of_discard_if in Hy as [Hy _]. auto.
Qed.

Lemma filter_agree {A} (P Q : A -> Prop)
    `{!forall x, Decision (P x)} `{!forall x, Decision (Q x)} (l : list A) :
  (forall x, x ∈ l -> P x <-> Q x) -> filter P l = filter Q l.
Proof.
  induction l as [|x l IH]; intros HPQ; [reflexivity|].
  rewrite !filter_cons.
  assert (filter P l = filter Q l) as ->
    by (apply IH; intros z Hz; apply HPQ; by right).
  destruct (HPQ x (list_elem_of_here x l)) as [HP HQ].
  destruct (decide (P x)), (decide (Q x)); tauto.
Qed.

(** On two sorted ranges the walk computes the set-theoretic difference,
    keeping the order of the first range. *)
Lemma set_difference_filter r1 r2 :
  is_set r1 = true -> is_set r2 = true ->
  set_difference r1 r2 = filter (fun x => x ∉ r2) r1.
Proof.
  revert r2. induction r1 as [|x r1 IH1]; intros r2 H1 H2; [reflexivity|].
  induction r2 as [|y r2 IH2].
  - cbn [set_difference]. rewrite filter_cons_True by apply not_elem_of_nil.
    f_equal. clear. induction r1 as [|z r1 IH]; [reflexivity|].
    rewrite filter_cons_True by apply not_elem_of_nil. by f_equal.
  - pose proof H1 as H1'. pose proof H2 as H2'.
    apply is_set_cons in H1' as [Hall1 Hr1].
    apply is_set_cons in H2' as [Hall2 Hr2].
    rewrite Forall_forall in Hall1, Hall2.
    change (set_difference (x :: r1) (y :: r2)) with
      (if x <? y then x :: set_difference r1 (y :: r2)
       else if y <? x then set_difference (x :: r1) r2
       else set_difference r1 r2).
    destruct (x <? y) eqn:Hxy; [|destruct (y <? x) eqn:Hyx].
    + apply Pos.ltb_lt in Hxy.
      rewrite filter_cons_True.
      * f_equal. by apply IH1.
      * rewrite not_elem_of_cons. split; [lia|].
        intros Hin. specialize (Hall2 _ Hin). lia.
    + apply Pos.ltb_lt in Hyx. rewrite IH2 by assumption.
      apply filter_agree. intros z Hz.
      rewrite not_elem_of_cons.
      assert (z ≠ y); [|tauto].
      apply elem_of_cons in Hz as [->|Hz]; [lia|].
      specialize (Hall1 _ Hz). lia.
    + apply Pos.ltb_ge in Hxy, Hyx. assert (x = y) by lia. subst y.
      rewrite filter_cons_False by (rewrite elem_of_cons; tauto).
      rewrite IH1 by assumption.
      apply filter_agree. intros z Hz.
      rewrite not_elem_of_cons.
      assert (z ≠ x); [|tauto].
      specialize (Hall1 _ Hz). lia.
Qed.

Lemma elem_of_set_difference r1 r2 x :
  is_set r1 = true -> is_set r2 = true ->
  x ∈ set_difference r1 r2 <-> x ∈ r1 /\ x ∉ r2.
Proof.
  intros H1 H2. rewrite set_difference_filter by assumption.
  rewrite list_elem_of_filter. tauto.
Qed.

Lemma set_difference_NoDup r1 r2 :
  is_set r1 = true -> is_set r2 = true -> NoDup (set_difference r1 r2).
Proof.
  intros H1 H2. rewrite set_difference_filter by assumption.
  apply NoDup_filter, is_set_NoDup, H1.
Qed.

End std_set_facts.

(** ** [finalize] refines the merge of the specification *)

Section merge_refinement.

Context (Ctx : ASTContext) (SM : SourceManager).

Lemma recordUnusedDef_merge F0 F USR AllDecls :
  getDefinition (Ctx F0) = Some F ->
  getUSRForDecl Ctx F = Some USR ->
  recordUnusedDef Ctx SM F0 AllDecls
  = Some (merge1 AllDecls (USR, Defined (definitionOf Ctx SM F))).
Proof.
  intros HF HU. unfold recordUnusedDef, merge1, emplace.
  rewrite HF. cbn [mbind option_bind]. rewrite HU. cbn [fst snd].
  destruct (AllDecls !! USR) as [I|] eqn:HI; cbn [negb default]; f_equal;
    apply map_eq; intros k; destruct (decide (k = USR)) as [->|Hne].
  - by rewrite !lookup_alter_eq, HI, lookup_insert_eq.
  - by rewrite !lookup_alter_ne, lookup_insert_ne.
  - by rewrite !lookup_alter_eq, !lookup_insert_eq.
  - by rewrite !lookup_alter_ne, !lookup_insert_ne.
Qed.

Lemma recordUnusedDef_no_USR F0 F AllDecls :
  getDefinition (Ctx F0) = Some F ->
  getUSRForDecl Ctx F = None ->
  recordUnusedDef Ctx SM F0 AllDecls = Some AllDecls.
Proof.
  intros HF HU. unfold recordUnusedDef.
  rewrite HF. cbn [mbind option_bind]. by rewrite HU.
Qed.

Lemma recordUnusedDef_assert F0 AllDecls :
  getDefinition (Ctx F0) = None -> recordUnusedDef Ctx SM F0 AllDecls = None.
Proof. intros HF. unfold recordUnusedDef. by rewrite HF. Qed.

Lemma recordExternalUse_merge F USR AllDecls :
  getUSRForDecl Ctx F = Some USR ->
  recordExternalUse Ctx F AllDecls = merge1 AllDecls (USR, Used).
Proof.
  intros HU. unfold recordExternalUse, merge1, emplace. rewrite HU.
  cbn [fst snd].
  destruct (AllDecls !! USR) as [I|] eqn:HI; cbn [negb default].
  - apply map_eq; intros k; destruct (decide (k = USR)) as [->|Hne].
    + by rewrite lookup_alter_eq, HI, lookup_insert_eq.
    + by rewrite lookup_alter_ne, lookup_insert_ne.
  - reflexivity.
Qed.

Lemma recordUnusedDefs_merge Fs AllDecls :
  forallb (fun F => bool_decide (is_Some (getDefinition (Ctx F)))) Fs = true ->
  recordUnusedDefs Ctx SM Fs AllDecls
  = Some (merge AllDecls (omap (defObservation Ctx SM) Fs)).
Proof.
  revert AllDecls. induction Fs as [|F0 Fs IH]; intros AllDecls Hall;
    [reflexivity|].
  cbn [forallb] in Hall. apply andb_true_iff in Hall as [HF Hall].
  apply bool_decide_eq_true in HF as [F HF].
  cbn [recordUnusedDefs omap list_omap]. unfold defObservation at 1.
  rewrite HF. cbn [mbind option_bind].
  destruct (getUSRForDecl Ctx F) as [USR|] eqn:HU.
  - rewrite (recordUnusedDef_merge _ _ _ _ HF HU).
    cbn [mbind option_bind]. by rewrite IH.
  - rewrite (recordUnusedDef_no_USR _ _ _ HF HU).
    cbn [mbind option_bind]. by rewrite IH.
Qed.

Lemma recordUnusedDefs_assert Fs AllDecls :
  forallb (fun F => bool_decide (is_Some (getDefinition (Ctx F)))) Fs = false ->
  recordUnusedDefs Ctx SM Fs AllDecls = None.
Proof.
  revert AllDecls. induction Fs as [|F0 Fs IH]; intros AllDecls Hall;
    [discriminate|].
  cbn [forallb] in Hall. cbn [recordUnusedDefs].
  destruct (getDefinition (Ctx F0)) as [F|] eqn:HF.
  - rewrite bool_decide_eq_true_2 in Hall by eauto. cbn [andb] in Hall.
    destruct (recordUnusedDef Ctx SM F0 AllDecls); [|reflexivity].
    cbn [mbind option_bind]. by apply IH.
  - by rewrite recordUnusedDef_assert.
Qed.

Lemma recordExternalUses_merge Fs AllDecls :
  recordExternalUses Ctx Fs AllDecls
  = merge AllDecls (omap (useObservation Ctx) Fs).
Proof.
  revert AllDecls. induction Fs as [|F Fs IH]; intros AllDecls;
    [reflexivity|].
  cbn [recordExternalUses omap list_omap]. unfold useObservation at 1.
  destruct (getUSRForDecl Ctx F) as [USR|] eqn:HU; cbn [mbind option_bind].
  - rewrite IH. by rewrite (recordExternalUse_merge _ _ _ HU).
  - rewrite IH. unfold recordExternalUse. by rewrite HU.
Qed.

End merge_refinement.

(** [finalize] refines the specification's classifier-then-merge. *)
Lemma finalize_merge TU AllDecls :
  definitionsFound TU = true ->
  finalize (TU_Context TU) (TU_SourceMgr TU) (TU_Handler TU) AllDecls
  = Some ({| Defs := StdSet.discard_if (fun FD => isWeak (TU_Context TU FD))
                       (Defs (TU_Handler TU));
             Uses := Uses (TU_Handler TU) |},
          merge AllDecls (tuResult TU)).
Proof.
  intros Hfound. unfold finalize.
  rewrite (recordUnusedDefs_merge _ _ _ _ Hfound). cbn [mbind option_bind].
  rewrite recordExternalUses_merge. unfold merge, tuResult.
  by rewrite foldl_app.
Qed.

Lemma finalize_assert TU AllDecls :
  definitionsFound TU = false ->
  finalize (TU_Context TU) (TU_SourceMgr TU) (TU_Handler TU) AllDecls = None.
Proof.
  intros Hfound. unfold finalize.
  by rewrite (recordUnusedDefs_assert _ _ _ _ Hfound).
Qed.

Lemma finalizeAll_merge TUs AllDecls :
  forallb definitionsFound TUs = true ->
  finalizeAll TUs AllDecls = Some (merge AllDecls (TUs ≫= tuResult)).
Proof.
  revert AllDecls. induction TUs as [|TU TUs IH]; intros AllDecls Hall;
    [reflexivity|].
  cbn [forallb] in Hall. apply andb_true_iff in Hall as [HTU Hall].
  cbn [finalizeAll]. rewrite (finalize_merge _ _ HTU).
  cbn [mbind option_bind snd]. rewrite IH by assumption.
  rewrite bind_cons. unfold merge. by rewrite foldl_app.
Qed.

Lemma finalizeAll_assert TUs AllDecls :
  forallb definitionsFound TUs = false -> finalizeAll TUs AllDecls = None.
Proof.
  revert AllDecls. induction TUs as [|TU TUs IH]; intros AllDecls Hall;
    [discriminate|].
  cbn [forallb] in Hall. cbn [finalizeAll].
  destruct (definitionsFound TU) eqn:HTU.
  - rewrite (finalize_merge _ _ HTU). cbn [mbind option_bind snd].
    by apply IH.
  - by rewrite finalize_assert.
Qed.

(** ** The record of one symbol after a sequence of observations *)

Lemma usedIn_snoc_Used os : usedIn (os ++ [Used]) = (usedIn os + 1)%N.
Proof. unfold usedIn. rewrite omap_app, length_app. simpl. lia. Qed.

Lemma usedIn_snoc_Defined os D : usedIn (os ++ [Defined D]) = usedIn os.
Proof.
  unfold usedIn. rewrite omap_app, length_app. simpl.
  by rewrite Nat.add_0_r.
Qed.

Lemma foldl_observe os I :
  (DefInfo.Uses I < SIZE_MODULUS)%N ->
  foldl (fun I o => observe o I) I os = summaryOf os I.
Proof.
  intros HI. induction os as [|o os IH] using rev_ind.
  - unfold summaryOf, usedIn. cbn [foldl definedIn omap list_omap last default
      length N.of_nat].
    rewrite N.add_0_r, N.mod_small by assumption. by destruct I.
  - rewrite foldl_snoc, IH. destruct o as [D|].
    + unfold summaryOf, definedIn. rewrite omap_app.
      cbn [omap list_omap app]. rewrite last_snoc.
      fold (definedIn os). rewrite usedIn_snoc_Defined.
      reflexivity.
    + unfold summaryOf, definedIn. rewrite omap_app.
      cbn [omap list_omap app]. rewrite app_nil_r.
      fold (definedIn os). rewrite usedIn_snoc_Used.
      unfold observe, DefInfo.incr_Uses.
      cbn [DefInfo.Definition_ DefInfo.Uses DefInfo.Name DefInfo.Filename
           DefInfo.Line DefInfo.Declarations].
      f_equal. rewrite N.Div0.add_mod_idemp_l. f_equal. lia.
Qed.

Lemma merge1_lookup_eq AllDecls USR o :
  merge1 AllDecls (USR, o) !! USR
  = Some (observe o (default blank (AllDecls !! USR))).
Proof. unfold merge1. cbn [fst snd]. apply lookup_insert_eq. Qed.

Lemma merge1_lookup_ne AllDecls USR KO :
  KO.1 <> USR -> merge1 AllDecls KO !! USR = AllDecls !! USR.
Proof. intros Hne. unfold merge1. by rewrite lookup_insert_ne. Qed.

(** The table after a merge, one symbol at a time. *)
Lemma lookup_merge AllDecls r USR :
  counts_bounded AllDecls ->
  merge AllDecls r !! USR
  = recordAfter (observationsOf USR r) (AllDecls !! USR).
Proof.
  intros Hb.
  assert (forall os (I : option DefInfo.t),
    (usesOf I < SIZE_MODULUS)%N ->
    foldl (fun r o => Some (observe o (default blank r))) I os
    = recordAfter os I) as Hfold.
  { clear. intros os. induction os as [|o os IH] using rev_ind; intros I HI;
      [reflexivity|].
    rewrite foldl_snoc, IH by assumption.
    assert (DefInfo.Uses (default blank I) < SIZE_MODULUS)%N as HI'
      by (destruct I; [exact HI|reflexivity]).
    unfold recordAfter. destruct (os ++ [o])%list eqn:Hos;
      [by destruct os|]. rewrite <-Hos. f_equal.
    rewrite <-(foldl_observe (os ++ [o])%list) by assumption.
    rewrite foldl_snoc. f_equal.
    destruct os as [|o' os']; [reflexivity|].
    cbn [default]. by rewrite foldl_observe. }
  rewrite <-Hfold.
  2:{ destruct (AllDecls !! USR) as [I|] eqn:HI;
        [exact (Hb _ _ HI) | reflexivity]. }
  clear Hb Hfold. unfold merge, observationsOf.
  revert AllDecls. induction r as [|[k o] r IH]; intros AllDecls;
    [reflexivity|].
  cbn [foldl omap list_omap fst snd]. rewrite IH.
  destruct (decide (k = USR)) as [->|Hne].
  - cbn [foldl]. by rewrite merge1_lookup_eq.
  - by rewrite merge1_lookup_ne.
Qed.

Lemma counts_bounded_empty : counts_bounded ∅.
Proof. intros k I HI. by rewrite lookup_empty in HI. Qed.

(** ** The report loop *)

Lemma append_String (x : ascii) (a b : string) :
  String x a +:+ b = String x (a +:+ b).
Proof. reflexivity. Qed.

Lemma append_assoc (a b c : string) : (a +:+ b) +:+ c = a +:+ (b +:+ c).
Proof.
  induction a as [|x a IH]; [reflexivity|].
  by rewrite !append_String, IH.
Qed.

Lemma append_nil_r (a : string) : a +:+ EmptyString = a.
Proof.
  induction a as [|x a IH]; [reflexivity|]. by rewrite append_String, IH.
Qed.

Lemma concatText_app ps qs :
  concatText (ps ++ qs) = concatText ps +:+ concatText qs.
Proof.
  induction ps as [|p ps IH]; [reflexivity|].
  cbn [app concatText foldr]. fold (concatText (ps ++ qs)).
  fold (concatText ps). by rewrite IH, append_assoc.
Qed.

Lemma elem_of_keys (AllDecls : AllDeclsMap) k :
  k ∈ keys AllDecls <-> is_Some (AllDecls !! k).
Proof.
  unfold keys. by rewrite merge_sort_Permutation, elem_of_elements, elem_of_dom.
Qed.

Lemma NoDup_keys (AllDecls : AllDeclsMap) : NoDup (keys AllDecls).
Proof. unfold keys. rewrite merge_sort_Permutation. apply NoDup_elements. Qed.

(** The loop visits the keys in increasing order. *)
Lemma Sorted_keys (AllDecls : AllDeclsMap) : Sorted String.le (keys AllDecls).
Proof. apply (Sorted_merge_sort String.le). Qed.

Lemma elem_of_entries (AllDecls : AllDeclsMap) k I :
  (k, I) ∈ entries AllDecls <-> AllDecls !! k = Some I.
Proof.
  unfold entries. rewrite list_elem_of_omap. split.
  - intros (k' & _ & Hk'). destruct (AllDecls !! k') as [I'|] eqn:HI';
      [|discriminate]. cbn in Hk'. by simplify_eq.
  - intros HI. exists k. split; [apply elem_of_keys; eauto|].
    by rewrite HI.
Qed.

Lemma entries_fst (AllDecls : AllDeclsMap) :
  (entries AllDecls).*1 = keys AllDecls.
Proof.
  unfold entries.
  assert (forall k, k ∈ keys AllDecls -> is_Some (AllDecls !! k)) as Hk
    by (intros k; apply elem_of_keys).
  induction (keys AllDecls) as [|k ks IH]; [reflexivity|].
  cbn [omap list_omap]. destruct (Hk k (list_elem_of_here _ _)) as [I ->].
  cbn. f_equal. apply IH. intros k' Hk'. apply Hk. by right.
Qed.

Lemma NoDup_entries_fst (AllDecls : AllDeclsMap) :
  NoDup (entries AllDecls).*1.
Proof. rewrite entries_fst. apply NoDup_keys. Qed.

Lemma elem_of_findings (AllDecls : AllDeclsMap) k I :
  (k, I) ∈ findings AllDecls
  <-> AllDecls !! k = Some I /\ isUnused I = true.
Proof.
  unfold findings. rewrite list_elem_of_filter, elem_of_entries.
  cbn [snd]. tauto.
Qed.

Lemma filter_key_absent {A} (l : list (string * A)) (k : string) :
  k ∉ l.*1 -> filter (fun KV => KV.1 = k) l = [].
Proof.
  intros Hk. apply elem_of_nil_inv. intros [k' a] [Hk' Hin]%list_elem_of_filter.
  cbn in Hk'. subst k'. apply Hk, list_elem_of_fmap. by exists (k, a).
Qed.

Lemma filter_key_unique {A} (l : list (string * A)) (k : string) (a : A) :
  NoDup l.*1 -> (k, a) ∈ l -> filter (fun KV => KV.1 = k) l = [(k, a)].
Proof.
  induction l as [|[k' a'] l IH]; intros Hnd Hin;
    [by apply elem_of_nil in Hin|].
  rewrite fmap_cons in Hnd. apply NoDup_cons in Hnd as [Hk' Hnd].
  rewrite filter_cons. cbn [fst] in *.
  apply elem_of_cons in Hin as [Heq|Hin].
  - simplify_eq. rewrite decide_True by reflexivity.
    by rewrite filter_key_absent.
  - rewrite decide_False; [by apply IH|].
    intros ->. apply Hk', list_elem_of_fmap. by exists (k, a).
Qed.

(** The findings that concern one symbol: at most one, and exactly the
    record of the symbol when the loop's test holds of it. *)
Lemma findings_of_key (AllDecls : AllDeclsMap) (USR : string) :
  filter (fun KV => KV.1 = USR) (findings AllDecls)
  = match AllDecls !! USR with
    | Some Info => if isUnused Info then [(USR, Info)] else []
    | None => []
    end.
Proof.
  assert (NoDup (findings AllDecls).*1) as Hnd.
  { unfold findings.
    eapply sublist_NoDup; [|apply fmap_sublist, sublist_filter].
    apply NoDup_entries_fst. }
  destruct (AllDecls !! USR) as [J|] eqn:HJ.
  - destruct (isUnused J) eqn:HU.
    + apply filter_key_unique; [assumption|]. by apply elem_of_findings.
    + apply filter_key_absent.
      intros ([k J'] & Hk & [HJ' HU']%elem_of_findings)%list_elem_of_fmap.
      cbn in Hk. subst k. congruence.
  - apply filter_key_absent.
    intros ([k J'] & Hk & [HJ' HU']%elem_of_findings)%list_elem_of_fmap.
    cbn in Hk. subst k. congruence.
Qed.

Lemma printNotes_text Ds errs :
  printNotes Ds errs = errs +:+ concatText (map noteLine Ds).
Proof.
  revert errs. induction Ds as [|D Ds IH]; intros errs.
  - cbn. by rewrite append_nil_r.
  - cbn [printNotes map concatText foldr]. rewrite IH.
    fold (concatText (map noteLine Ds)). by rewrite append_assoc.
Qed.

Lemma printEntry_text errs KV :
  printEntry errs KV
  = errs +:+ (if isUnused KV.2 then concatText (findingText KV.2)
              else EmptyString).
Proof.
  unfold printEntry. destruct (isUnused KV.2).
  - rewrite printNotes_text. unfold findingText.
    cbn [concatText foldr]. by rewrite append_assoc.
  - by rewrite append_nil_r.
Qed.

(** What the report loop writes: the findings in key order, each as its
    warning line followed by its note lines. *)
Lemma printReport_findings (AllDecls : AllDeclsMap) errs :
  printReport AllDecls errs
  = errs +:+ concatText (findings AllDecls ≫= fun KV => findingText KV.2).
Proof.
  unfold printReport, findings. revert errs.
  induction (entries AllDecls) as [|KV l IH]; intros errs.
  - cbn. by rewrite append_nil_r.
  - cbn [foldl]. rewrite IH, printEntry_text, filter_cons.
    destruct (isUnused KV.2) eqn:HU.
    + rewrite decide_True by reflexivity. rewrite bind_cons, concatText_app.
      by rewrite !append_assoc.
    + rewrite decide_False by discriminate. by rewrite append_nil_r.
Qed.

(** ** What one translation unit observes of one symbol *)

Lemma set_difference_sublist r1 r2 :
  sublist (StdSet.set_difference r1 r2) r1.
Proof.
  revert r2. induction r1 as [|x r1 IH1]; intros r2; [constructor|].
  induction r2 as [|y r2 IH2]; [reflexivity|].
  change (StdSet.set_difference (x :: r1) (y :: r2)) with
    (if x <? y then x :: StdSet.set_difference r1 (y :: r2)
     else if y <? x then StdSet.set_difference (x :: r1) r2
     else StdSet.set_difference r1 r2).
  destruct (x <? y); [by apply sublist_skip|].
  destruct (y <? x); [exact IH2|]. by apply sublist_cons.
Qed.

Lemma UnusedDefs_Defs h f : f ∈ UnusedDefs h -> f ∈ Defs h.
Proof. apply sublist_subseteq, set_difference_sublist. Qed.

Lemma ExternalUses_Uses Ctx h n : n ∈ ExternalUses Ctx h -> n ∈ Uses h.
Proof. apply sublist_subseteq, set_difference_sublist. Qed.

Lemma elem_of_UnusedDefs h f :
  handler_ok h = true -> f ∈ UnusedDefs h <-> f ∈ Defs h /\ f ∉ Uses h.
Proof.
  intros [HD HU]%andb_true_iff. by apply elem_of_set_difference.
Qed.

Lemma elem_of_ExternalUses Ctx h n :
  handler_ok h = true ->
  n ∈ ExternalUses Ctx h
  <-> n ∈ Uses h /\ ~ (n ∈ Defs h /\ isWeak (Ctx n) = false).
Proof.
  intros [HD HU]%andb_true_iff. unfold ExternalUses.
  rewrite elem_of_set_difference, elem_of_discard_if;
    auto using is_set_discard_if.
Qed.

Lemma NoDup_UnusedDefs h : handler_ok h = true -> NoDup (UnusedDefs h).
Proof.
  intros [HD HU]%andb_true_iff. by apply set_difference_NoDup.
Qed.

Lemma NoDup_ExternalUses Ctx h :
  handler_ok h = true -> NoDup (ExternalUses Ctx h).
Proof.
  intros [HD HU]%andb_true_iff.
  apply set_difference_NoDup; auto using is_set_discard_if.
Qed.

Lemma observationsOf_app USR r1 r2 :
  observationsOf USR (r1 ++ r2)
  = observationsOf USR r1 ++ observationsOf USR r2.
Proof. apply omap_app. Qed.

Lemma definedIn_app os1 os2 :
  definedIn (os1 ++ os2) = definedIn os1 ++ definedIn os2.
Proof. apply omap_app. Qed.

Lemma usedIn_app os1 os2 : usedIn (os1 ++ os2) = (usedIn os1 + usedIn os2)%N.
Proof. unfold usedIn. rewrite omap_app, length_app. lia. Qed.

Section tu_observations.

Context (TU : MatchedTU) (USR : string).
Let Ctx := TU_Context TU.
Let SM := TU_SourceMgr TU.
Let h := TU_Handler TU.

Lemma definitionFor_Some f D :
  definitionFor TU USR f = Some D
  <-> exists F, getDefinition (Ctx f) = Some F
                /\ getUSRForDecl Ctx F = Some USR
                /\ D = definitionOf Ctx SM F.
Proof.
  unfold definitionFor. fold Ctx SM.
  destruct (getDefinition (Ctx f)) as [F|]; cbn [mbind option_bind].
  - destruct (decide (getUSRForDecl Ctx F = Some USR)) as [HU|HU].
    + split; [intros [= <-]; eauto|]. by intros (F' & [= <-] & _ & ->).
    + split; [discriminate|]. intros (F' & [= <-] & HU' & _). congruence.
  - split; [discriminate|]. by intros (F' & [=] & _).
Qed.

Lemma definitionFor_definitionUSR f :
  is_Some (definitionFor TU USR f) <-> definitionUSR Ctx f = Some USR.
Proof.
  unfold definitionFor, definitionUSR. fold Ctx SM.
  destruct (getDefinition (Ctx f)) as [F|]; cbn [mbind option_bind].
  - destruct (decide (getUSRForDecl Ctx F = Some USR)) as [HU|HU].
    + split; [done|eauto].
    + split; [by intros [? [=]]|done].
  - split; [by intros [? [=]]|done].
Qed.

Lemma observationsOf_defs Fs :
  observationsOf USR (omap (defObservation Ctx SM) Fs)
  = Defined <$> omap (definitionFor TU USR) Fs.
Proof.
  unfold observationsOf. induction Fs as [|f Fs IH]; [reflexivity|].
  cbn [omap list_omap]. unfold defObservation at 1, definitionFor at 1.
  fold Ctx SM. destruct (getDefinition (Ctx f)) as [F|];
    cbn [mbind option_bind]; [|exact IH].
  destruct (getUSRForDecl Ctx F) as [k|] eqn:HU;
    cbn [mbind option_bind omap list_omap fst snd].
  - destruct (decide (k = USR)) as [->|Hne].
    + rewrite decide_True by reflexivity. rewrite fmap_cons. by f_equal.
    + rewrite decide_False by congruence. exact IH.
  - rewrite decide_False by discriminate. exact IH.
Qed.

Lemma observationsOf_uses Fs :
  observationsOf USR (omap (useObservation Ctx) Fs)
  = replicate
      (length (filter (fun n => getUSRForDecl Ctx n = Some USR) Fs)) Used.
Proof.
  unfold observationsOf. induction Fs as [|n Fs IH]; [reflexivity|].
  cbn [omap list_omap]. unfold useObservation at 1. rewrite filter_cons.
  destruct (getUSRForDecl Ctx n) as [k|] eqn:HU;
    cbn [mbind option_bind omap list_omap fst snd].
  - destruct (decide (k = USR)) as [->|Hne].
    + rewrite decide_True by reflexivity. cbn [length replicate].
      by f_equal.
    + rewrite decide_False by congruence. exact IH.
  - rewrite decide_False by discriminate. exact IH.
Qed.

Lemma definedIn_fmap_Defined Ds : definedIn (Defined <$> Ds) = Ds.
Proof. induction Ds as [|D Ds IH]; [reflexivity|]. cbn. by f_equal. Qed.

Lemma usedIn_fmap_Defined Ds : usedIn (Defined <$> Ds) = 0%N.
Proof. unfold usedIn. by induction Ds as [|D Ds IH]. Qed.

Lemma definedIn_replicate_Used n : definedIn (replicate n Used) = [].
Proof. by induction n. Qed.

Lemma usedIn_replicate_Used n : usedIn (replicate n Used) = N.of_nat n.
Proof.
  unfold usedIn. f_equal. induction n as [|n IH]; [reflexivity|].
  cbn. by f_equal.
Qed.

Lemma definedIn_tuResult :
  definedIn (observationsOf USR (tuResult TU))
  = omap (definitionFor TU USR) (UnusedDefs h).
Proof.
  unfold tuResult. fold Ctx SM h.
  rewrite observationsOf_app, definedIn_app, observationsOf_defs,
    observationsOf_uses, definedIn_fmap_Defined, definedIn_replicate_Used.
  apply app_nil_r.
Qed.

Lemma usedIn_tuResult :
  usedIn (observationsOf USR (tuResult TU))
  = N.of_nat (length (externalUsesOf TU USR)).
Proof.
  unfold tuResult, externalUsesOf. fold Ctx SM h.
  rewrite observationsOf_app, usedIn_app, observationsOf_defs,
    observationsOf_uses, usedIn_fmap_Defined, usedIn_replicate_Used.
  reflexivity.
Qed.

End tu_observations.

Lemma definedIn_run USR (TUs : list MatchedTU) :
  definedIn (observationsOf USR (TUs ≫= tuResult))
  = TUs ≫= fun TU => omap (definitionFor TU USR) (UnusedDefs (TU_Handler TU)).
Proof.
  induction TUs as [|TU TUs IH]; [reflexivity|].
  by rewrite !bind_cons, observationsOf_app, definedIn_app, IH,
    definedIn_tuResult.
Qed.

Lemma externalUseCount_cons TU TUs USR :
  externalUseCount (TU :: TUs) USR
  = (N.of_nat (length (externalUsesOf TU USR)) + externalUseCount TUs USR)%N.
Proof.
  unfold externalUseCount.
  by rewrite bind_cons, observationsOf_app, usedIn_app, usedIn_tuResult.
Qed.

Lemma externalUseCount_app TUs1 TUs2 USR :
  externalUseCount (TUs1 ++ TUs2) USR
  = (externalUseCount TUs1 USR + externalUseCount TUs2 USR)%N.
Proof.
  unfold externalUseCount.
  by rewrite bind_app, observationsOf_app, usedIn_app.
Qed.

(** ** The table at the end of a run, one symbol at a time *)

Lemma run_lookup (TUs : list MatchedTU) (USR : string) :
  merge ∅ (TUs ≫= tuResult) !! USR
  = recordAfter (observationsOf USR (TUs ≫= tuResult)) None.
Proof.
  rewrite lookup_merge by apply counts_bounded_empty.
  by rewrite lookup_empty.
Qed.

Lemma recordAfter_Definition os Info :
  recordAfter os None = Some Info ->
  DefInfo.Definition_ Info = last (definedIn os) ≫= DefInfo.Definition_.
Proof.
  destruct os as [|o os]; [discriminate|].
  unfold recordAfter. intros [= <-]. unfold summaryOf.
  cbn [DefInfo.Definition_ default].
  by destruct (last (definedIn (o :: os))).
Qed.



(** A symbol whose last definition observation is [D] and that is never
    used ends with the record of [D] and the count 0. *)
Lemma recordAfter_defined_unused os D :
  last (definedIn os) = Some D -> usedIn os = 0%N ->
  recordAfter os None
  = Some (DefInfo.mk (DefInfo.Definition_ D) 0 (DefInfo.Name D)
            (DefInfo.Filename D) (DefInfo.Line D) (DefInfo.Declarations D)).
Proof.
  intros HD HU. destruct os as [|o os]; [discriminate|].
  unfold recordAfter, summaryOf. by rewrite HD, HU.
Qed.

(** Every definition observation of a translation unit carries a non-null
    definition and the count 0. *)
Lemma definitionFor_shape TU USR f D :
  definitionFor TU USR f = Some D ->
  D = DefInfo.mk (DefInfo.Definition_ D) 0 (DefInfo.Name D)
        (DefInfo.Filename D) (DefInfo.Line D) (DefInfo.Declarations D)
  /\ is_Some (DefInfo.Definition_ D).
Proof.
  intros (F & _ & _ & ->)%definitionFor_Some. split; [reflexivity|].
  cbn. eauto.
Qed.

Lemma elem_of_definedIn_run USR (TUs : list MatchedTU) D :
  D ∈ definedIn (observationsOf USR (TUs ≫= tuResult))
  <-> exists TU f, TU ∈ TUs /\ f ∈ UnusedDefs (TU_Handler TU)
                   /\ definitionFor TU USR f = Some D.
Proof.
  rewrite definedIn_run, list_elem_of_bind. split.
  - intros (TU & (f & Hf & HD)%list_elem_of_omap & HTU). eauto.
  - intros (TU & f & HTU & Hf & HD). exists TU. split; [|assumption].
    apply list_elem_of_omap. eauto.
Qed.

(** ** C3: the two ranges of the classifier *)

(** C3.  [finalize] records the definitions of the range
    [UnusedDefs = Defs - Uses], computed from [Defs] as the matcher left it,
    then discards the weak definitions from [Defs], then counts the uses of
    the range [ExternalUses = Uses - Defs'].  Both ranges are the
    set-theoretic differences of the sets of canonical declarations, so a
    weak definition that is used in its own translation unit is not an
    unused candidate and is an external use. *)
Theorem C3_classifier_ranges (Ctx : ASTContext) (SM : SourceManager)
    (h : FunctionDeclMatchHandler) (AllDecls : AllDeclsMap) :
  handler_ok h = true ->
  finalize Ctx SM h AllDecls
  = (AllDecls' ← recordUnusedDefs Ctx SM (UnusedDefs h) AllDecls;
     Some ({| Defs := StdSet.discard_if (fun FD => isWeak (Ctx FD)) (Defs h);
              Uses := Uses h |},
           recordExternalUses Ctx (ExternalUses Ctx h) AllDecls'))
  /\ (forall F, F ∈ UnusedDefs h <-> F ∈ Defs h /\ F ∉ Uses h)
  /\ (forall F, F ∈ StdSet.discard_if (fun FD => isWeak (Ctx FD)) (Defs h)
                <-> F ∈ Defs h /\ isWeak (Ctx F) = false)
  /\ (forall F, F ∈ ExternalUses Ctx h
                <-> F ∈ Uses h
                    /\ F ∉ StdSet.discard_if (fun FD => isWeak (Ctx FD))
                             (Defs h))
  /\ (forall F, F ∈ Defs h -> F ∈ Uses h -> isWeak (Ctx F) = true ->
                ~ F ∈ UnusedDefs h /\ F ∈ ExternalUses Ctx h).
Proof.
  intros Hok. pose proof Hok as [HD HU]%andb_true_iff.
  split; [reflexivity|].
  split; [intros F; by apply elem_of_UnusedDefs|].
  split; [intros F; apply elem_of_discard_if|].
  split.
  - intros F. unfold ExternalUses.
    apply elem_of_set_difference; auto using is_set_discard_if.
  - intros F HFD HFU HW. split.
    + rewrite elem_of_UnusedDefs by assumption. tauto.
    + rewrite elem_of_ExternalUses by assumption. split; [assumption|].
      intros [_ HW']. congruence.
Qed.

(** ** C7: a definition observation for a symbol that has a record *)

(** C7.  When the record of the symbol exists already, lines 113-123
    replace its definition, name, file, line and declaration list by those
    of the new definition, whatever they were, keep its use count, and leave
    every other record as it was. *)
Theorem C7_redefinition_keeps_count (Ctx : ASTContext) (SM : SourceManager)
    (F0 F : FunctionDeclPtr) (USR : string) (AllDecls : AllDeclsMap)
    (Old : DefInfo.t) :
  getDefinition (Ctx F0) = Some F ->
  getUSRForDecl Ctx F = Some USR ->
  AllDecls !! USR = Some Old ->
  exists AllDecls',
    recordUnusedDef Ctx SM F0 AllDecls = Some AllDecls'
    /\ AllDecls' !! USR
       = Some (DefInfo.mk (Some F) (DefInfo.Uses Old)
                 (getQualifiedNameAsString (Ctx F))
                 (getFilename SM (getBegin (Ctx F)))
                 (getSpellingLineNumber SM (getBegin (Ctx F)))
                 (getDeclarations Ctx SM F))
    /\ (forall k, k <> USR -> AllDecls' !! k = AllDecls !! k).
Proof.
  intros HF HU HOld. eexists. split; [by apply recordUnusedDef_merge|].
  split.
  - rewrite merge1_lookup_eq, HOld. reflexivity.
  - intros k Hk. by apply merge1_lookup_ne.
Qed.

(** ** Shared facts about whole runs *)

Lemma forallb_elem_of {A} (p : A -> bool) (l : list A) :
  forallb p l = true <-> forall x, x ∈ l -> p x = true.
Proof.
  rewrite forallb_forall. split; intros H x Hx; apply H;
    by apply list_elem_of_In.
Qed.

Lemma matched_ok_found TUs :
  forallb matched_ok TUs = true -> forallb definitionsFound TUs = true.
Proof.
  rewrite !forallb_elem_of. intros H TU HTU.
  specialize (H TU HTU). unfold matched_ok in H.
  by apply andb_true_iff in H as [_ H].
Qed.

Lemma matched_ok_handler TUs TU :
  forallb matched_ok TUs = true -> TU ∈ TUs ->
  handler_ok (TU_Handler TU) = true.
Proof.
  rewrite forallb_elem_of. intros H HTU.
  specialize (H TU HTU). unfold matched_ok in H.
  by apply andb_true_iff in H as [H _].
Qed.

Lemma omap_nil_iff {A B} (g : A -> option B) (l : list A) :
  omap g l = [] <-> forall x, x ∈ l -> g x = None.
Proof.
  induction l as [|x l IH]; [by split; [intros _ ? ?%elem_of_nil|]|].
  cbn [omap list_omap]. destruct (g x) eqn:Hx.
  - split; [discriminate|]. intros H.
    specialize (H x (list_elem_of_here _ _)). congruence.
  - rewrite IH. split.
    + intros H z [->|Hz]%elem_of_cons; auto.
    + intros H z Hz. apply H. by right.
Qed.

Lemma omap_unique {A B} (g : A -> option B) (l : list A) (x : A) (y : B) :
  NoDup l -> x ∈ l -> g x = Some y ->
  (forall z, z ∈ l -> is_Some (g z) -> z = x) ->
  omap g l = [y].
Proof.
  induction l as [|a l IH]; intros Hnd Hx Hgx Hall;
    [by apply elem_of_nil in Hx|].
  apply NoDup_cons in Hnd as [Ha Hnd]. cbn [omap list_omap].
  apply elem_of_cons in Hx as [<-|Hx].
  - rewrite Hgx. f_equal. apply omap_nil_iff. intros z Hz.
    destruct (g z) eqn:Hgz; [|reflexivity].
    assert (z = x) as -> by (apply Hall; [by right | eauto]). contradiction.
  - destruct (g a) eqn:Hga.
    + assert (a = x) as -> by (apply Hall; [by left | eauto]). contradiction.
    + apply IH; auto. intros z Hz. apply Hall. by right.
Qed.

Lemma filter_nil_iff {A} (P : A -> Prop) `{!forall x, Decision (P x)}
    (l : list A) :
  filter P l = [] <-> forall x, x ∈ l -> ~ P x.
Proof.
  split.
  - intros Hnil x Hx HP. assert (x ∈ filter P l) as Hin
      by (by apply list_elem_of_filter).
    rewrite Hnil in Hin. by apply elem_of_nil in Hin.
  - intros Hall. apply elem_of_nil_inv.
    intros x [HP Hx]%list_elem_of_filter. by apply (Hall x).
Qed.

Section symbol_in_tu.

Context (TU : MatchedTU) (USR : string).

(** A translation unit that does not define the symbol observes no
    definition of it. *)
Lemma no_definer_no_definition :
  definersOf TU USR = [] ->
  omap (definitionFor TU USR) (UnusedDefs (TU_Handler TU)) = [].
Proof.
  intros Hdef. apply omap_nil_iff. intros f Hf.
  destruct (definitionFor TU USR f) as [D|] eqn:HD; [|reflexivity].
  exfalso. unfold definersOf in Hdef.
  rewrite filter_nil_iff in Hdef. apply (Hdef f).
  - by apply UnusedDefs_Defs.
  - apply definitionFor_definitionUSR. eauto.
Qed.

(** A translation unit that does not reference the symbol counts no use
    of it. *)
Lemma no_reference_no_external_use :
  referencesOf TU USR = [] -> externalUsesOf TU USR = [].
Proof.
  unfold referencesOf, externalUsesOf. rewrite !filter_nil_iff.
  intros H n Hn. apply H. by eapply ExternalUses_Uses.
Qed.

(** The one definer of the symbol, when it is not used in its own
    translation unit, is the one definition observed. *)
Lemma sole_definer_definition f F :
  handler_ok (TU_Handler TU) = true ->
  definersOf TU USR = [f] ->
  f ∉ Uses (TU_Handler TU) ->
  getDefinition (TU_Context TU f) = Some F ->
  omap (definitionFor TU USR) (UnusedDefs (TU_Handler TU))
  = [definitionOf (TU_Context TU) (TU_SourceMgr TU) F].
Proof.
  intros Hok Hdef Hunused HF.
  assert (forall z, z ∈ definersOf TU USR <-> z = f) as Hz
    by (intros z; rewrite Hdef; apply list_elem_of_singleton).
  assert (f ∈ definersOf TU USR) as [HfU HfD]%list_elem_of_filter
    by (by apply Hz).
  apply (omap_unique _ _ f).
  - by apply NoDup_UnusedDefs.
  - by apply elem_of_UnusedDefs.
  - apply definitionFor_Some. exists F. split; [assumption|].
    unfold definitionUSR in HfU. rewrite HF in HfU. by split.
  - intros z Hin HS. apply Hz. apply list_elem_of_filter.
    split; [by apply definitionFor_definitionUSR | by apply UnusedDefs_Defs].
Qed.

End symbol_in_tu.

Lemma bind_nil_Forall {A B} (g : A -> list B) (l : list A) :
  Forall (fun x => g x = []) l -> l ≫= g = [].
Proof.
  induction 1 as [|x l Hx _ IH]; [reflexivity|].
  by rewrite bind_cons, Hx, IH.
Qed.

(** The last definition observed of a symbol is that of its definer in the
    last translation unit that defines it. *)
Lemma last_definition_of_run before A after USR f F :
  handler_ok (TU_Handler A) = true ->
  definersOf A USR = [f] ->
  f ∉ Uses (TU_Handler A) ->
  getDefinition (TU_Context A f) = Some F ->
  Forall (fun TU => definersOf TU USR = []) after ->
  last (definedIn (observationsOf USR ((before ++ A :: after) ≫= tuResult)))
  = Some (definitionOf (TU_Context A) (TU_SourceMgr A) F).
Proof.
  intros Hok Hdef Hunused HF Hafter.
  rewrite definedIn_run, bind_app, bind_cons.
  rewrite (sole_definer_definition A USR f F) by assumption.
  rewrite (bind_nil_Forall _ after).
  - rewrite app_nil_r. apply last_snoc.
  - eapply Forall_impl; [exact Hafter|].
    intros TU HTU. by apply no_definer_no_definition.
Qed.

Lemma externalUseCount_zero TUs USR :
  Forall (fun TU => externalUsesOf TU USR = []) TUs ->
  externalUseCount TUs USR = 0%N.
Proof.
  induction 1 as [|TU TUs HTU _ IH]; [reflexivity|].
  by rewrite externalUseCount_cons, HTU, IH.
Qed.

Lemma externalUseCount_pos TUs TU USR n :
  TU ∈ TUs -> n ∈ externalUsesOf TU USR -> (0 < externalUseCount TUs USR)%N.
Proof.
  intros HTU Hn. apply list_elem_of_split in HTU as (l1 & l2 & ->).
  rewrite externalUseCount_app, externalUseCount_cons.
  destruct (externalUsesOf TU USR); [by apply elem_of_nil in Hn|].
  cbn [length]. lia.
Qed.

(** A symbol whose last definition observation is [D] and that no
    translation unit counts as used has exactly one finding, that of [D]. *)
Lemma finding_of_last_definition TUs USR f TU D :
  forallb matched_ok TUs = true ->
  last (definedIn (observationsOf USR (TUs ≫= tuResult))) = Some D ->
  definitionFor TU USR f = Some D ->
  externalUseCount TUs USR = 0%N ->
  exists AllDecls,
    finalizeAll TUs ∅ = Some AllDecls
    /\ filter (fun KV => KV.1 = USR) (findings AllDecls) = [(USR, D)].
Proof.
  intros Hok Hlast HD Hcount. eexists. split.
  - apply finalizeAll_merge. by apply matched_ok_found.
  - rewrite findings_of_key, run_lookup.
    rewrite (recordAfter_defined_unused _ D) by assumption.
    by apply definitionFor_Some in HD as (F & _ & _ & ->).
Qed.

Lemma recordAfter_last_defined os r D :
  last (definedIn os) = Some D ->
  exists Info,
    recordAfter os r = Some Info
    /\ DefInfo.Definition_ Info = DefInfo.Definition_ D
    /\ DefInfo.Name Info = DefInfo.Name D
    /\ DefInfo.Filename Info = DefInfo.Filename D
    /\ DefInfo.Line Info = DefInfo.Line D
    /\ DefInfo.Declarations Info = DefInfo.Declarations D.
Proof.
  intros HD. destruct os as [|o os]; [discriminate|].
  eexists. split; [reflexivity|]. unfold summaryOf. rewrite HD.
  by repeat split.
Qed.

(** ** C2: a definition that another translation unit uses *)


(** ** The handler as the matcher fills it *)

Lemma handler_ok_new : handler_ok newHandler = true.
Proof. reflexivity. Qed.

Lemma handleUse_spec Ctx SM D h h' :
  handleUse Ctx SM D h = Some h' ->
  Defs h' = Defs h
  /\ (handler_ok h = true -> handler_ok h' = true)
  /\ (h' = h \/ exists n, Uses h' = StdSet.insert n (Uses h)).
Proof.
  unfold handleUse. destruct (dyn_cast_FunctionDecl D) as [FD|];
    [|intros [= <-]; auto].
  destruct (isInSystemHeader SM (getBegin (Ctx FD))); [intros [= <-]; auto|].
  destruct (instantiationPattern Ctx FD) as [FD'|]; [|discriminate].
  cbn [mbind option_bind]. intros [= <-]. cbn [Defs Uses].
  split; [reflexivity|]. split; [|eauto].
  unfold handler_ok. cbn [Defs Uses]. rewrite !andb_true_iff.
  intros [HD HU]. auto using is_set_insert.
Qed.

Lemma run_ok Ctx SM R h h' :
  run Ctx SM R h = Some h' -> handler_ok h = true -> handler_ok h' = true.
Proof.
  assert (forall D h h', handleUse Ctx SM D h = Some h' ->
            handler_ok h = true -> handler_ok h' = true) as Huse
    by (intros D h1 h2 H; by apply handleUse_spec in H as (_ & H & _)).
  destruct R as [F|D|D|C]; cbn [run]; eauto.
  destruct (negb (hasBody (Ctx F))); [by intros [= <-]|].
  destruct (instantiationPattern Ctx _) as [F'|]; [|discriminate].
  cbn [mbind option_bind].
  repeat (match goal with
          | |- context [if ?b then Some h else _] =>
              destruct b; [by intros [= <-]|]
          end).
  intros Hrun Hok.
  assert (handler_ok {| Defs := StdSet.insert (getCanonicalDecl (Ctx F'))
                                  (Defs h);
                        Uses := Uses h |} = true) as Hok'.
  { unfold handler_ok in *. cbn [Defs Uses].
    apply andb_true_iff in Hok as [HD HU].
    apply andb_true_iff. auto using is_set_insert. }
  destruct (hasConstructorAttr (Ctx F')); [eauto|].
  by injection Hrun as <-.
Qed.

Lemma matchAST_ok Ctx SM Rs h h' :
  matchAST Ctx SM Rs h = Some h' ->
  handler_ok h = true -> handler_ok h' = true.
Proof.
  revert h. induction Rs as [|R Rs IH]; intros h; [by intros [= <-]|].
  cbn [matchAST]. destruct (run Ctx SM R h) as [h1|] eqn:Hrun;
    [|discriminate].
  cbn [mbind option_bind]. eauto using run_ok.
Qed.

Lemma matched_Some TU MT :
  matched TU = Some MT ->
  TU_Context MT = Context TU /\ TU_SourceMgr MT = SourceMgr TU
  /\ matchAST (Context TU) (SourceMgr TU) (Results TU) newHandler
     = Some (TU_Handler MT)
  /\ handler_ok (TU_Handler MT) = true.
Proof.
  unfold matched.
  destruct (matchAST _ _ _ _) as [h|] eqn:Hm; [|discriminate].
  intros [= <-]. cbn. repeat split.
  by apply (matchAST_ok _ _ _ _ _ Hm).
Qed.

Lemma HandleTranslationUnit_matched TU AllDecls :
  HandleTranslationUnit TU AllDecls
  = (MT ← matched TU;
     r ← finalize (TU_Context MT) (TU_SourceMgr MT) (TU_Handler MT) AllDecls;
     Some r.2).
Proof.
  unfold HandleTranslationUnit, matched.
  by destruct (matchAST _ _ _ _).
Qed.

(** A run of the executor is the run of [finalize] over the states the
    matchers reach. *)
Lemma execute_finalizeAll TUs AllDecls AllDecls' :
  execute TUs AllDecls = Some AllDecls' ->
  exists MTs,
    Forall2 (fun TU MT => matched TU = Some MT) TUs MTs
    /\ finalizeAll MTs AllDecls = Some AllDecls'.
Proof.
  revert AllDecls. induction TUs as [|TU TUs IH]; intros AllDecls.
  - intros [= <-]. exists []. by split.
  - cbn [execute]. rewrite HandleTranslationUnit_matched.
    destruct (matched TU) as [MT|] eqn:HMT; [|discriminate].
    cbn [mbind option_bind].
    destruct (finalize _ _ _ _) as [r|] eqn:Hfin; [|discriminate].
    cbn [mbind option_bind]. intros (MTs & HMTs & Hall)%IH.
    exists (MT :: MTs). split; [by constructor|].
    cbn [finalizeAll]. by rewrite Hfin.
Qed.

Lemma finalizeAll_execute TUs MTs AllDecls :
  Forall2 (fun TU MT => matched TU = Some MT) TUs MTs ->
  execute TUs AllDecls = finalizeAll MTs AllDecls.
Proof.
  intros HMTs. revert AllDecls.
  induction HMTs as [|TU MT TUs MTs HMT _ IH]; intros AllDecls;
    [reflexivity|].
  cbn [execute finalizeAll]. rewrite HandleTranslationUnit_matched, HMT.
  cbn [mbind option_bind].
  destruct (finalize _ _ _ _) as [r|]; [|reflexivity].
  cbn [mbind option_bind]. apply IH.
Qed.

Lemma finalizeAll_Some_found TUs AllDecls AllDecls' :
  finalizeAll TUs AllDecls = Some AllDecls' ->
  forallb definitionsFound TUs = true.
Proof.
  intros Hrun. destruct (forallb definitionsFound TUs) eqn:Hall;
    [reflexivity|].
  by rewrite finalizeAll_assert in Hrun.
Qed.

(** What [main] prints and returns, from the states in which [finalize] is
    entered: the error of [execute], if any, then the findings in key order,
    with exit status 0. *)
Lemma main_finalizeAll E MTs AllDecls :
  Forall2 (fun TU MT => matched TU = Some MT) (Units E) MTs ->
  finalizeAll MTs ∅ = Some AllDecls ->
  main (Value E)
  = Some (from_option (fun msg => msg +:+ nl) EmptyString (Err E)
            +:+ concatText (findings AllDecls ≫= fun KV => findingText KV.2),
          0%Z).
Proof.
  intros HMTs Hrun. cbn [main].
  rewrite (finalizeAll_execute _ _ _ HMTs), Hrun. cbn [mbind option_bind].
  rewrite printReport_findings. by destruct (Err E).
Qed.

(** ** C6: what one translation unit adds to a use count *)

Lemma usesOf_recordAfter os r :
  (usesOf r < SIZE_MODULUS)%N ->
  usesOf (recordAfter os r) = ((usesOf r + usedIn os) mod SIZE_MODULUS)%N.
Proof.
  intros Hr. destruct os as [|o os].
  - cbn [recordAfter]. unfold usedIn. cbn [omap list_omap length N.of_nat].
    by rewrite N.add_0_r, N.mod_small.
  - unfold recordAfter, usesOf at 1. cbn [from_option summaryOf DefInfo.Uses].
    by destruct r.
Qed.

Lemma length_filter_le_1 {A} (P : A -> Prop) `{!forall x, Decision (P x)}
    (l : list A) :
  NoDup l ->
  (forall x y, x ∈ l -> y ∈ l -> P x -> P y -> x = y) ->
  (length (filter P l) <= 1)%nat.
Proof.
  intros Hnd Heq. apply (NoDup_filter P) in Hnd.
  destruct (filter P l) as [|a [|b l']] eqn:Hf; cbn [length]; [lia..|].
  exfalso. apply NoDup_cons in Hnd as [Hn _]. apply Hn.
  assert (a ∈ filter P l /\ b ∈ filter P l) as [Ha Hb]
    by (rewrite Hf; split; [by left | by right; left]).
  apply list_elem_of_filter in Ha as [HPa Ha], Hb as [HPb Hb].
  rewrite (Heq a b) by assumption. by left.
Qed.

(** C6 (as amended).  For each declaration of [ExternalUses] whose USR is
    generated, [recordExternalUse] creates the record with the count 1 when
    the symbol has none and otherwise increments its count by one (as a
    [size_t]), and touches no other record.  [ExternalUses] holds each
    canonical declaration once, so handling a translation unit advances the
    count of a symbol by the number of its canonical declarations in
    [ExternalUses], which is at most 1 when the symbol has one canonical
    declaration there, however many callbacks referred to it; the counts of
    successive translation units add up. *)
Theorem C6_use_counted_once_per_TU (TU : TranslationUnit)
    (h : FunctionDeclMatchHandler) (AllDecls : AllDeclsMap) (USR : string) :
  matchAST (Context TU) (SourceMgr TU) (Results TU) newHandler = Some h ->
  definitionsFound {| TU_Context := Context TU; TU_SourceMgr := SourceMgr TU;
                      TU_Handler := h |} = true ->
  counts_bounded AllDecls ->
  (forall F (m : AllDeclsMap),
      getUSRForDecl (Context TU) F = Some USR ->
      recordExternalUse (Context TU) F m !! USR
      = Some (match m !! USR with
              | Some Old => DefInfo.incr_Uses Old
              | None => DefInfo.init None 1
              end)
      /\ forall k, k <> USR ->
           recordExternalUse (Context TU) F m !! k = m !! k)
  /\ NoDup (ExternalUses (Context TU) h)
  /\ ((forall n1 n2, n1 ∈ Uses h -> n2 ∈ Uses h ->
         getUSRForDecl (Context TU) n1 = Some USR ->
         getUSRForDecl (Context TU) n2 = Some USR -> n1 = n2) ->
      (length (filter (fun n => getUSRForDecl (Context TU) n = Some USR)
                 (ExternalUses (Context TU) h)) <= 1)%nat)
  /\ exists AllDecls',
       HandleTranslationUnit TU AllDecls = Some AllDecls'
       /\ usesOf (AllDecls' !! USR)
          = ((usesOf (AllDecls !! USR)
              + N.of_nat
                  (length
                     (filter
                        (fun n => getUSRForDecl (Context TU) n = Some USR)
                        (ExternalUses (Context TU) h))))
             mod SIZE_MODULUS)%N.
Proof.
  intros Hm Hfound Hb.
  assert (handler_ok h = true) as Hok
    by (apply (matchAST_ok _ _ _ _ _ Hm), handler_ok_new).
  split; [|split; [|split]].
  - intros F m HU. rewrite (recordExternalUse_merge _ _ _ _ HU). split.
    + rewrite merge1_lookup_eq. by destruct (m !! USR).
    + intros k Hk. by apply merge1_lookup_ne.
  - by apply NoDup_ExternalUses.
  - intros Hinj. apply length_filter_le_1; [by apply NoDup_ExternalUses|].
    intros n1 n2 H1%ExternalUses_Uses H2%ExternalUses_Uses. by apply Hinj.
  - eexists. split.
    + unfold HandleTranslationUnit. rewrite Hm. cbn [mbind option_bind].
      rewrite (finalize_merge
                 {| TU_Context := Context TU; TU_SourceMgr := SourceMgr TU;
                    TU_Handler := h |}) by assumption.
      reflexivity.
    + cbn [snd]. rewrite lookup_merge by assumption.
      rewrite usesOf_recordAfter.
      * by rewrite usedIn_tuResult.
      * destruct (AllDecls !! USR) as [Old|] eqn:HOld;
          [exact (Hb _ _ HOld) | reflexivity].
Qed.

(** ** C4: the exemptions of [run] *)

Lemma run_exempt Ctx SM F h :
  exempt Ctx F = true -> run Ctx SM (fnDecl F) h = Some h.
Proof.
  unfold exempt, definitionSubject. cbn [run].
  destruct (hasBody (Ctx F)); [|reflexivity]. cbn [negb orb].
  destruct (instantiationPattern Ctx _) as [F'|]; [|discriminate].
  cbn [mbind option_bind]. intros Hex.
  destruct (isInSystemHeader SM _); [reflexivity|].
  destruct (negb (isWrittenInMainFile SM _)); [reflexivity|].
  destruct (isOverridingMethod Ctx F'); [reflexivity|].
  destruct (isDestructor Ctx F'); [reflexivity|].
  cbn [orb] in Hex. by rewrite Hex.
Qed.

(** Whatever [run] adds to [Defs] is the canonical declaration of the
    subject of a definition match that is not exempt. *)
Lemma run_Defs Ctx SM R h h' f :
  run Ctx SM R h = Some h' -> f ∈ Defs h' ->
  f ∈ Defs h
  \/ exists F F', R = fnDecl F /\ exempt Ctx F = false
                  /\ definitionSubject Ctx F = Some F'
                  /\ getCanonicalDecl (Ctx F') = f.
Proof.
  assert (forall D h h', handleUse Ctx SM D h = Some h' -> Defs h' = Defs h)
    as Huse by (intros D h1 h2 H; by apply handleUse_spec in H as (H & _)).
  destruct R as [F|D|D|C]; cbn [run];
    try (intros Hrun Hf; left; by rewrite <-(Huse _ _ _ Hrun)).
  destruct (hasBody (Ctx F)) eqn:Hbody; cbn [negb];
    [|intros [= <-]; by left].
  destruct (instantiationPattern Ctx _) as [F'|] eqn:Hsub; [|discriminate].
  cbn [mbind option_bind].
  destruct (isInSystemHeader SM _); [intros [= <-]; by left|].
  destruct (negb (isWrittenInMainFile SM _)); [intros [= <-]; by left|].
  destruct (isOverridingMethod Ctx F') eqn:Hov; [intros [= <-]; by left|].
  destruct (isDestructor Ctx F') eqn:Hdt; [intros [= <-]; by left|].
  destruct (isMain (Ctx F')) eqn:Hmain; [intros [= <-]; by left|].
  intros Hrun Hf.
  assert (f ∈ StdSet.insert (getCanonicalDecl (Ctx F')) (Defs h)) as Hin.
  { destruct (hasConstructorAttr (Ctx F')).
    - apply Huse in Hrun. cbn [Defs] in Hrun. by rewrite <-Hrun.
    - by injection Hrun as <-. }
  apply elem_of_insert in Hin as [->|Hin]; [right|by left].
  exists F, F'. split; [reflexivity|]. split; [|by split].
  unfold exempt, definitionSubject. by rewrite Hbody, Hsub, Hov, Hdt, Hmain.
Qed.

Lemma matchAST_Defs Ctx SM Rs h h' f :
  matchAST Ctx SM Rs h = Some h' -> f ∈ Defs h' ->
  f ∈ Defs h
  \/ exists F F', fnDecl F ∈ Rs /\ exempt Ctx F = false
                  /\ definitionSubject Ctx F = Some F'
                  /\ getCanonicalDecl (Ctx F') = f.
Proof.
  revert h. induction Rs as [|R Rs IH]; intros h;
    [intros [= <-]; by left|].
  cbn [matchAST]. destruct (run Ctx SM R h) as [h1|] eqn:Hrun;
    [|discriminate].
  cbn [mbind option_bind]. intros Hm Hf.
  destruct (IH _ Hm Hf) as [Hf1|(F & F' & HF & Hrest)].
  - destruct (run_Defs _ _ _ _ _ _ Hrun Hf1) as [?|(F & F' & -> & Hrest)];
      [by left|].
    right. exists F, F'. split; [by left | assumption].
  - right. exists F, F'. split; [by right | assumption].
Qed.

(** A finding for a symbol comes from a definition match of that symbol
    that is not exempt. *)
Lemma finding_has_definition_match (TUs : list TranslationUnit)
    (AllDecls : AllDeclsMap) (USR : string) (Info : DefInfo.t) :
  execute TUs ∅ = Some AllDecls ->
  (USR, Info) ∈ findings AllDecls ->
  exists TU F, TU ∈ TUs /\ fnDecl F ∈ Results TU
               /\ definitionKey (Context TU) F = Some USR
               /\ exempt (Context TU) F = false.
Proof.
  intros (MTs & HMTs & Hrun)%execute_finalizeAll
         [HInfo Hunused]%elem_of_findings.
  pose proof (finalizeAll_Some_found _ _ _ Hrun) as Hfound.
  rewrite (finalizeAll_merge _ _ Hfound) in Hrun. injection Hrun as <-.
  rewrite run_lookup in HInfo.
  pose proof (recordAfter_Definition _ _ HInfo) as HDef.
  unfold isUnused in Hunused.
  destruct (DefInfo.Definition_ Info) as [F0|]; [|discriminate].
  destruct (last (definedIn _)) as [D|] eqn:Hlast; [|discriminate].
  apply last_Some_elem_of, elem_of_definedIn_run in Hlast
    as (MT & f & HMT & Hf & HD).
  apply list_elem_of_lookup in HMT as [i Hi].
  destruct (Forall2_lookup_r _ _ _ _ _ HMTs Hi) as (TU & HTU & Hmatched).
  apply list_elem_of_lookup_2 in HTU.
  apply matched_Some in Hmatched as (HCtx & HSM & Hm & _).
  apply UnusedDefs_Defs in Hf.
  destruct (matchAST_Defs _ _ _ _ _ _ Hm Hf)
    as [Hnil|(F & F' & HF & Hex & Hsub & Hcan)];
    [by apply elem_of_nil in Hnil|].
  exists TU, F. split; [assumption|]. split; [assumption|].
  split; [|assumption]. unfold definitionKey. rewrite Hsub.
  cbn [mbind option_bind]. rewrite Hcan, <-HCtx.
  apply definitionFor_definitionUSR. eauto.
Qed.

(** ** C5: the order of the merges *)

Lemma definitionsAgree_spec TUs USR D1 D2 :
  definitionsAgree TUs = true ->
  (USR, Defined D1) ∈ TUs ≫= tuResult ->
  (USR, Defined D2) ∈ TUs ≫= tuResult ->
  DefInfo.Name D1 = DefInfo.Name D2
  /\ DefInfo.Filename D1 = DefInfo.Filename D2
  /\ DefInfo.Line D1 = DefInfo.Line D2
  /\ DefInfo.Declarations D1 = DefInfo.Declarations D2.
Proof.
  unfold definitionsAgree. rewrite forallb_elem_of. intros Hall H1 H2.
  specialize (Hall _ H1). rewrite forallb_elem_of in Hall.
  specialize (Hall _ H2). unfold agree in Hall. cbn [fst snd] in Hall.
  rewrite bool_decide_eq_true_2 in Hall by reflexivity.
  cbn [negb orb] in Hall. unfold sameSite in Hall.
  rewrite !andb_true_iff, !bool_decide_eq_true in Hall. tauto.
Qed.

Lemma elem_of_definedIn_observationsOf USR (r : TUResult) D :
  D ∈ definedIn (observationsOf USR r) <-> (USR, Defined D) ∈ r.
Proof.
  unfold definedIn, observationsOf. rewrite list_elem_of_omap. split.
  - intros ([D'|] & Hin & [= <-]).
    apply list_elem_of_omap in Hin as ([k o] & Hin & Hk). cbn in Hk.
    destruct (decide (k = USR)) as [->|]; [|discriminate]. by simplify_eq.
  - intros Hin. exists (Defined D). split; [|reflexivity].
    apply list_elem_of_omap. exists (USR, Defined D). split; [assumption|].
    cbn. by rewrite decide_True.
Qed.

Lemma printEntry_similar errs k I1 I2 :
  similar I1 I2 -> printEntry errs (k, I1) = printEntry errs (k, I2).
Proof.
  intros (HDef & HUses & HName & HFile & HLine & HDecls).
  unfold printEntry, isUnused, warningLine. cbn [snd].
  rewrite HUses, HName, HFile, HLine, HDecls.
  destruct (DefInfo.Definition_ I1) as [F1|],
           (DefInfo.Definition_ I2) as [F2|]; try reflexivity.
  - destruct HDef as [HDef _]. by destruct HDef as [? [=]].
  - destruct HDef as [_ HDef]. by destruct HDef as [? [=]].
Qed.

(** The report depends on the table only through what it prints. *)
Lemma printReport_similar (m1 m2 : AllDeclsMap) errs :
  (forall k, option_Forall2 similar (m1 !! k) (m2 !! k)) ->
  printReport m1 errs = printReport m2 errs.
Proof.
  intros Hsim.
  assert (dom m1 = dom m2) as Hdom.
  { apply set_eq. intros k. rewrite !elem_of_dom.
    destruct (Hsim k); split; intros [? ?]; by eauto. }
  unfold printReport, entries, keys. rewrite Hdom.
  generalize (merge_sort String.le (elements (dom m2))). intros ks.
  revert errs. induction ks as [|k ks IH]; intros errs; [reflexivity|].
  cbn [omap list_omap].
  destruct (Hsim k) as [I1 I2 HI|]; cbn [fmap option_fmap option_map].
  - cbn [foldl]. rewrite (printEntry_similar _ _ _ _ HI). apply IH.
  - apply IH.
Qed.

Lemma recordAfter_similar os1 os2 :
  os1 ≡ₚ os2 ->
  (forall D, D ∈ definedIn os1 -> is_Some (DefInfo.Definition_ D)) ->
  (forall D1 D2, D1 ∈ definedIn os1 -> D2 ∈ definedIn os1 ->
     DefInfo.Name D1 = DefInfo.Name D2
     /\ DefInfo.Filename D1 = DefInfo.Filename D2
     /\ DefInfo.Line D1 = DefInfo.Line D2
     /\ DefInfo.Declarations D1 = DefInfo.Declarations D2) ->
  option_Forall2 similar (recordAfter os1 None) (recordAfter os2 None).
Proof.
  intros Hos Hsome Hsite.
  assert (usedIn os1 = usedIn os2) as Hused
    by (unfold usedIn; by rewrite Hos).
  assert (definedIn os1 ≡ₚ definedIn os2) as Hdef
    by (unfold definedIn; by rewrite Hos).
  destruct os1 as [|o1 os1'] eqn:H1.
  { apply Permutation_nil_l in Hos. subst os2. constructor. }
  destruct os2 as [|o2 os2'] eqn:H2.
  { by apply Permutation_nil_r in Hos. }
  unfold recordAfter. rewrite <-H1, <-H2 in *. constructor.
  unfold similar, summaryOf.
  cbn [DefInfo.Definition_ DefInfo.Uses DefInfo.Name DefInfo.Filename
       DefInfo.Line DefInfo.Declarations].
  rewrite Hused.
  destruct (last (definedIn os1)) as [D1|] eqn:HD1,
           (last (definedIn os2)) as [D2|] eqn:HD2; cbn [default].
  - apply last_Some_elem_of in HD1, HD2. rewrite <-Hdef in HD2.
    destruct (Hsite D1 D2 HD1 HD2) as (? & ? & ? & ?).
    pose proof (Hsome D1 HD1). pose proof (Hsome D2 HD2).
    by repeat split.
  - apply last_None in HD2. rewrite HD2 in Hdef.
    apply Permutation_nil_r in Hdef. by rewrite Hdef in HD1.
  - apply last_None in HD1. rewrite HD1 in Hdef.
    apply Permutation_nil_l in Hdef. by rewrite <-Hdef in HD2.
  - by repeat split.
Qed.

Lemma run_records_similar TUs1 TUs2 USR :
  TUs1 ≡ₚ TUs2 ->
  definitionsAgree TUs1 = true ->
  option_Forall2 similar
    (recordAfter (observationsOf USR (TUs1 ≫= tuResult)) None)
    (recordAfter (observationsOf USR (TUs2 ≫= tuResult)) None).
Proof.
  intros HP Hagree. apply recordAfter_similar.
  - unfold observationsOf. by rewrite HP.
  - intros D (? & ? & _ & _ & HD)%elem_of_definedIn_run.
    by apply definitionFor_shape in HD as [_ HD].
  - intros D1 D2 H1%elem_of_definedIn_observationsOf
                 H2%elem_of_definedIn_observationsOf.
    by apply (definitionsAgree_spec TUs1 USR).
Qed.

(** ** C8: the text of a finding *)

(** The declaration sites are those of the redeclarations without a body,
    in the order of [redecls()], each with its path made absolute. *)
Lemma getDeclarations_spec Ctx SM F :
  getDeclarations Ctx SM F
  = (fun R => DeclLoc.mk
                (makeAbsolutePath SM (getFilename SM (getBegin (Ctx R))))
                (getSpellingLineNumber SM (getBegin (Ctx R))))
    <$> filter (fun R => doesThisDeclarationHaveABody (Ctx R) = false)
          (redecls (Ctx F)).
Proof.
  unfold getDeclarations.
  assert (forall Rs Decls,
    getDeclarations_loop Ctx SM Rs Decls
    = Decls ++ ((fun R => DeclLoc.mk
                  (makeAbsolutePath SM (getFilename SM (getBegin (Ctx R))))
                  (getSpellingLineNumber SM (getBegin (Ctx R))))
                <$> filter
                      (fun R => doesThisDeclarationHaveABody (Ctx R) = false)
                      Rs)) as Hloop.
  { induction Rs as [|R Rs IH]; intros Decls; [by rewrite app_nil_r|].
    cbn [getDeclarations_loop]. rewrite filter_cons.
    destruct (doesThisDeclarationHaveABody (Ctx R)) eqn:HR.
    - rewrite decide_False by discriminate. apply IH.
    - rewrite decide_True by reflexivity. rewrite IH, fmap_cons.
      by rewrite <-app_assoc. }
  by rewrite Hloop.
Qed.

(** Every note line names an absolute path when [makeAbsolutePath] does
    what its name says. *)
Lemma getDeclarations_absolute Ctx SM F :
  (forall Path, is_absolute (makeAbsolutePath SM Path) = true) ->
  Forall (fun D => is_absolute (DeclLoc.Filename D) = true)
    (getDeclarations Ctx SM F).
Proof.
  intros Habs. rewrite getDeclarations_spec. apply Forall_fmap, Forall_forall.
  intros R _. apply Habs.
Qed.

(** ** C9: the exit status *)

(** C9 (as amended).  The exit status is 1 when the executor cannot be
    created, and then only the error is printed.  Once the executor exists,
    the process either aborts on a failed assertion or reaches the end of
    [main] with exit status 0: the status does not depend on the error that
    [execute] returns, which is only printed before the report, nor on what
    the report holds. *)
Theorem C9_exit_status :
  (forall msg, main (Failure msg) = Some (msg +:+ nl, 1%Z))
  /\ (forall E,
        main (Value E)
        = (AllDecls ← execute (Units E) ∅;
           Some (printReport AllDecls
                   (from_option (fun msg => msg +:+ nl) EmptyString
                      (Err E)),
                 0%Z)))
  /\ (forall E,
        snd <$> main (Value E) = execute (Units E) ∅ ≫= fun _ => Some 0%Z)
  /\ (forall TUs err1 err2,
        snd <$> main (Value {| Units := TUs; Err := err1 |})
        = snd <$> main (Value {| Units := TUs; Err := err2 |})).
Proof.
  assert (forall E,
            main (Value E)
            = (AllDecls ← execute (Units E) ∅;
               Some (printReport AllDecls
                       (from_option (fun msg => msg +:+ nl) EmptyString
                          (Err E)),
                     0%Z))) as Hmain.
  { intros E. cbn [main]. destruct (execute (Units E) ∅); [|reflexivity].
    by destruct (Err E). }
  assert (forall E,
            snd <$> main (Value E)
            = execute (Units E) ∅ ≫= fun _ => Some 0%Z) as Hstatus.
  { intros E. rewrite Hmain. by destruct (execute (Units E) ∅). }
  split; [reflexivity|]. split; [exact Hmain|]. split; [exact Hstatus|].
  intros TUs err1 err2. by rewrite !Hstatus.
Qed.

(** ** The properties on the example project *)

(** The states in which [finalize] is entered on the example project are
    those the matchers reach. *)
Lemma Project_matched :
  Forall2 (fun TU MT => matched TU = Some MT)
    [Project.tuA; Project.tuB; Project.tuW]
    [Project.matchedA; Project.matchedB; Project.matchedW]
  /\ matchAST Project.astW (Project.sourceManager 8)
       [fnDecl 30; declRef (FunctionValue 30)] newHandler
     = Some Project.handlerWUsed.
Proof. split; [repeat constructor | reflexivity]. Qed.

(** The whole program on [a.cpp], [b.cpp] and [w.c]: [helper] and the
    weak [hook] are reported, in key order; [g], which [a.cpp] calls, is
    not. *)
Lemma Project_report :
  main (Value {| Units := [Project.tuA; Project.tuB; Project.tuW];
                 Err := None |})
  = Some ("/proj/a.cpp:7: warning: Function 'helper' is unused" +:+ nl
          +:+ "/proj/include/api.h:3: note: declared here" +:+ nl
          +:+ "/proj/w.c:2: warning: Function 'hook' is unused" +:+ nl,
          0%Z).
Proof. reflexivity. Qed.

(** Closes a decidable goal about concrete data by evaluating its
    decision procedure. *)
Ltac by_decision :=
  match goal with
  | |- ?P => apply (bool_decide_unpack P); vm_compute; exact I
  end.


(** C3 on the handler of [w.c] when the file calls its weak [hook]. *)
Lemma C3_witness :
  UnusedDefs Project.handlerWUsed = []
  /\ ExternalUses Project.astW Project.handlerWUsed = [30]
  /\ ~ 30 ∈ UnusedDefs Project.handlerWUsed
  /\ 30 ∈ ExternalUses Project.astW Project.handlerWUsed.
Proof.
  split; [reflexivity|]. split; [reflexivity|].
  apply (C3_classifier_ranges Project.astW (Project.sourceManager 8)
           Project.handlerWUsed ∅);
    [reflexivity | by_decision | by_decision
    | reflexivity].
Defined.

(** C4, as the specification states it, fails on [d.cpp]: [D::f]
    overrides the non-pure virtual [B::f], yet its definition enters [Defs]
    (as its canonical declaration 3) and is reported. *)
Lemma C4_counterexample :
  overridesNonPureVirtual Project.astD 1 = true
  /\ matchAST Project.astD (Project.sourceManager 7) [fnDecl 1] newHandler
     = Some {| Defs := [3]; Uses := [] |}
  /\ main (Value {| Units := [Project.tuD]; Err := None |})
     = Some ("/proj/d.cpp:9: warning: Function 'D::f' is unused" +:+ nl
             +:+ "/proj/d.cpp:5: note: declared here" +:+ nl, 0%Z).
Proof. repeat split; reflexivity. Qed.

(** C5, as the specification states it, fails on [tool1.c] and
    [tool2.c]: the two orders of the merges print different reports. *)
Lemma C5_counterexample :
  [Project.tuTool1; Project.tuTool2] ≡ₚ [Project.tuTool2; Project.tuTool1]
  /\ main (Value {| Units := [Project.tuTool1; Project.tuTool2];
                    Err := None |})
     = Some ("/proj/tool2.c:30: warning: Function 'usage' is unused" +:+ nl,
             0%Z)
  /\ main (Value {| Units := [Project.tuTool2; Project.tuTool1];
                    Err := None |})
     = Some ("/proj/tool1.c:12: warning: Function 'usage' is unused" +:+ nl,
             0%Z)
  /\ main (Value {| Units := [Project.tuTool1; Project.tuTool2];
                    Err := None |})
     <> main (Value {| Units := [Project.tuTool2; Project.tuTool1];
                       Err := None |}).
Proof.
  split; [apply perm_swap|]. split; [reflexivity|]. split; [reflexivity|].
  vm_compute. discriminate.
Qed.

(** C6, as the specification states it, fails on [a.cpp]: two callbacks
    refer to [g], and handling the translation unit leaves its count at
    1. *)
Lemma C6_counterexample :
  referenceCount Project.tuA "c:@F@g#" = 2%N
  /\ (HandleTranslationUnit Project.tuA ∅
        ≫= fun AllDecls => DefInfo.Uses <$> AllDecls !! "c:@F@g#")
     = Some 1%N
  /\ (HandleTranslationUnit Project.tuA ∅
        ≫= fun AllDecls => DefInfo.Uses <$> AllDecls !! "c:@F@g#")
     <> Some (usesOf ((∅ : AllDeclsMap) !! "c:@F@g#")
              + referenceCount Project.tuA "c:@F@g#")%N.
Proof.
  split; [reflexivity|]. split; [reflexivity|]. vm_compute. discriminate.
Qed.

(** C6 as amended, on [a.cpp] and the empty table. *)
Lemma C6_witness :
  exists AllDecls',
    HandleTranslationUnit Project.tuA ∅ = Some AllDecls'
    /\ usesOf (AllDecls' !! "c:@F@g#")
       = ((usesOf ((∅ : AllDeclsMap) !! "c:@F@g#")
           + N.of_nat
               (length
                  (filter
                     (fun n => getUSRForDecl (Context Project.tuA) n
                               = Some "c:@F@g#")
                     (ExternalUses (Context Project.tuA)
                        (TU_Handler Project.matchedA)))))
          mod SIZE_MODULUS)%N.
Proof.
  apply (C6_use_counted_once_per_TU Project.tuA
           (TU_Handler Project.matchedA) ∅ "c:@F@g#");
    [reflexivity | reflexivity | apply counts_bounded_empty].
Defined.

(** C7 on the project: the definition of [helper] in [a.cpp] is recorded
    when [helper] has a record with three uses and an older definition. *)
Lemma C7_witness :
  exists AllDecls',
    recordUnusedDef Project.astA (Project.sourceManager 1) 10
      {[ "c:@F@helper#" := DefInfo.mk (Some 7) 3 "old" "/old.c" 1 [] ]}
    = Some AllDecls'
    /\ AllDecls' !! "c:@F@helper#"
       = Some (DefInfo.mk (Some 11) 3 "helper" "/proj/a.cpp" 7
                 [DeclLoc.mk "/proj/include/api.h" 3])
    /\ (forall k, k <> "c:@F@helper#" ->
          AllDecls' !! k
          = ({[ "c:@F@helper#" := DefInfo.mk (Some 7) 3 "old" "/old.c" 1 [] ]}
               : AllDeclsMap) !! k).
Proof.
  apply (C7_redefinition_keeps_count Project.astA (Project.sourceManager 1)
           10 11 "c:@F@helper#"
           {[ "c:@F@helper#" := DefInfo.mk (Some 7) 3 "old" "/old.c" 1 [] ]}
           (DefInfo.mk (Some 7) 3 "old" "/old.c" 1 []));
    reflexivity.
Defined.

(** C8 on [src/c.cpp]: the note line names an absolute path, the warning
    line names the file as the source manager has it, which is relative,
    although the source manager's [makeAbsolutePath] makes every path
    absolute. *)
Theorem C8_definition_path_not_made_absolute :
  main (Value {| Units := [Project.tuC]; Err := None |})
  = Some ("src/c.cpp:4: warning: Function 'orphan' is unused" +:+ nl
          +:+ "/proj/include/api.h:8: note: declared here" +:+ nl, 0%Z)
  /\ is_absolute "src/c.cpp" = false
  /\ is_absolute "/proj/include/api.h" = true
  /\ forall Path,
       is_absolute (makeAbsolutePath (SourceMgr Project.tuC) Path) = true.
Proof.
  repeat split; try reflexivity.
  intros Path. cbn. by destruct (is_absolute Path) eqn:HP.
Qed.

(** C9, as the specification states it, fails when [execute] reports
    that the analyses failed: the exit status is 0, as for a clean run that
    finds nothing. *)
Lemma C9_counterexample :
  main (Value {| Units := [];
                 Err := Some "Failed to run action on /proj/a.cpp" |})
  = Some ("Failed to run action on /proj/a.cpp" +:+ nl, 0%Z)
  /\ main (Value {| Units := []; Err := None |}) = Some (EmptyString, 0%Z).
Proof. split; reflexivity. Qed.

(** * Part III: further properties of the code *)

(** ** The containers, continued *)

Section std_set_more.

Import StdSet.

Lemma is_set_sublist l c : sublist l c -> is_set c = true -> is_set l = true.
Proof.
  induction 1 as [|x l c Hsub IH|x l c Hsub IH]; intros Hc; [reflexivity|..].
  - apply is_set_cons in Hc as [Hall Hc]. apply is_set_cons. split; [|auto].
    rewrite Forall_forall in *. intros y Hy. apply Hall.
    by eapply sublist_subseteq.
  - apply is_set_cons in Hc as [_ Hc]. auto.
Qed.

(** A [std::set] is determined by its elements. *)
Lemma is_set_ext c1 c2 :
  is_set c1 = true -> is_set c2 = true ->
  (forall x, x ∈ c1 <-> x ∈ c2) -> c1 = c2.
Proof.
  revert c2. induction c1 as [|x c1 IH]; intros [|y c2] H1 H2 Heq.
  - reflexivity.
  - exfalso. eapply elem_of_nil, Heq. by left.
  - exfalso. eapply elem_of_nil, Heq. by left.
  - apply is_set_cons in H1 as [Hall1 H1], H2 as [Hall2 H2].
    rewrite Forall_forall in Hall1, Hall2.
    assert (x = y) as <-.
    { assert (x ∈ y :: c2) as [->|Hx]%elem_of_cons
        by (apply Heq; by left); [reflexivity|].
      assert (y ∈ x :: c1) as [->|Hy]%elem_of_cons
        by (apply Heq; by left); [reflexivity|].
      specialize (Hall1 _ Hy). specialize (Hall2 _ Hx). lia. }
    f_equal. apply IH; [assumption..|]. intros z. split; intros Hz.
    + assert (z ∈ x :: c2) as [->|?]%elem_of_cons
        by (apply Heq; by right); [|assumption].
      specialize (Hall1 _ Hz). lia.
    + assert (z ∈ x :: c1) as [->|?]%elem_of_cons
        by (apply Heq; by right); [|assumption].
      specialize (Hall2 _ Hz). lia.
Qed.

(** Inserting an element that the set holds changes nothing. *)
Lemma insert_elem x c : is_set c = true -> x ∈ c -> insert x c = c.
Proof.
  intros Hc Hx. apply is_set_ext; [by apply is_set_insert | assumption |].
  intros y. rewrite elem_of_insert. split; [intros [->|?]|]; auto.
Qed.

Lemma discard_if_sublist pred c : sublist (discard_if pred c) c.
Proof. rewrite discard_if_filter. apply sublist_filter. Qed.

Lemma discard_if_id pred c :
  (forall x, x ∈ c -> pred x = false) -> discard_if pred c = c.
Proof.
  induction c as [|x c IH]; intros Hall; [reflexivity|]. cbn [discard_if].
  rewrite (Hall x) by (by left). f_equal. apply IH. intros y Hy.
  apply Hall. by right.
Qed.

End std_set_more.

(** X1.  [discard_if] (lines 24-33) erases from a [std::set] exactly the
    elements that satisfy the predicate: what is left is a set, holds the
    elements of [c] that do not satisfy it, in their order in [c]; a set none
    of whose elements satisfies the predicate is left as it is, and a second
    pass over the result erases nothing. *)
Theorem X1_discard_if_erases_exactly (pred : FunctionDeclPtr -> bool)
    (c : list FunctionDeclPtr) :
  StdSet.is_set c = true ->
  StdSet.is_set (StdSet.discard_if pred c) = true
  /\ (forall x, x ∈ StdSet.discard_if pred c <-> x ∈ c /\ pred x = false)
  /\ sublist (StdSet.discard_if pred c) c
  /\ ((forall x, x ∈ c -> pred x = false) -> StdSet.discard_if pred c = c)
  /\ StdSet.discard_if pred (StdSet.discard_if pred c)
     = StdSet.discard_if pred c.
Proof.
  intros Hc. split; [by apply is_set_discard_if|].
  split; [intros x; apply elem_of_discard_if|].
  split; [apply discard_if_sublist|].
  split; [apply discard_if_id|].
  apply discard_if_id. by intros x [_ Hx]%elem_of_discard_if.
Qed.

(** X1 on the set [{10, 20, 30}] and the predicate "is 20". *)
Lemma X1_witness :
  StdSet.discard_if (Pos.eqb 20) [10; 20; 30] = [10; 30]
  /\ StdSet.is_set (StdSet.discard_if (Pos.eqb 20) [10; 20; 30]) = true
  /\ (forall x, x ∈ StdSet.discard_if (Pos.eqb 20) [10; 20; 30]
                <-> x ∈ [10; 20; 30] /\ Pos.eqb 20 x = false).
Proof.
  split; [reflexivity|].
  pose proof (X1_discard_if_erases_exactly (Pos.eqb 20) [10; 20; 30]
                eq_refl) as (H1 & H2 & _).
  split; [exact H1 | exact H2].
Defined.

(** ** The declaration sites *)

Lemma getDeclarations_sites Ctx SM F :
  getDeclarations Ctx SM F
  = declarationSite Ctx SM
    <$> filter (fun R => doesThisDeclarationHaveABody (Ctx R) = false)
          (redecls (Ctx F)).
Proof. apply getDeclarations_spec. Qed.

(** X2.  [getDeclarations] (lines 83-94) returns one site for each
    redeclaration of [F] that has no body, in the order of [redecls()], with
    the file name that [makeAbsolutePath] gives and the spelling line; the
    redeclarations with a body, among them the definition, contribute
    nothing.  So a function whose only declaration is its definition has no
    note lines, and there are never more sites than redeclarations. *)
Theorem X2_getDeclarations_skips_bodies (Ctx : ASTContext)
    (SM : SourceManager) (F : FunctionDeclPtr) :
  getDeclarations Ctx SM F
  = declarationSite Ctx SM
    <$> filter (fun R => doesThisDeclarationHaveABody (Ctx R) = false)
          (redecls (Ctx F))
  /\ (forall R, R ∈ redecls (Ctx F) ->
        doesThisDeclarationHaveABody (Ctx R) = false ->
        declarationSite Ctx SM R ∈ getDeclarations Ctx SM F)
  /\ (forall D, D ∈ getDeclarations Ctx SM F ->
        exists R, R ∈ redecls (Ctx F)
                  /\ doesThisDeclarationHaveABody (Ctx R) = false
                  /\ D = declarationSite Ctx SM R)
  /\ (Forall (fun R => doesThisDeclarationHaveABody (Ctx R) = true)
        (redecls (Ctx F)) -> getDeclarations Ctx SM F = [])
  /\ (length (getDeclarations Ctx SM F) <= length (redecls (Ctx F)))%nat.
Proof.
  rewrite getDeclarations_sites. split; [reflexivity|]. split; [|split].
  - intros R HR Hbody. apply list_elem_of_fmap. exists R.
    split; [reflexivity|]. by apply list_elem_of_filter.
  - intros D (R & -> & [Hbody HR]%list_elem_of_filter)%list_elem_of_fmap.
    by exists R.
  - split.
    + intros Hall. rewrite (proj2 (filter_nil_iff _ _)); [reflexivity|].
      rewrite Forall_forall in Hall. intros R HR Hbody.
      rewrite (Hall R HR) in Hbody. discriminate.
    + rewrite length_fmap. apply length_filter.
Qed.

(** ** The handler, one callback at a time *)

Lemma acceptedSubject_Some Ctx SM F F' :
  acceptedSubject Ctx SM F = Some F'
  <-> hasBody (Ctx F) = true
      /\ definitionSubject Ctx F = Some F'
      /\ isInSystemHeader SM (getBegin (Ctx F')) = false
      /\ isWrittenInMainFile SM (getBegin (Ctx F')) = true
      /\ isOverridingMethod Ctx F' = false
      /\ isDestructor Ctx F' = false
      /\ isMain (Ctx F') = false.
Proof.
  unfold acceptedSubject. destruct (hasBody (Ctx F)); [|by split; [|intros []]].
  destruct (definitionSubject Ctx F) as [G|]; cbn [mbind option_bind];
    [|by split; [|intros (_ & ? & _)]].
  destruct (isInSystemHeader SM (getBegin (Ctx G))) eqn:H1,
           (isWrittenInMainFile SM (getBegin (Ctx G))) eqn:H2,
           (isOverridingMethod Ctx G) eqn:H3,
           (isDestructor Ctx G) eqn:H4,
           (isMain (Ctx G)) eqn:H5; cbn [negb orb];
    (split; [intros [= <-] | intros (_ & [= <-] & ? & ? & ? & ? & ?)]);
    repeat split; congruence.
Qed.

(** What [handleUse] does to the two sets. *)
Lemma handleUse_effect Ctx SM D h h' :
  handleUse Ctx SM D h = Some h' ->
  Defs h' = Defs h
  /\ forall n, n ∈ Uses h'
               <-> n ∈ Uses h
                   \/ dyn_cast_FunctionDecl D ≫= recordedUse Ctx SM = Some n.
Proof.
  unfold handleUse, recordedUse.
  destruct (dyn_cast_FunctionDecl D) as [FD|]; cbn [mbind option_bind];
    [|intros [= <-]; split; [reflexivity|]; intros n; split;
      [by left | by intros [?|?]]].
  destruct (isInSystemHeader SM (getBegin (Ctx FD)));
    [intros [= <-]; split; [reflexivity|]; intros n; split;
      [by left | by intros [?|?]]|].
  destruct (instantiationPattern Ctx FD) as [FD'|]; [|discriminate].
  cbn [mbind option_bind]. intros [= <-]. cbn [Defs Uses].
  split; [reflexivity|]. intros n. rewrite elem_of_insert. split.
  - intros [->|?]; [by right | by left].
  - intros [?|[= <-]]; [by right | by left].
Qed.

(** Whether [handleUse] runs into its assertion does not depend on the
    handler. *)
Lemma handleUse_is_Some Ctx SM D h1 h2 :
  is_Some (handleUse Ctx SM D h1) -> is_Some (handleUse Ctx SM D h2).
Proof.
  unfold handleUse. destruct (dyn_cast_FunctionDecl D) as [FD|]; [|eauto].
  destruct (isInSystemHeader SM (getBegin (Ctx FD))); [eauto|].
  destruct (instantiationPattern Ctx FD); cbn [mbind option_bind]; [eauto|].
  by intros [? [=]].
Qed.

(** What one callback does to the two sets. *)
Lemma run_effect Ctx SM R h h' :
  run Ctx SM R h = Some h' ->
  (forall f, f ∈ Defs h'
             <-> f ∈ Defs h
                 \/ exists F F', R = fnDecl F
                                 /\ acceptedSubject Ctx SM F = Some F'
                                 /\ getCanonicalDecl (Ctx F') = f)
  /\ (forall n, n ∈ Uses h'
                <-> n ∈ Uses h \/ useOfResult Ctx SM R = Some n).
Proof.
  assert (forall D, run Ctx SM R h = handleUse Ctx SM D h ->
            useOfResult Ctx SM R
            = dyn_cast_FunctionDecl D ≫= recordedUse Ctx SM ->
            (forall F, R <> fnDecl F) ->
            run Ctx SM R h = Some h' ->
            (forall f, f ∈ Defs h'
               <-> f ∈ Defs h
                   \/ exists F F', R = fnDecl F
                                   /\ acceptedSubject Ctx SM F = Some F'
                                   /\ getCanonicalDecl (Ctx F') = f)
            /\ (forall n, n ∈ Uses h'
                  <-> n ∈ Uses h \/ useOfResult Ctx SM R = Some n)) as Huse.
  { intros D -> -> Hne (HD & HU)%handleUse_effect. split; [|exact HU].
    intros f. rewrite HD. split; [by left|].
    intros [?|(F & _ & -> & _)]; [assumption|]. by destruct (Hne F). }
  destruct R as [F|D|D|C];
    [|by apply (Huse D) | by apply (Huse D)
     |by apply (Huse (FunctionValue C))].
  clear Huse. cbn [useOfResult].
  destruct (acceptedSubject Ctx SM F) as [F'|] eqn:Hacc.
  - pose proof Hacc as
      (Hbody & Hsub & H1 & H2 & H3 & H4 & H5)%acceptedSubject_Some.
    unfold definitionSubject in Hsub. cbn [run].
    rewrite Hbody. cbn [negb]. rewrite Hsub. cbn [mbind option_bind].
    rewrite H1, H2, H3, H4, H5. cbn [negb].
    assert (forall f,
      f ∈ StdSet.insert (getCanonicalDecl (Ctx F')) (Defs h)
      <-> f ∈ Defs h
          \/ exists F0 F0', fnDecl F = fnDecl F0
                            /\ acceptedSubject Ctx SM F0 = Some F0'
                            /\ getCanonicalDecl (Ctx F0') = f) as HDefs.
    { intros f. rewrite elem_of_insert. split.
      - intros [->|?]; [right; by exists F, F' | by left].
      - intros [?|(F0 & F0' & [= <-] & HF0 & <-)]; [by right|].
        left. congruence. }
    destruct (hasConstructorAttr (Ctx F')).
    + intros (HD & HU)%handleUse_effect. cbn [Defs Uses] in HD, HU.
      split; [intros f; rewrite HD; exact (HDefs f) | exact HU].
    + intros [= <-]. cbn [Defs Uses]. split; [exact HDefs|].
      intros n. split; [by left | by intros [?|?]].
  - intros Hrun. assert (h' = h) as ->.
    { revert Hacc Hrun. unfold acceptedSubject, definitionSubject.
      cbn [run]. destruct (hasBody (Ctx F)); cbn [negb]; [|congruence].
      destruct (instantiationPattern Ctx _) as [F'|]; [|discriminate].
      cbn [mbind option_bind].
      destruct (isInSystemHeader SM _); [congruence|].
      destruct (isWrittenInMainFile SM _); cbn [negb orb]; [|congruence].
      destruct (isOverridingMethod Ctx F'); [congruence|].
      destruct (isDestructor Ctx F'); [congruence|].
      destruct (isMain (Ctx F')); [congruence|]. discriminate. }
    split; intros x; (split; [by left|]).
    + intros [?|(F0 & F0' & [= <-] & HF0 & _)]; [assumption|congruence].
    + by intros [?|[=]].
Qed.

(** Whether a callback runs into an assertion does not depend on the
    handler. *)
Lemma run_is_Some Ctx SM R h1 h2 :
  is_Some (run Ctx SM R h1) -> is_Some (run Ctx SM R h2).
Proof.
  destruct R as [F|D|D|C]; cbn [run]; try apply handleUse_is_Some.
  destruct (negb (hasBody (Ctx F))); [eauto|].
  destruct (instantiationPattern Ctx _) as [F'|]; cbn [mbind option_bind];
    [|by intros [? [=]]].
  repeat (match goal with
          | |- context [if ?b then Some h1 else _] => destruct b; [eauto|]
          end).
  destruct (hasConstructorAttr (Ctx F')); [apply handleUse_is_Some | eauto].
Qed.

(** What the matcher does to the two sets. *)
Lemma matchAST_effect Ctx SM Rs h h' :
  matchAST Ctx SM Rs h = Some h' ->
  (forall f, f ∈ Defs h'
             <-> f ∈ Defs h
                 \/ exists F F', fnDecl F ∈ Rs
                                 /\ acceptedSubject Ctx SM F = Some F'
                                 /\ getCanonicalDecl (Ctx F') = f)
  /\ (forall n, n ∈ Uses h'
                <-> n ∈ Uses h
                    \/ exists R, R ∈ Rs /\ useOfResult Ctx SM R = Some n).
Proof.
  revert h. induction Rs as [|R Rs IH]; intros h.
  - intros [= <-]. split; intros x; (split; [by left|]).
    + by intros [?|(? & ? & ?%elem_of_nil & _)].
    + by intros [?|(? & ?%elem_of_nil & _)].
  - cbn [matchAST]. destruct (run Ctx SM R h) as [h1|] eqn:Hrun;
      [|discriminate].
    cbn [mbind option_bind]. intros (HD & HU)%IH.
    apply run_effect in Hrun as (HD1 & HU1). split.
    + intros f. rewrite HD, HD1. split.
      * intros [[?|(F & F' & -> & ?)]|(F & F' & ? & ?)]; [by left|right..].
        -- exists F, F'. split; [by left | assumption].
        -- exists F, F'. split; [by right | assumption].
      * intros [?|(F & F' & [<-|?]%elem_of_cons & ?)];
          [by left; left | left; right; by exists F, F'
          | right; by exists F, F'].
    + intros n. rewrite HU, HU1. split.
      * intros [[?|?]|(R' & ? & ?)]; [by left|right..].
        -- exists R. split; [by left | assumption].
        -- exists R'. split; [by right | assumption].
      * intros [?|(R' & [->|?]%elem_of_cons & ?)];
          [by left; left | by left; right | right; by exists R'].
Qed.

Lemma matchAST_is_Some Ctx SM Rs h :
  is_Some (matchAST Ctx SM Rs h)
  <-> forall R, R ∈ Rs -> is_Some (run Ctx SM R newHandler).
Proof.
  revert h. induction Rs as [|R Rs IH]; intros h.
  - split; [by intros _ ? ?%elem_of_nil | by eauto].
  - cbn [matchAST]. split.
    + destruct (run Ctx SM R h) as [h1|] eqn:Hrun; [|by intros [? [=]]].
      cbn [mbind option_bind]. intros Hm R' [->|HR']%elem_of_cons.
      * apply (run_is_Some _ _ _ h). rewrite Hrun. eauto.
      * by apply (proj1 (IH h1)).
    + intros Hall.
      destruct (run_is_Some Ctx SM R newHandler h) as [h1 ->];
        [apply Hall; by left|].
      cbn [mbind option_bind]. apply IH. intros R' HR'. apply Hall. by right.
Qed.

(** X3.  [handleUse] (lines 159-174) never touches [Defs] and never takes
    anything out of [Uses]; what it adds is the canonical declaration of the
    function referred to, or of its template pattern when the function is a
    template instantiation, and it adds nothing for a declaration that is
    not a function or that begins in a system header.  The sets stay sets,
    and a second reference to the same declaration changes nothing. *)
Theorem X3_handleUse_adds_canonical_declaration (Ctx : ASTContext)
    (SM : SourceManager) (D : ValueDecl) (h h' : FunctionDeclMatchHandler) :
  handler_ok h = true ->
  handleUse Ctx SM D h = Some h' ->
  Defs h' = Defs h
  /\ handler_ok h' = true
  /\ (forall n, n ∈ Uses h'
                <-> n ∈ Uses h
                    \/ dyn_cast_FunctionDecl D ≫= recordedUse Ctx SM = Some n)
  /\ handleUse Ctx SM D h' = Some h'.
Proof.
  intros Hok Huse.
  pose proof (handleUse_effect _ _ _ _ _ Huse) as (HD & HU).
  pose proof (handleUse_spec _ _ _ _ _ Huse) as (_ & Hok' & _).
  split; [exact HD|]. split; [auto|]. split; [exact HU|].
  revert Huse. unfold handleUse.
  destruct (dyn_cast_FunctionDecl D) as [FD|]; [|by intros [= <-]].
  destruct (isInSystemHeader SM (getBegin (Ctx FD))); [by intros [= <-]|].
  destruct (instantiationPattern Ctx FD) as [FD'|]; [|discriminate].
  cbn [mbind option_bind]. intros [= <-]. cbn [Defs Uses]. do 2 f_equal.
  apply andb_true_iff in Hok as [_ Hset].
  apply insert_elem; [by apply is_set_insert|].
  apply elem_of_insert. by left.
Qed.

(** X3 on [e.cpp]: a reference to the instantiation [twice<int>] (3) is
    recorded as the canonical declaration of the template (2), once. *)
Lemma X3_witness :
  handleUse Examples.astE (Examples.sourceManager 1) (FunctionValue 3)
    newHandler
  = Some {| Defs := []; Uses := [2] |}
  /\ handleUse Examples.astE (Examples.sourceManager 1) (FunctionValue 3)
       {| Defs := []; Uses := [2] |}
     = Some {| Defs := []; Uses := [2] |}.
Proof.
  split; [reflexivity|].
  apply (X3_handleUse_adds_canonical_declaration Examples.astE
           (Examples.sourceManager 1) (FunctionValue 3) newHandler
           {| Defs := []; Uses := [2] |} eq_refl eq_refl).
Defined.

(** ** The handler at the end of a translation unit *)

(** X4.  When the matcher has gone over a translation unit, [Defs] holds
    exactly the canonical declarations of the definitions that lines 177-204
    let through: those with a body whose subject (the member function or
    template pattern it was instantiated from, if any) begins outside the
    system headers and in the main file, and is neither an overriding
    method, nor a destructor, nor [main]. *)
Theorem X4_Defs_holds_the_accepted_definitions (TU : TranslationUnit)
    (MT : MatchedTU) (f : FunctionDeclPtr) :
  matched TU = Some MT ->
  f ∈ Defs (TU_Handler MT)
  <-> exists F F',
        fnDecl F ∈ Results TU
        /\ acceptedSubject (Context TU) (SourceMgr TU) F = Some F'
        /\ getCanonicalDecl (Context TU F') = f.
Proof.
  intros (_ & _ & (HD & _)%matchAST_effect & _)%matched_Some.
  rewrite HD. split; [|by right].
  by intros [?%elem_of_nil|?].
Qed.

(** X4 on [e.cpp]: the canonical declaration of [run_all] (5, in [e.h])
    is in [Defs] through the match of its definition (4). *)
Lemma X4_witness :
  exists F F',
    fnDecl F ∈ Results Examples.tuE
    /\ acceptedSubject Examples.astE (Examples.sourceManager 1) F = Some F'
    /\ getCanonicalDecl (Examples.astE F') = 5.
Proof.
  apply (X4_Defs_holds_the_accepted_definitions Examples.tuE
           Examples.matchedE 5 eq_refl).
  by_decision.
Defined.

(** X5.  When the matcher has gone over a translation unit, [Uses] holds
    exactly the canonical declarations that some callback accounts for: the
    function a [declRef], [memberRef] or [cxxConstructExpr] refers to (its
    template pattern, when it is an instantiation), unless it begins in a
    system header, and every accepted definition that carries the
    constructor attribute. *)
Theorem X5_Uses_holds_the_recorded_references (TU : TranslationUnit)
    (MT : MatchedTU) (n : FunctionDeclPtr) :
  matched TU = Some MT ->
  n ∈ Uses (TU_Handler MT)
  <-> exists R, R ∈ Results TU
                /\ useOfResult (Context TU) (SourceMgr TU) R = Some n.
Proof.
  intros (_ & _ & (_ & HU)%matchAST_effect & _)%matched_Some.
  rewrite HU. split; [|by right].
  by intros [?%elem_of_nil|?].
Qed.

(** X5 on [e.cpp]: the template [twice] (2) is in [Uses] through the
    reference to its instantiation. *)
Lemma X5_witness :
  exists R, R ∈ Results Examples.tuE
            /\ useOfResult Examples.astE (Examples.sourceManager 1) R = Some 2.
Proof.
  apply (X5_Uses_holds_the_recorded_references Examples.tuE
           Examples.matchedE 2 eq_refl).
  by_decision.
Defined.

(** X6.  The handler that the matcher reaches depends on the set of
    callbacks only: neither the order in which the finder makes them nor the
    number of times it makes one of them matters, and this holds for the
    failed assertions as well. *)
Theorem X6_callback_order_is_irrelevant (Ctx : ASTContext)
    (SM : SourceManager) (Rs1 Rs2 : list MatchResult)
    (h : FunctionDeclMatchHandler) :
  handler_ok h = true ->
  (forall R, R ∈ Rs1 <-> R ∈ Rs2) ->
  matchAST Ctx SM Rs1 h = matchAST Ctx SM Rs2 h.
Proof.
  intros Hok Heq.
  destruct (matchAST Ctx SM Rs1 h) as [h1|] eqn:H1,
           (matchAST Ctx SM Rs2 h) as [h2|] eqn:H2; [|exfalso..|reflexivity].
  - pose proof (matchAST_ok _ _ _ _ _ H1 Hok) as [HD1 HU1]%andb_true_iff.
    pose proof (matchAST_ok _ _ _ _ _ H2 Hok) as [HD2 HU2]%andb_true_iff.
    apply matchAST_effect in H1 as (Hd1 & Hu1), H2 as (Hd2 & Hu2).
    assert (Defs h1 = Defs h2) as HD.
    { apply is_set_ext; [assumption..|]. intros f. rewrite Hd1, Hd2.
      split; (intros [?|(F & F' & ?%Heq & ?)]; [by left|right; eauto]). }
    assert (Uses h1 = Uses h2) as HU.
    { apply is_set_ext; [assumption..|]. intros n. rewrite Hu1, Hu2.
      split; (intros [?|(R & ?%Heq & ?)]; [by left|right; eauto]). }
    destruct h1, h2. cbn in HD, HU. by subst.
  - assert (is_Some (matchAST Ctx SM Rs2 h)) as [? ?]; [|congruence].
    apply matchAST_is_Some. intros R HR%Heq. revert R HR.
    apply (matchAST_is_Some Ctx SM Rs1 h). eauto.
  - assert (is_Some (matchAST Ctx SM Rs1 h)) as [? ?]; [|congruence].
    apply matchAST_is_Some. intros R HR%Heq. revert R HR.
    apply (matchAST_is_Some Ctx SM Rs2 h). eauto.
Qed.

(** X6 on [a.cpp]: the references to [g] first, and once only. *)
Lemma X6_witness :
  matchAST Project.astA (Project.sourceManager 1)
    [fnDecl 11; declRef (FunctionValue 20); declRef (FunctionValue 20)]
    newHandler
  = matchAST Project.astA (Project.sourceManager 1)
      [declRef (FunctionValue 20); fnDecl 11] newHandler.
Proof.
  apply (X6_callback_order_is_irrelevant Project.astA
           (Project.sourceManager 1)); [reflexivity|].
  intros R. rewrite !elem_of_cons, !elem_of_nil. tauto.
Defined.

(** X7.  A definition that carries the constructor attribute and that the
    matcher accepts is in [Uses] as well as in [Defs] (lines 210-212), so it
    is never an unused candidate of its translation unit.  (The subject of
    the match is the declaration tested; a template pattern is not itself a
    template instantiation.) *)
Theorem X7_constructor_definitions_count_as_used (TU : TranslationUnit)
    (MT : MatchedTU) (F F' : FunctionDeclPtr) :
  matched TU = Some MT ->
  fnDecl F ∈ Results TU ->
  acceptedSubject (Context TU) (SourceMgr TU) F = Some F' ->
  hasConstructorAttr (Context TU F') = true ->
  isTemplateInstantiation (Context TU F') = false ->
  getCanonicalDecl (Context TU F') ∈ Defs (TU_Handler MT)
  /\ getCanonicalDecl (Context TU F') ∈ Uses (TU_Handler MT)
  /\ ~ getCanonicalDecl (Context TU F') ∈ UnusedDefs (TU_Handler MT).
Proof.
  intros (_ & _ & Hm & Hok)%matched_Some HF Hacc Hctor Hinst.
  apply matchAST_effect in Hm as (HD & HU).
  assert (getCanonicalDecl (Context TU F') ∈ Uses (TU_Handler MT)) as Hused.
  { apply HU. right. exists (fnDecl F). split; [assumption|].
    cbn [useOfResult]. rewrite Hacc. cbn [mbind option_bind].
    rewrite Hctor. unfold recordedUse, instantiationPattern.
    apply acceptedSubject_Some in Hacc as (_ & _ & -> & _).
    by rewrite Hinst. }
  split; [apply HD; right; by exists F, F'|]. split; [assumption|].
  rewrite elem_of_UnusedDefs by assumption. tauto.
Qed.

(** X7 on [e.cpp]: [setup] (1) carries the constructor attribute. *)
Lemma X7_witness :
  1 ∈ Defs Examples.handlerE /\ 1 ∈ Uses Examples.handlerE
  /\ ~ 1 ∈ UnusedDefs Examples.handlerE.
Proof.
  apply (X7_constructor_definitions_count_as_used Examples.tuE
           Examples.matchedE 1 1);
    [reflexivity | by left | reflexivity | reflexivity | reflexivity].
Defined.

Lemma instantiationPattern_is_Some Ctx F :
  (forall p, isTemplateInstantiation (Ctx p) = true ->
             is_Some (getTemplateInstantiationPattern (Ctx p))) ->
  is_Some (instantiationPattern Ctx F).
Proof.
  intros Hpat. unfold instantiationPattern.
  destruct (isTemplateInstantiation (Ctx F)) eqn:HF; [auto|eauto].
Qed.

(** X8.  The only assertions the matcher can run into are those of lines
    168 and 185, on the pattern of a template instantiation: over an AST in
    which every template instantiation has a pattern, the matcher reaches
    the end of the translation unit, whatever the callbacks are. *)
Theorem X8_matcher_completes_when_patterns_exist (Ctx : ASTContext)
    (SM : SourceManager) (Rs : list MatchResult)
    (h : FunctionDeclMatchHandler) :
  (forall p, isTemplateInstantiation (Ctx p) = true ->
             is_Some (getTemplateInstantiationPattern (Ctx p))) ->
  exists h', matchAST Ctx SM Rs h = Some h'.
Proof.
  intros Hpat. apply (matchAST_is_Some Ctx SM Rs h). intros R _.
  assert (forall D h0, is_Some (handleUse Ctx SM D h0)) as Huse.
  { intros D h0. unfold handleUse.
    destruct (dyn_cast_FunctionDecl D) as [FD|]; [|eauto].
    destruct (isInSystemHeader SM (getBegin (Ctx FD))); [eauto|].
    destruct (instantiationPattern_is_Some Ctx FD Hpat) as [FD' ->].
    cbn [mbind option_bind]. eauto. }
  destruct R as [F|D|D|C]; cbn [run]; try apply Huse.
  destruct (negb (hasBody (Ctx F))); [eauto|].
  destruct (instantiationPattern_is_Some Ctx
              (match getInstantiatedFromMemberFunction (Ctx F) with
               | Some Templ => Templ
               | None => F
               end) Hpat) as [F' ->].
  cbn [mbind option_bind].
  repeat (match goal with
          | |- context [if ?b then Some newHandler else _] =>
              destruct b; [eauto|]
          end).
  destruct (hasConstructorAttr (Ctx F')); [apply Huse | eauto].
Qed.

(** X8 on [e.cpp], whose one instantiation has its pattern; on the AST in
    which the pattern is missing the matcher stops at the assertion. *)
Lemma X8_witness :
  (exists h', matchAST Examples.astE (Examples.sourceManager 1)
                Examples.callbacks newHandler = Some h')
  /\ matchAST Examples.astBroken (Examples.sourceManager 1) [fnDecl 3]
       newHandler
     = None.
Proof.
  split; [|reflexivity].
  apply (X8_matcher_completes_when_patterns_exist Examples.astE).
  intros p. unfold Examples.astE.
  repeat case_match; cbn; try discriminate; eauto.
Defined.

(** ** What [finalize] does to the table *)

Lemma merge_cons AllDecls KO r :
  merge AllDecls (KO :: r) = merge (merge1 AllDecls KO) r.
Proof. reflexivity. Qed.

(** A merge leaves alone the records of the symbols it has no observation
    of. *)
Lemma merge_lookup_frame (AllDecls : AllDeclsMap) (r : TUResult) k :
  k ∉ r.*1 -> merge AllDecls r !! k = AllDecls !! k.
Proof.
  revert AllDecls. induction r as [|[k' o] r IH]; intros AllDecls Hk;
    [reflexivity|].
  rewrite fmap_cons, not_elem_of_cons in Hk. destruct Hk as [Hne Hk].
  rewrite merge_cons, IH by assumption. apply merge1_lookup_ne.
  intros Heq. cbn in Heq. by subst.
Qed.

(** A merge deletes no record and takes no definition away. *)
Lemma merge_keeps (AllDecls : AllDeclsMap) (r : TUResult) k Info :
  (forall k' D, (k', Defined D) ∈ r -> is_Some (DefInfo.Definition_ D)) ->
  AllDecls !! k = Some Info ->
  exists Info',
    merge AllDecls r !! k = Some Info'
    /\ (is_Some (DefInfo.Definition_ Info)
        -> is_Some (DefInfo.Definition_ Info')).
Proof.
  revert AllDecls Info. induction r as [|[k' o] r IH];
    intros AllDecls Info Hdef HInfo; [by exists Info|].
  assert (forall k0 D, (k0, Defined D) ∈ r
            -> is_Some (DefInfo.Definition_ D)) as Hdef'
    by (intros k0 D Hin; apply (Hdef k0); by right).
  rewrite merge_cons. destruct (decide (k' = k)) as [->|Hne].
  - destruct (IH (merge1 AllDecls (k, o)) _ Hdef'
                (merge1_lookup_eq AllDecls k o)) as (Info' & HInfo' & Hkeep).
    exists Info'. split; [assumption|]. intros HS. apply Hkeep.
    rewrite HInfo. cbn [default]. destruct o as [D|]; cbn; [|assumption].
    apply (Hdef k). by left.
  - apply IH; [assumption|]. by rewrite merge1_lookup_ne.
Qed.

(** The observations of a translation unit, in the terms of the source. *)
Lemma elem_of_tuResult TU k o :
  (k, o) ∈ tuResult TU
  <-> (exists f F, f ∈ UnusedDefs (TU_Handler TU)
                   /\ getDefinition (TU_Context TU f) = Some F
                   /\ getUSRForDecl (TU_Context TU) F = Some k
                   /\ o = Defined (definitionOf (TU_Context TU)
                                     (TU_SourceMgr TU) F))
      \/ (exists n, n ∈ ExternalUses (TU_Context TU) (TU_Handler TU)
                    /\ getUSRForDecl (TU_Context TU) n = Some k
                    /\ o = Used).
Proof.
  unfold tuResult. rewrite elem_of_app, !list_elem_of_omap.
  unfold defObservation, useObservation. split.
  - intros [(f & Hf & Hobs)|(n & Hn & Hobs)]; [left|right].
    + destruct (getDefinition (TU_Context TU f)) as [F|] eqn:HF;
        [|discriminate]. cbn [mbind option_bind] in Hobs.
      destruct (getUSRForDecl (TU_Context TU) F) as [k'|] eqn:HU;
        [|discriminate]. cbn in Hobs. simplify_eq. by exists f, F.
    + destruct (getUSRForDecl (TU_Context TU) n) as [k'|] eqn:HU;
        [|discriminate]. cbn in Hobs. simplify_eq. by exists n.
  - intros [(f & F & Hf & HF & HU & ->)|(n & Hn & HU & ->)]; [left|right].
    + exists f. split; [assumption|]. rewrite HF. cbn [mbind option_bind].
      by rewrite HU.
    + exists n. split; [assumption|]. by rewrite HU.
Qed.

Lemma elem_of_tuResult_keys TU k :
  k ∈ (tuResult TU).*1
  <-> (exists f, f ∈ UnusedDefs (TU_Handler TU)
                 /\ definitionUSR (TU_Context TU) f = Some k)
      \/ (exists n, n ∈ ExternalUses (TU_Context TU) (TU_Handler TU)
                    /\ getUSRForDecl (TU_Context TU) n = Some k).
Proof.
  rewrite list_elem_of_fmap. unfold definitionUSR. split.
  - intros ([k' o] & -> & [(f & F & Hf & HF & HU & _)|(n & Hn & HU & _)]
                           %elem_of_tuResult); [left|right].
    + exists f. split; [assumption|]. by rewrite HF.
    + by exists n.
  - intros [(f & Hf & HU)|(n & Hn & HU)].
    + destruct (getDefinition (TU_Context TU f)) as [F|] eqn:HF;
        [|discriminate]. cbn [mbind option_bind] in HU.
      eexists (k, _). split; [reflexivity|]. apply elem_of_tuResult.
      left. by exists f, F.
    + exists (k, Used). split; [reflexivity|]. apply elem_of_tuResult.
      right. by exists n.
Qed.

Lemma tuResult_Defined_Some TU k D :
  (k, Defined D) ∈ tuResult TU -> is_Some (DefInfo.Definition_ D).
Proof.
  intros [(f & F & _ & _ & _ & [= ->])|(n & _ & _ & [=])]%elem_of_tuResult.
  cbn. eauto.
Qed.

(** A call of [finalize] that returns has found every definition, and is
    the merge of the observations of the translation unit. *)
Lemma finalize_Some_inv Ctx SM h AllDecls h' AllDecls' :
  finalize Ctx SM h AllDecls = Some (h', AllDecls') ->
  definitionsFound {| TU_Context := Ctx; TU_SourceMgr := SM;
                      TU_Handler := h |} = true
  /\ h' = {| Defs := StdSet.discard_if (fun FD => isWeak (Ctx FD)) (Defs h);
             Uses := Uses h |}
  /\ AllDecls'
     = merge AllDecls (tuResult {| TU_Context := Ctx; TU_SourceMgr := SM;
                                   TU_Handler := h |}).
Proof.
  intros Hfin.
  pose proof (finalize_merge {| TU_Context := Ctx; TU_SourceMgr := SM;
                                TU_Handler := h |} AllDecls) as Hm.
  pose proof (finalize_assert {| TU_Context := Ctx; TU_SourceMgr := SM;
                                 TU_Handler := h |} AllDecls) as Ha.
  cbn [TU_Context TU_SourceMgr TU_Handler] in Hm, Ha.
  destruct (definitionsFound _) eqn:Hfound.
  - rewrite Hm in Hfin by reflexivity. by injection Hfin as <- <-.
  - rewrite Ha in Hfin by reflexivity. discriminate.
Qed.

(** X9.  [finalize] (lines 98-157) only adds to the table: every record
    that was there is still there, a record that had a definition still has
    one, and the record of a symbol is left exactly as it was unless the
    translation unit has an unused definition or an external use of that
    symbol.  Of the handler it changes [Defs] only, from which the weak
    definitions are gone. *)
Theorem X9_finalize_keeps_what_is_recorded (Ctx : ASTContext)
    (SM : SourceManager) (h h' : FunctionDeclMatchHandler)
    (AllDecls AllDecls' : AllDeclsMap) :
  finalize Ctx SM h AllDecls = Some (h', AllDecls') ->
  (forall k Info, AllDecls !! k = Some Info ->
     exists Info',
       AllDecls' !! k = Some Info'
       /\ (is_Some (DefInfo.Definition_ Info)
           -> is_Some (DefInfo.Definition_ Info')))
  /\ (forall k,
        (forall f, f ∈ UnusedDefs h -> definitionUSR Ctx f <> Some k) ->
        (forall n, n ∈ ExternalUses Ctx h -> getUSRForDecl Ctx n <> Some k) ->
        AllDecls' !! k = AllDecls !! k)
  /\ Uses h' = Uses h
  /\ (forall f, f ∈ Defs h' <-> f ∈ Defs h /\ isWeak (Ctx f) = false).
Proof.
  intros (_ & -> & ->)%finalize_Some_inv. cbn [Defs Uses].
  split; [|split; [|split; [reflexivity|intros f; apply elem_of_discard_if]]].
  - intros k Info HInfo. apply merge_keeps; [|assumption].
    intros k' D. apply tuResult_Defined_Some.
  - intros k Hdefs Huses. apply merge_lookup_frame.
    rewrite elem_of_tuResult_keys. cbn [TU_Context TU_Handler].
    intros [(f & Hf & HU)|(n & Hn & HU)]; [by apply (Hdefs f)|].
    by apply (Huses n).
Qed.

(** X9 on [e.cpp], handled after [s.cpp]: the record of [fallback] keeps
    its definition. *)
Lemma X9_witness :
  finalize Examples.astE (Examples.sourceManager 1) Examples.handlerE
    Examples.tableS
  = Some ({| Defs := [1; 2; 5; 8]; Uses := [1; 2; 7] |},
          merge Examples.tableS (tuResult Examples.matchedE))
  /\ exists Info',
       merge Examples.tableS (tuResult Examples.matchedE) !! "c:@F@fallback"
       = Some Info'
       /\ (is_Some (DefInfo.Definition_
                      (definitionOf Examples.astS (Examples.sourceManager 3)
                         7))
           -> is_Some (DefInfo.Definition_ Info')).
Proof.
  split; [reflexivity|].
  refine (proj1 (X9_finalize_keeps_what_is_recorded Examples.astE
                   (Examples.sourceManager 1) Examples.handlerE
                   {| Defs := [1; 2; 5; 8]; Uses := [1; 2; 7] |}
                   Examples.tableS
                   (merge Examples.tableS (tuResult Examples.matchedE)) _)
            "c:@F@fallback" _ _); reflexivity.
Defined.

(** X10.  A translation unit that references every function it defines
    and references nothing else, and whose definitions are not weak, leaves
    both the table and its handler exactly as they were.  In particular a
    translation unit without callbacks does. *)
Theorem X10_self_contained_unit_changes_nothing (Ctx : ASTContext)
    (SM : SourceManager) (h : FunctionDeclMatchHandler)
    (AllDecls : AllDeclsMap) :
  handler_ok h = true ->
  (forall f, f ∈ Defs h -> f ∈ Uses h /\ isWeak (Ctx f) = false) ->
  (forall n, n ∈ Uses h -> n ∈ Defs h) ->
  finalize Ctx SM h AllDecls = Some (h, AllDecls).
Proof.
  intros Hok HD HU. pose proof Hok as [HsD HsU]%andb_true_iff.
  unfold finalize. cbn [Defs Uses].
  rewrite (discard_if_id _ (Defs h)) by (intros f Hf; by apply HD).
  rewrite !set_difference_filter by assumption.
  rewrite (proj2 (filter_nil_iff (fun x => x ∉ Uses h) (Defs h)))
    by (intros f Hf Hn; apply Hn; by apply HD).
  rewrite (proj2 (filter_nil_iff (fun x => x ∉ Defs h) (Uses h)))
    by (intros n Hn Hd; apply Hd; by apply HU).
  cbn. by destruct h.
Qed.

(** X10 on a translation unit that defines [g] and calls it. *)
Lemma X10_witness :
  finalize Project.astB (Project.sourceManager 2)
    {| Defs := [20]; Uses := [20] |} Examples.tableS
  = Some ({| Defs := [20]; Uses := [20] |}, Examples.tableS).
Proof.
  apply (X10_self_contained_unit_changes_nothing Project.astB
           (Project.sourceManager 2) {| Defs := [20]; Uses := [20] |});
    [reflexivity | |]; cbn [Defs Uses].
  - intros f ->%list_elem_of_singleton. split; [by left | reflexivity].
  - by intros n Hn.
Defined.

(** X11.  A declaration for which no USR can be generated is passed over
    (lines 110-111 and 149-150): the loops over [UnusedDefs] and over
    [ExternalUses] do to the table what they would do if the ranges held
    only the declarations that have a USR.  (The loop over [UnusedDefs]
    asserts first that each declaration has a definition.) *)
Theorem X11_declarations_without_USR_are_passed_over (Ctx : ASTContext)
    (SM : SourceManager) (Fs Ns : list FunctionDeclPtr)
    (AllDecls : AllDeclsMap) :
  Forall (fun F => is_Some (getDefinition (Ctx F))) Fs ->
  recordUnusedDefs Ctx SM Fs AllDecls
  = recordUnusedDefs Ctx SM
      (filter (fun F => is_Some (definitionUSR Ctx F)) Fs) AllDecls
  /\ recordExternalUses Ctx Ns AllDecls
     = recordExternalUses Ctx
         (filter (fun n => is_Some (getUSRForDecl Ctx n)) Ns) AllDecls.
Proof.
  intros Hdef. split.
  - revert AllDecls. induction Hdef as [|F Fs [G HG] _ IH]; intros AllDecls;
      [reflexivity|].
    assert (definitionUSR Ctx F = getUSRForDecl Ctx G) as HFU
      by (unfold definitionUSR; by rewrite HG).
    rewrite filter_cons.
    destruct (getUSRForDecl Ctx G) as [USR|] eqn:HU.
    + rewrite decide_True by (rewrite HFU; eauto). cbn [recordUnusedDefs].
      destruct (recordUnusedDef Ctx SM F AllDecls); [|reflexivity].
      cbn [mbind option_bind]. apply IH.
    + rewrite decide_False by (rewrite HFU; by intros [? [=]]).
      cbn [recordUnusedDefs].
      rewrite (recordUnusedDef_no_USR _ _ _ _ _ HG HU).
      cbn [mbind option_bind]. apply IH.
  - revert AllDecls. induction Ns as [|n Ns IH]; intros AllDecls;
      [reflexivity|].
    rewrite filter_cons. cbn [recordExternalUses].
    destruct (getUSRForDecl Ctx n) as [USR|] eqn:HU.
    + rewrite decide_True by eauto. cbn [recordExternalUses]. apply IH.
    + rewrite decide_False by (by intros [? [=]]).
      unfold recordExternalUse. rewrite HU. apply IH.
Qed.

(** X11 on [e.cpp]: of the unused definitions [run_all] (5) and [local]
    (8), the second has no USR and leaves no record. *)
Lemma X11_witness :
  recordUnusedDefs Examples.astE (Examples.sourceManager 1) [5; 8] ∅
  = recordUnusedDefs Examples.astE (Examples.sourceManager 1) [5] ∅
  /\ recordExternalUses Examples.astE [7; 8] ∅
     = recordExternalUses Examples.astE [7] ∅.
Proof.
  apply (X11_declarations_without_USR_are_passed_over Examples.astE
           (Examples.sourceManager 1) [5; 8] [7; 8] ∅).
  by_decision.
Defined.

(** ** The table and the report at the end of a run *)

Lemma finalizeAll_Some_merge TUs AllDecls :
  finalizeAll TUs ∅ = Some AllDecls ->
  AllDecls = merge ∅ (TUs ≫= tuResult).
Proof.
  intros Hrun. pose proof (finalizeAll_Some_found _ _ _ Hrun) as Hfound.
  rewrite (finalizeAll_merge _ _ Hfound) in Hrun. by injection Hrun.
Qed.

Lemma externalUseCount_total TUs USR :
  externalUseCount TUs USR = externalUseTotal TUs USR.
Proof.
  induction TUs as [|TU TUs IH]; [reflexivity|].
  rewrite externalUseCount_cons, IH. reflexivity.
Qed.

Lemma recordAfter_is_Some_iff os : is_Some (recordAfter os None) <-> os <> [].
Proof.
  destruct os as [|o os]; cbn [recordAfter].
  - split; [by intros [? [=]] | done].
  - split; [done | eauto].
Qed.

Lemma observationsOf_nil_iff USR (r : TUResult) :
  observationsOf USR r = [] <-> USR ∉ r.*1.
Proof.
  unfold observationsOf. rewrite omap_nil_iff, list_elem_of_fmap. split.
  - intros Hall ([k o] & -> & Hin). specialize (Hall _ Hin). cbn in Hall.
    by rewrite decide_True in Hall.
  - intros Hno [k o] Hin. cbn. destruct (decide (k = USR)) as [->|];
      [|reflexivity]. destruct Hno. by exists (USR, o).
Qed.

(** The symbols of which a run has an observation. *)
Lemma elem_of_run_keys (TUs : list MatchedTU) USR :
  USR ∈ (TUs ≫= tuResult).*1
  <-> exists TU,
        TU ∈ TUs
        /\ ((exists f, f ∈ UnusedDefs (TU_Handler TU)
                       /\ definitionUSR (TU_Context TU) f = Some USR)
            \/ (exists n, n ∈ ExternalUses (TU_Context TU) (TU_Handler TU)
                          /\ getUSRForDecl (TU_Context TU) n = Some USR)).
Proof.
  rewrite list_elem_of_fmap. split.
  - intros (KO & -> & (TU & HKO & HTU)%list_elem_of_bind). exists TU.
    split; [assumption|]. apply elem_of_tuResult_keys, list_elem_of_fmap.
    by exists KO.
  - intros (TU & HTU & ([k o] & Hk & HKO)%elem_of_tuResult_keys
                          %list_elem_of_fmap).
    exists (k, o). split; [assumption|]. apply list_elem_of_bind. eauto.
Qed.

(** X12.  At the end of a run the table has a record for a symbol exactly
    when some translation unit had an unused definition of it or an
    external use of it: nothing else creates a record, and no record is
    lost. *)
Theorem X12_recorded_symbols (TUs : list MatchedTU) (AllDecls : AllDeclsMap)
    (USR : string) :
  finalizeAll TUs ∅ = Some AllDecls ->
  is_Some (AllDecls !! USR)
  <-> exists TU,
        TU ∈ TUs
        /\ ((exists f, f ∈ UnusedDefs (TU_Handler TU)
                       /\ definitionUSR (TU_Context TU) f = Some USR)
            \/ (exists n, n ∈ ExternalUses (TU_Context TU) (TU_Handler TU)
                          /\ getUSRForDecl (TU_Context TU) n = Some USR)).
Proof.
  intros ->%finalizeAll_Some_merge.
  rewrite run_lookup, recordAfter_is_Some_iff, <-elem_of_run_keys.
  rewrite observationsOf_nil_iff.
  destruct (decide (USR ∈ (TUs ≫= tuResult).*1)); tauto.
Qed.

(** X12 on [s.cpp] and [e.cpp]: the record of [fallback]. *)
Lemma X12_witness :
  exists TU,
    TU ∈ [Examples.matchedS; Examples.matchedE]
    /\ ((exists f, f ∈ UnusedDefs (TU_Handler TU)
                   /\ definitionUSR (TU_Context TU) f = Some "c:@F@fallback")
        \/ (exists n, n ∈ ExternalUses (TU_Context TU) (TU_Handler TU)
                      /\ getUSRForDecl (TU_Context TU) n
                         = Some "c:@F@fallback")).
Proof.
  apply (X12_recorded_symbols [Examples.matchedS; Examples.matchedE]
           (merge ∅ ([Examples.matchedS; Examples.matchedE] ≫= tuResult))
           "c:@F@fallback"); [reflexivity | by_decision].
Defined.

Lemma run_usesOf (TUs : list MatchedTU) USR :
  usesOf (merge ∅ (TUs ≫= tuResult) !! USR)
  = (externalUseTotal TUs USR mod SIZE_MODULUS)%N.
Proof.
  rewrite run_lookup, usesOf_recordAfter by reflexivity.
  cbn [usesOf from_option]. rewrite N.add_0_l.
  fold (externalUseCount TUs USR). by rewrite externalUseCount_total.
Qed.

(** X13.  At the end of a run the use count of a symbol is the number of
    its canonical declarations in the ranges [ExternalUses] of the
    translation units, added up over the run, as a [size_t]: each
    translation unit counts at most once for each canonical declaration,
    and the count is the plain sum as long as that is below [2^64]. *)
Theorem X13_use_count_is_the_sum_over_the_units (TUs : list MatchedTU)
    (AllDecls : AllDeclsMap) (USR : string) :
  finalizeAll TUs ∅ = Some AllDecls ->
  usesOf (AllDecls !! USR) = (externalUseTotal TUs USR mod SIZE_MODULUS)%N
  /\ ((externalUseTotal TUs USR < SIZE_MODULUS)%N ->
      usesOf (AllDecls !! USR) = externalUseTotal TUs USR).
Proof.
  intros ->%finalizeAll_Some_merge. rewrite run_usesOf.
  split; [reflexivity|]. apply N.mod_small.
Qed.

(** X13 on [s.cpp] and [e.cpp]: [fallback] is counted once. *)
Lemma X13_witness :
  usesOf (merge ∅ ([Examples.matchedS; Examples.matchedE] ≫= tuResult)
            !! "c:@F@fallback")
  = (externalUseTotal [Examples.matchedS; Examples.matchedE] "c:@F@fallback"
     mod SIZE_MODULUS)%N
  /\ externalUseTotal [Examples.matchedS; Examples.matchedE] "c:@F@fallback"
     = 1%N.
Proof.
  split; [|reflexivity].
  refine (proj1 (X13_use_count_is_the_sum_over_the_units
                   [Examples.matchedS; Examples.matchedE]
                   (merge ∅ ([Examples.matchedS; Examples.matchedE]
                              ≫= tuResult))
                   "c:@F@fallback" _)).
  reflexivity.
Defined.

Lemma recordAfter_finding os Info :
  (forall D, D ∈ definedIn os ->
     D = DefInfo.mk (DefInfo.Definition_ D) 0 (DefInfo.Name D)
           (DefInfo.Filename D) (DefInfo.Line D) (DefInfo.Declarations D)
     /\ is_Some (DefInfo.Definition_ D)) ->
  recordAfter os None = Some Info /\ isUnused Info = true
  <-> last (definedIn os) = Some Info
      /\ (usedIn os mod SIZE_MODULUS = 0)%N.
Proof.
  intros Hshape. split.
  - intros [HInfo HU].
    assert (recordAfter os None = Some (summaryOf os blank)) as Hrec
      by (destruct os; [discriminate | reflexivity]).
    rewrite Hrec in HInfo. injection HInfo as <-. revert HU.
    unfold isUnused, summaryOf.
    cbn [DefInfo.Definition_ DefInfo.Uses blank DefInfo.init].
    rewrite N.add_0_l.
    destruct (last (definedIn os)) as [D|] eqn:Hlast; cbn [default id];
      [|discriminate].
    intros HU.
    destruct (Hshape D (last_Some_elem_of _ _ Hlast)) as [HD [G HG]].
    rewrite HG in HU. apply N.eqb_eq in HU. rewrite HU.
    split; [|reflexivity]. f_equal. exact HD.
  - intros [Hlast Hmod].
    destruct (Hshape Info (last_Some_elem_of _ _ Hlast)) as [HD [G HG]].
    assert (recordAfter os None = Some (summaryOf os blank)) as ->
      by (destruct os; [discriminate | reflexivity]).
    unfold summaryOf. rewrite Hlast. cbn [default id].
    cbn [DefInfo.Uses blank DefInfo.init]. rewrite N.add_0_l, Hmod, <-HD.
    split; [reflexivity|]. unfold isUnused. rewrite HG, HD. reflexivity.
Qed.

(** The findings of a run, one symbol at a time. *)
Lemma finding_iff (TUs : list MatchedTU) USR Info :
  (USR, Info) ∈ findings (merge ∅ (TUs ≫= tuResult))
  <-> last (definitionsOf TUs USR) = Some Info
      /\ (externalUseTotal TUs USR mod SIZE_MODULUS = 0)%N.
Proof.
  rewrite elem_of_findings, run_lookup, recordAfter_finding.
  - fold (externalUseCount TUs USR).
    by rewrite definedIn_run, externalUseCount_total.
  - intros D (TU & f & _ & _ & HD)%elem_of_definedIn_run.
    by apply definitionFor_shape in HD.
Qed.

(** X14.  The report of a run has a finding for a symbol exactly when
    some translation unit recorded an unused definition of it and the
    external uses of the run add up to zero (as a [size_t]); the finding
    then carries the definition, name, file, line and declaration sites of
    the unused definition recorded last. *)
Theorem X14_finding_is_the_last_unused_definition (TUs : list MatchedTU)
    (AllDecls : AllDeclsMap) (USR : string) (Info : DefInfo.t) :
  finalizeAll TUs ∅ = Some AllDecls ->
  (USR, Info) ∈ findings AllDecls
  <-> last (definitionsOf TUs USR) = Some Info
      /\ (externalUseTotal TUs USR mod SIZE_MODULUS = 0)%N.
Proof.
  intros ->%finalizeAll_Some_merge.
  rewrite elem_of_findings, run_lookup, recordAfter_finding.
  - fold (externalUseCount TUs USR).
    by rewrite definedIn_run, externalUseCount_total.
  - intros D (TU & f & _ & _ & HD)%elem_of_definedIn_run.
    by apply definitionFor_shape in HD.
Qed.

(** X14 on [e.cpp] alone: [run_all] is reported with the site of its
    definition and the prototype of [e.h] as its declaration. *)
Lemma X14_witness :
  ("c:@F@run_all",
   DefInfo.mk (Some 4) 0 "run_all" "/proj/e.cpp" 9 [DeclLoc.mk "/proj/e.h" 1])
  ∈ findings (merge ∅ ([Examples.matchedE] ≫= tuResult)).
Proof.
  apply (X14_finding_is_the_last_unused_definition [Examples.matchedE]
           (merge ∅ ([Examples.matchedE] ≫= tuResult)) "c:@F@run_all"
           (DefInfo.mk (Some 4) 0 "run_all" "/proj/e.cpp" 9
              [DeclLoc.mk "/proj/e.h" 1])); [reflexivity|].
  split; reflexivity.
Defined.

(** X15.  A reference to a weak definition is an external use of its
    symbol even in the translation unit that holds the weak definition
    (lines 126-135): once a translation unit references it, the symbol has
    uses and no definition of it, weak or overriding, here or in another
    translation unit, is reported.  (The count is a [size_t]: the run is
    assumed to count fewer than [2^64] uses of the symbol.) *)
Theorem X15_reference_to_weak_definition_marks_symbol_used
    (TUs : list MatchedTU) (AllDecls : AllDeclsMap) (A : MatchedTU)
    (n : FunctionDeclPtr) (USR : string) :
  finalizeAll TUs ∅ = Some AllDecls ->
  A ∈ TUs ->
  handler_ok (TU_Handler A) = true ->
  n ∈ Uses (TU_Handler A) ->
  isWeak (TU_Context A n) = true ->
  getUSRForDecl (TU_Context A) n = Some USR ->
  (externalUseTotal TUs USR < SIZE_MODULUS)%N ->
  n ∈ ExternalUses (TU_Context A) (TU_Handler A)
  /\ (0 < usesOf (AllDecls !! USR))%N
  /\ forall Info, ~ (USR, Info) ∈ findings AllDecls.
Proof.
  intros ->%finalizeAll_Some_merge HA Hok Hn Hweak HUSR Hsmall.
  assert (n ∈ ExternalUses (TU_Context A) (TU_Handler A)) as Hext.
  { apply elem_of_ExternalUses; [assumption|]. split; [assumption|].
    intros [_ Hw]. congruence. }
  assert (0 < externalUseTotal TUs USR)%N as Hpos.
  { rewrite <-externalUseCount_total.
    apply (externalUseCount_pos TUs A USR n); [assumption|].
    by apply list_elem_of_filter. }
  split; [assumption|]. split.
  - rewrite run_usesOf, N.mod_small by assumption. exact Hpos.
  - intros Info [_ Hz]%finding_iff. rewrite N.mod_small in Hz by assumption.
    lia.
Qed.

(** X15 on [s.cpp] and [e.cpp]: [e.cpp] calls its weak [fallback], and
    the strong [fallback] of [s.cpp], which nothing else calls, is not
    reported. *)
Lemma X15_witness :
  7 ∈ ExternalUses Examples.astE Examples.handlerE
  /\ (0 < usesOf (merge ∅ ([Examples.matchedS; Examples.matchedE]
                            ≫= tuResult) !! "c:@F@fallback"))%N
  /\ forall Info,
       ~ ("c:@F@fallback", Info)
         ∈ findings (merge ∅ ([Examples.matchedS; Examples.matchedE]
                               ≫= tuResult)).
Proof.
  apply (X15_reference_to_weak_definition_marks_symbol_used
           [Examples.matchedS; Examples.matchedE]
           (merge ∅ ([Examples.matchedS; Examples.matchedE] ≫= tuResult))
           Examples.matchedE 7 "c:@F@fallback");
    [reflexivity | by right; left | reflexivity | by_decision
    | reflexivity | reflexivity | reflexivity].
Defined.

Lemma StronglySorted_sublist {A} (R : relation A) (l1 l2 : list A) :
  sublist l1 l2 -> StronglySorted R l2 -> StronglySorted R l1.
Proof.
  induction 1 as [|x l1 l2 Hsub IH|x l1 l2 Hsub IH]; intros Hs;
    [constructor|..].
  - apply StronglySorted_cons in Hs as [Hall Hs].
    apply StronglySorted_cons. split; [|auto].
    rewrite Forall_forall in *. intros y Hy. apply Hall.
    by eapply sublist_subseteq.
  - apply StronglySorted_cons in Hs as [_ Hs]. auto.
Qed.

Lemma findings_fst_sublist (AllDecls : AllDeclsMap) :
  sublist (findings AllDecls).*1 (keys AllDecls).
Proof.
  rewrite <-entries_fst. unfold findings. apply fmap_sublist, sublist_filter.
Qed.

(** X16.  The report loop (lines 294-305) only appends to the stream.
    What it appends is, for each record that has a definition and the use
    count 0, the warning line followed by one note line for each
    declaration site; the records are visited in increasing key order, each
    once, and the other records print nothing. *)
Theorem X16_report_in_key_order (AllDecls : AllDeclsMap) (errs : string) :
  printReport AllDecls errs
  = errs +:+ concatText (findings AllDecls ≫= fun KV => findingText KV.2)
  /\ StronglySorted String.le (findings AllDecls).*1
  /\ NoDup (findings AllDecls).*1
  /\ (forall k Info,
        (k, Info) ∈ findings AllDecls
        <-> AllDecls !! k = Some Info
            /\ is_Some (DefInfo.Definition_ Info)
            /\ DefInfo.Uses Info = 0%N).
Proof.
  split; [apply printReport_findings|]. split; [|split].
  - eapply StronglySorted_sublist; [apply findings_fst_sublist|].
    apply Sorted_StronglySorted; [apply _|apply Sorted_keys].
  - eapply sublist_NoDup; [apply NoDup_keys | apply findings_fst_sublist].
  - intros k Info. rewrite elem_of_findings. unfold isUnused.
    destruct (DefInfo.Definition_ Info) as [F|].
    + rewrite N.eqb_eq. split; [intros [? ?]; eauto | tauto].
    + split; [by intros [_ [=]] | by intros (_ & [? [=]] & _)].
Qed.

(** ** Runs that stop at an assertion *)

Lemma HandleTranslationUnit_is_Some TU AllDecls :
  is_Some (HandleTranslationUnit TU AllDecls)
  <-> exists MT, matched TU = Some MT /\ definitionsFound MT = true.
Proof.
  rewrite HandleTranslationUnit_matched.
  destruct (matched TU) as [MT|]; cbn [mbind option_bind];
    [|split; [by intros [? [=]] | by intros (? & [=] & _)]].
  destruct (definitionsFound MT) eqn:Hfound.
  - rewrite (finalize_merge _ _ Hfound). cbn [mbind option_bind].
    split; [eauto | eauto].
  - rewrite (finalize_assert _ _ Hfound). cbn [mbind option_bind].
    split; [by intros [? [=]]|]. intros (MT' & [= <-] & ?). congruence.
Qed.

Lemma execute_is_Some TUs AllDecls :
  is_Some (execute TUs AllDecls)
  <-> Forall (fun TU => is_Some (HandleTranslationUnit TU ∅)) TUs.
Proof.
  revert AllDecls. induction TUs as [|TU TUs IH]; intros AllDecls.
  - split; [constructor | cbn; eauto].
  - rewrite Forall_cons. cbn [execute].
    rewrite (HandleTranslationUnit_is_Some TU ∅),
      <-(HandleTranslationUnit_is_Some TU AllDecls).
    destruct (HandleTranslationUnit TU AllDecls) as [AllDecls1|];
      cbn [mbind option_bind].
    + rewrite IH. split; [by split; [eauto|] | by intros [_ ?]].
    + split; [by intros [? [=]] | by intros [[? [=]] _]].
Qed.

(** X17.  A run stops at a failed assertion exactly when one of its
    translation units, handled on its own, does: whether a translation unit
    runs into an assertion depends neither on the table it meets nor on the
    translation units handled before it.  A translation unit gets through
    exactly when the matcher finds a pattern for every template
    instantiation it asks one of, and [finalize] a definition for every
    unused definition. *)
Theorem X17_run_stops_iff_a_unit_stops (E : ToolExecutor) :
  (is_Some (main (Value E))
   <-> Forall (fun TU => is_Some (HandleTranslationUnit TU ∅)) (Units E))
  /\ (forall TU AllDecls,
        is_Some (HandleTranslationUnit TU AllDecls)
        <-> exists MT, matched TU = Some MT /\ definitionsFound MT = true)
  /\ (forall msg, is_Some (main (Failure msg))).
Proof.
  split; [|split; [apply HandleTranslationUnit_is_Some | cbn; eauto]].
  rewrite <-(execute_is_Some (Units E) ∅). cbn [main].
  destruct (execute (Units E) ∅); cbn [mbind option_bind];
    [split; eauto | split; by intros [? [=]]].
Qed.

(** ** Where a finding comes from *)

(** X18.  Every finding of a run traces back to a definition callback of
    one translation unit: a definition that lines 177-204 let through, so
    one that begins in the main file of that translation unit and outside
    the system headers, whose canonical declaration no callback of that
    translation unit accounts for as used; and the finding carries the name,
    file, line and declaration sites of the definition of that canonical
    declaration. *)
Theorem X18_finding_traces_back_to_a_definition
    (TUs : list TranslationUnit) (AllDecls : AllDeclsMap) (USR : string)
    (Info : DefInfo.t) :
  execute TUs ∅ = Some AllDecls ->
  (USR, Info) ∈ findings AllDecls ->
  exists TU F F' D,
    TU ∈ TUs
    /\ fnDecl F ∈ Results TU
    /\ acceptedSubject (Context TU) (SourceMgr TU) F = Some F'
    /\ isInSystemHeader (SourceMgr TU) (getBegin (Context TU F')) = false
    /\ isWrittenInMainFile (SourceMgr TU) (getBegin (Context TU F')) = true
    /\ (forall R, R ∈ Results TU ->
          useOfResult (Context TU) (SourceMgr TU) R
          <> Some (getCanonicalDecl (Context TU F')))
    /\ getDefinition (Context TU (getCanonicalDecl (Context TU F'))) = Some D
    /\ getUSRForDecl (Context TU) D = Some USR
    /\ Info = definitionOf (Context TU) (SourceMgr TU) D.
Proof.
  intros (MTs & HMTs & ->%finalizeAll_Some_merge)%execute_finalizeAll
         [Hlast _]%finding_iff.
  apply last_Some_elem_of in Hlast. unfold definitionsOf in Hlast.
  apply list_elem_of_bind in Hlast
    as (MT & (f & Hf & HD)%list_elem_of_omap & HMT).
  apply definitionFor_Some in HD as (D & HD & HU & ->).
  apply list_elem_of_lookup in HMT as [i Hi].
  destruct (Forall2_lookup_r _ _ _ _ _ HMTs Hi) as (TU & HTU & Hmatched).
  apply list_elem_of_lookup_2 in HTU.
  apply matched_Some in Hmatched as (HCtx & HSM & Hm & Hok).
  apply elem_of_UnusedDefs in Hf as [HfD HfU]; [|assumption].
  apply matchAST_effect in Hm as (HDefs & HUses).
  apply HDefs in HfD as [HfD|(F & F' & HF & Hacc & <-)];
    [by apply elem_of_nil in HfD|].
  rewrite HCtx, HSM in *. exists TU, F, F', D.
  pose proof Hacc as (_ & _ & H1 & H2 & _)%acceptedSubject_Some.
  repeat (split; [assumption|]). split; [|by repeat split].
  intros R HR Huse. apply HfU, HUses. right. by exists R.
Qed.

(** X18 on [a.cpp] and [b.cpp]: the finding for [helper]. *)
Lemma X18_witness :
  exists TU F F' D,
    TU ∈ [Project.tuA; Project.tuB]
    /\ fnDecl F ∈ Results TU
    /\ acceptedSubject (Context TU) (SourceMgr TU) F = Some F'
    /\ isInSystemHeader (SourceMgr TU) (getBegin (Context TU F')) = false
    /\ isWrittenInMainFile (SourceMgr TU) (getBegin (Context TU F')) = true
    /\ (forall R, R ∈ Results TU ->
          useOfResult (Context TU) (SourceMgr TU) R
          <> Some (getCanonicalDecl (Context TU F')))
    /\ getDefinition (Context TU (getCanonicalDecl (Context TU F'))) = Some D
    /\ getUSRForDecl (Context TU) D = Some "c:@F@helper#"
    /\ definitionOf Project.astA (Project.sourceManager 1) 11
       = definitionOf (Context TU) (SourceMgr TU) D.
Proof.
  apply (X18_finding_traces_back_to_a_definition
           [Project.tuA; Project.tuB]
           (merge ∅ ([Project.matchedA; Project.matchedB] ≫= tuResult))
           "c:@F@helper#"
           (definitionOf Project.astA (Project.sourceManager 1) 11));
    [reflexivity | by_decision].
Defined.

(** ** A translation unit that is handled twice *)

Lemma last_is_Some {A} (l : list A) : is_Some (last l) <-> exists x, x ∈ l.
Proof.
  split.
  - intros [x Hx]. exists x. by apply last_Some_elem_of.
  - intros [x Hx]. destruct (last l) eqn:Hlast; [eauto|].
    apply last_None in Hlast. subst l. by apply elem_of_nil in Hx.
Qed.

(** A symbol is reported exactly when some translation unit has an unused
    definition of it and the external uses add up to zero. *)
Lemma reported_iff (TUs : list MatchedTU) USR :
  (exists Info, (USR, Info) ∈ findings (merge ∅ (TUs ≫= tuResult)))
  <-> (exists TU f, TU ∈ TUs /\ f ∈ UnusedDefs (TU_Handler TU)
                    /\ definitionUSR (TU_Context TU) f = Some USR)
      /\ (externalUseTotal TUs USR mod SIZE_MODULUS = 0)%N.
Proof.
  assert ((exists TU f, TU ∈ TUs /\ f ∈ UnusedDefs (TU_Handler TU)
                        /\ definitionUSR (TU_Context TU) f = Some USR)
          <-> is_Some (last (definitionsOf TUs USR))) as ->.
  { rewrite last_is_Some. unfold definitionsOf. split.
    - intros (TU & f & HTU & Hf & [D HD]%definitionFor_definitionUSR).
      exists D. apply list_elem_of_bind. exists TU. split; [|assumption].
      apply list_elem_of_omap. eauto.
    - intros (D & (TU & (f & Hf & HD)%list_elem_of_omap & HTU)
                    %list_elem_of_bind).
      exists TU, f. split; [assumption|]. split; [assumption|].
      apply definitionFor_definitionUSR. eauto. }
  split.
  - intros (Info & [Hlast Hz]%finding_iff). split; [eauto | assumption].
  - intros [[Info Hlast] Hz]. exists Info. by apply finding_iff.
Qed.

Lemma externalUseTotal_perm TUs1 TUs2 USR :
  TUs1 ≡ₚ TUs2 -> externalUseTotal TUs1 USR = externalUseTotal TUs2 USR.
Proof.
  unfold externalUseTotal.
  induction 1 as [|TU l1 l2 _ IH|TU1 TU2 l|l1 l2 l3 _ IH1 _ IH2];
    [reflexivity|..]; rewrite ?fmap_cons; cbn [foldr].
  - by rewrite IH.
  - lia.
  - congruence.
Qed.

Lemma externalUseTotal_elem TU TUs USR :
  TU ∈ TUs ->
  (N.of_nat (length (externalUsesOf TU USR)) <= externalUseTotal TUs USR)%N.
Proof.
  unfold externalUseTotal. induction 1 as [TU l|TU TU' l _ IH];
    rewrite fmap_cons; cbn [foldr]; lia.
Qed.

(** X19.  Handling a translation unit once more (a file that the
    compilation database lists twice) does not change which symbols are
    reported: wherever the second copy comes in the run, a symbol has a
    finding with it exactly when it has one without it.  (The count is a
    [size_t]: the longer run is assumed to count fewer than [2^64] uses of
    the symbol.) *)
Theorem X19_repeated_unit_reports_the_same_symbols
    (TUs TUs' : list MatchedTU) (TU : MatchedTU) (AllDecls : AllDeclsMap)
    (USR : string) :
  finalizeAll TUs ∅ = Some AllDecls ->
  TU ∈ TUs ->
  TUs' ≡ₚ TU :: TUs ->
  (externalUseTotal TUs' USR < SIZE_MODULUS)%N ->
  exists AllDecls',
    finalizeAll TUs' ∅ = Some AllDecls'
    /\ ((exists Info, (USR, Info) ∈ findings AllDecls')
        <-> (exists Info, (USR, Info) ∈ findings AllDecls)).
Proof.
  intros Hrun HTU HP Hsmall.
  pose proof (finalizeAll_Some_found _ _ _ Hrun) as Hfound.
  apply finalizeAll_Some_merge in Hrun as ->.
  assert (forall TU0, TU0 ∈ TUs' <-> TU0 ∈ TUs) as Hmem.
  { intros TU0. rewrite HP, elem_of_cons. split; [intros [->|?]|]; auto. }
  exists (merge ∅ (TUs' ≫= tuResult)). split.
  - apply finalizeAll_merge. rewrite forallb_elem_of in *.
    intros TU0 HTU0%Hmem. auto.
  - rewrite !reported_iff.
    assert (externalUseTotal TUs' USR
            = (N.of_nat (length (externalUsesOf TU USR))
               + externalUseTotal TUs USR)%N) as Htotal
      by (by rewrite (externalUseTotal_perm _ _ _ HP)).
    pose proof (externalUseTotal_elem TU TUs USR HTU) as Hle.
    rewrite (N.mod_small (externalUseTotal TUs' USR)) by assumption.
    rewrite (N.mod_small (externalUseTotal TUs USR)) by lia.
    assert (externalUseTotal TUs' USR = 0%N <-> externalUseTotal TUs USR = 0%N)
      as -> by lia.
    assert ((exists TU0 f, TU0 ∈ TUs' /\ f ∈ UnusedDefs (TU_Handler TU0)
               /\ definitionUSR (TU_Context TU0) f = Some USR)
            <-> (exists TU0 f, TU0 ∈ TUs /\ f ∈ UnusedDefs (TU_Handler TU0)
                   /\ definitionUSR (TU_Context TU0) f = Some USR)) as ->;
      [|reflexivity].
    split; intros (TU0 & f & HTU0%Hmem & ?); by exists TU0, f.
Qed.

(** X19 on [s.cpp] and [e.cpp], with [e.cpp] handled a second time, first
    of all: [run_all] is reported either way. *)
Lemma X19_witness :
  exists AllDecls',
    finalizeAll [Examples.matchedE; Examples.matchedS; Examples.matchedE] ∅
    = Some AllDecls'
    /\ ((exists Info, ("c:@F@run_all", Info) ∈ findings AllDecls')
        <-> (exists Info,
               ("c:@F@run_all", Info)
               ∈ findings (merge ∅ ([Examples.matchedS; Examples.matchedE]
                                     ≫= tuResult)))).
Proof.
  apply (X19_repeated_unit_reports_the_same_symbols
           [Examples.matchedS; Examples.matchedE]
           [Examples.matchedE; Examples.matchedS; Examples.matchedE]
           Examples.matchedE);
    [reflexivity | by right; left | reflexivity | reflexivity].
Defined.

(** ** A symbol that stays inside its translation units *)

(** X20.  A symbol that every translation unit which defines it also
    references, and that is referenced only where it has a definition that
    is not weak, never reaches the table: the run leaves no record of it, so
    it is not reported and takes no part in the counts. *)
Theorem X20_internal_symbol_leaves_no_record (TUs : list MatchedTU)
    (AllDecls : AllDeclsMap) (USR : string) :
  finalizeAll TUs ∅ = Some AllDecls ->
  Forall (fun TU => handler_ok (TU_Handler TU) = true) TUs ->
  Forall (fun TU => Forall (fun f => f ∈ Uses (TU_Handler TU))
                      (definersOf TU USR)) TUs ->
  Forall (fun TU => Forall (fun n => n ∈ Defs (TU_Handler TU)
                                     /\ isWeak (TU_Context TU n) = false)
                      (referencesOf TU USR)) TUs ->
  AllDecls !! USR = None
  /\ forall Info, ~ (USR, Info) ∈ findings AllDecls.
Proof.
  intros ->%finalizeAll_Some_merge Hok Hdefs Hrefs.
  rewrite Forall_forall in Hok, Hdefs, Hrefs.
  assert (merge ∅ (TUs ≫= tuResult) !! USR = None) as Hnone.
  { apply eq_None_not_Some. rewrite run_lookup, recordAfter_is_Some_iff.
    intros Hne. apply Hne, observationsOf_nil_iff.
    intros (TU & HTU & [(f & Hf & HU)|(n & Hn & HU)])%elem_of_run_keys.
    - apply elem_of_UnusedDefs in Hf as [HfD HfU]; [|by apply Hok].
      apply HfU. specialize (Hdefs TU HTU). rewrite Forall_forall in Hdefs.
      apply Hdefs. by apply list_elem_of_filter.
    - apply elem_of_ExternalUses in Hn as [HnU Hno]; [|by apply Hok].
      apply Hno. specialize (Hrefs TU HTU). rewrite Forall_forall in Hrefs.
      apply Hrefs. by apply list_elem_of_filter. }
  split; [assumption|]. intros Info [HInfo _]%elem_of_findings. congruence.
Qed.

(** X20 on [s.cpp] and [e.cpp]: the template [twice], defined in [e.cpp]
    and used there through its instantiation. *)
Lemma X20_witness :
  merge ∅ ([Examples.matchedS; Examples.matchedE] ≫= tuResult)
    !! "c:@FT@twice" = None
  /\ forall Info,
       ~ ("c:@FT@twice", Info)
         ∈ findings (merge ∅ ([Examples.matchedS; Examples.matchedE]
                               ≫= tuResult)).
Proof.
  apply (X20_internal_symbol_leaves_no_record
           [Examples.matchedS; Examples.matchedE]);
    [reflexivity | by_decision | by_decision | by_decision].
Defined.

(** * Part IV: the claims on the printed report *)

(** ** The report around one finding *)

Lemma reportText_app l1 l2 :
  reportText (l1 ++ l2) = reportText l1 +:+ reportText l2.
Proof. unfold reportText. by rewrite bind_app, concatText_app. Qed.

Lemma reportText_cons k D l :
  reportText ((k, D) :: l) = concatText (findingText D) +:+ reportText l.
Proof. unfold reportText. by rewrite bind_cons, concatText_app. Qed.

Lemma printReport_reportText (AllDecls : AllDeclsMap) errs :
  printReport AllDecls errs = errs +:+ reportText (findings AllDecls).
Proof. apply printReport_findings. Qed.

Lemma filter_key_split {A} (l : list (string * A)) (k : string) x :
  filter (fun KV => KV.1 = k) l = [x] ->
  exists pre post, l = pre ++ x :: post /\ ~ k ∈ pre.*1 /\ ~ k ∈ post.*1.
Proof.
  induction l as [|[k' a] l IH]; [discriminate|].
  rewrite filter_cons. cbn [fst].
  destruct (decide (k' = k)) as [->|Hne].
  - intros [= <- Hnil]. exists [], l. split; [reflexivity|].
    split; [apply not_elem_of_nil|].
    rewrite filter_nil_iff in Hnil.
    intros ([k' a'] & Hk & Hin)%list_elem_of_fmap. cbn in Hk. subst k'.
    by apply (Hnil (k, a')).
  - intros (pre & post & -> & Hpre & Hpost)%IH.
    exists ((k', a) :: pre), post. split; [reflexivity|].
    split; [|assumption]. rewrite fmap_cons, not_elem_of_cons. cbn. auto.
Qed.

Lemma filter_other_keys {A} (l : list (string * A)) (k : string) :
  filter (fun KV => KV.1 = k) l = [] -> filter (fun KV => KV.1 <> k) l = l.
Proof.
  induction l as [|[k' a] l IH]; [reflexivity|].
  rewrite !filter_cons. cbn [fst].
  destruct (decide (k' = k)) as [->|Hne]; [discriminate|].
  intros Hnil. rewrite decide_True by assumption. f_equal. auto.
Qed.

Lemma main_printReport E MTs AllDecls :
  Forall2 (fun TU MT => matched TU = Some MT) (Units E) MTs ->
  finalizeAll MTs ∅ = Some AllDecls ->
  main (Value E)
  = Some (printReport AllDecls
            (from_option (fun msg => msg +:+ nl) EmptyString (Err E)),
          0%Z).
Proof.
  intros HMTs Hrun. rewrite (main_finalizeAll _ _ _ HMTs Hrun).
  by rewrite printReport_findings.
Qed.

(** When the table of a run holds one finding for a symbol, the report
    loop writes the text of that finding once, between the texts of the
    findings of other symbols, and [main] writes it after the error of
    [execute], if any. *)
Lemma finding_in_report (TUs : list MatchedTU) (AllDecls : AllDeclsMap)
    (USR : string) (D : DefInfo.t) :
  finalizeAll TUs ∅ = Some AllDecls ->
  filter (fun KV => KV.1 = USR) (findings AllDecls) = [(USR, D)] ->
  exists pre post,
    findings AllDecls = pre ++ (USR, D) :: post
    /\ ~ USR ∈ pre.*1
    /\ ~ USR ∈ post.*1
    /\ (forall errs,
          printReport AllDecls errs
          = errs +:+ reportText pre +:+ concatText (findingText D)
              +:+ reportText post)
    /\ (forall E,
          Forall2 (fun TU MT => matched TU = Some MT) (Units E) TUs ->
          main (Value E)
          = Some (from_option (fun msg => msg +:+ nl) EmptyString (Err E)
                    +:+ reportText pre +:+ concatText (findingText D)
                    +:+ reportText post,
                  0%Z)).
Proof.
  intros Hrun (pre & post & Hsplit & Hpre & Hpost)%filter_key_split.
  assert (forall errs,
            printReport AllDecls errs
            = errs +:+ reportText pre +:+ concatText (findingText D)
                +:+ reportText post) as Hprint.
  { intros errs.
    by rewrite printReport_reportText, Hsplit, reportText_app,
      reportText_cons. }
  exists pre, post. repeat (split; [assumption|]).
  intros E HMTs. by rewrite (main_printReport _ _ _ HMTs Hrun), Hprint.
Qed.

(** ** C1: a definition that nothing references *)

(** C1.  Let the symbol [USR] be defined in the translation unit [A] only,
    by the function whose canonical declaration is [f] and whose definition
    is [F], and let no translation unit of the run reference it.  Then,
    however many translation units come before and after [A], the run
    completes, its table holds exactly one finding for [USR], with the
    name, file, line and declaration list of [F], and the report loop prints
    that finding once: what it writes is the findings of the other symbols
    before it, then the warning line of [F] at its definition site and a
    note line for each declaration site, then the findings of the other
    symbols after it; and that is what [main] writes to the error stream,
    after the error of [execute] if there is one, before it exits with
    status 0. *)
Theorem C1_unreferenced_definition_reported_once
    (before after : list MatchedTU) (A : MatchedTU) (f F : FunctionDeclPtr)
    (USR : string) :
  forallb matched_ok (before ++ A :: after) = true ->
  definersOf A USR = [f] ->
  getDefinition (TU_Context A f) = Some F ->
  getUSRForDecl (TU_Context A) f = Some USR ->
  Forall (fun TU => definersOf TU USR = []) (before ++ after) ->
  Forall (fun TU => referencesOf TU USR = []) (before ++ A :: after) ->
  exists AllDecls pre post,
    finalizeAll (before ++ A :: after) ∅ = Some AllDecls
    /\ filter (fun KV => KV.1 = USR) (findings AllDecls)
       = [(USR, definitionOf (TU_Context A) (TU_SourceMgr A) F)]
    /\ findings AllDecls
       = pre ++ (USR, definitionOf (TU_Context A) (TU_SourceMgr A) F) :: post
    /\ ~ USR ∈ pre.*1
    /\ ~ USR ∈ post.*1
    /\ (forall errs,
          printReport AllDecls errs
          = errs +:+ reportText pre
              +:+ concatText
                    (findingText
                       (definitionOf (TU_Context A) (TU_SourceMgr A) F))
              +:+ reportText post)
    /\ (forall E,
          Forall2 (fun TU MT => matched TU = Some MT) (Units E)
            (before ++ A :: after) ->
          main (Value E)
          = Some (from_option (fun msg => msg +:+ nl) EmptyString (Err E)
                    +:+ reportText pre
                    +:+ concatText
                          (findingText
                             (definitionOf (TU_Context A) (TU_SourceMgr A)
                                F))
                    +:+ reportText post,
                  0%Z))
    /\ findingText (definitionOf (TU_Context A) (TU_SourceMgr A) F)
       = (getFilename (TU_SourceMgr A) (getBegin (TU_Context A F)) +:+ ":"
            +:+ pretty (getSpellingLineNumber (TU_SourceMgr A)
                          (getBegin (TU_Context A F)))
            +:+ ": warning:" +:+ " Function '"
            +:+ getQualifiedNameAsString (TU_Context A F)
            +:+ "' is unused" +:+ nl)
         :: map noteLine
              (getDeclarations (TU_Context A) (TU_SourceMgr A) F).
Proof.
  intros Hok Hdef HF HfUSR Hothers Hnoref.
  assert (handler_ok (TU_Handler A) = true) as HokA.
  { apply (matched_ok_handler _ _ Hok). apply elem_of_app. right. by left. }
  assert (f ∉ Uses (TU_Handler A)) as Hunused.
  { intros Hin. rewrite Forall_app, Forall_cons in Hnoref.
    destruct Hnoref as (_ & HA & _). unfold referencesOf in HA.
    rewrite filter_nil_iff in HA. by apply (HA f). }
  apply Forall_app in Hothers as [_ Hafter].
  destruct (finding_of_last_definition (before ++ A :: after) USR f A
              (definitionOf (TU_Context A) (TU_SourceMgr A) F))
    as (AllDecls & Hrun & Hone); [assumption| | | |].
  - by apply (last_definition_of_run before A after USR f F).
  - apply definitionFor_Some. exists F. split; [assumption|].
    assert (f ∈ definersOf A USR) as [HfU _]%list_elem_of_filter
      by (rewrite Hdef; by left).
    unfold definitionUSR in HfU. rewrite HF in HfU. by split.
  - apply externalUseCount_zero. eapply Forall_impl; [exact Hnoref|].
    intros TU HTU. by apply no_reference_no_external_use.
  - destruct (finding_in_report _ _ _ _ Hrun Hone)
      as (pre & post & Hsplit & Hpre & Hpost & Hprint & Hmain).
    exists AllDecls, pre, post. repeat (split; [assumption|]).
    reflexivity.
Qed.

(** C1 on the project: [helper] is defined in [a.cpp] and referenced
    nowhere; the run over [a.cpp] and [b.cpp] prints its finding once. *)
Lemma C1_witness :
  exists AllDecls pre post,
    finalizeAll ([] ++ Project.matchedA :: [Project.matchedB]) ∅
    = Some AllDecls
    /\ findings AllDecls
       = pre ++ ("c:@F@helper#",
                 definitionOf Project.astA (Project.sourceManager 1) 11)
              :: post
    /\ ~ "c:@F@helper#" ∈ pre.*1
    /\ ~ "c:@F@helper#" ∈ post.*1
    /\ main (Value {| Units := [Project.tuA; Project.tuB]; Err := None |})
       = Some (EmptyString +:+ reportText pre
                 +:+ concatText
                       (findingText
                          (definitionOf Project.astA
                             (Project.sourceManager 1) 11))
                 +:+ reportText post,
               0%Z)
    /\ concatText
         (findingText (definitionOf Project.astA (Project.sourceManager 1) 11))
       = "/proj/a.cpp:7: warning: Function 'helper' is unused" +:+ nl
         +:+ "/proj/include/api.h:3: note: declared here" +:+ nl.
Proof.
  destruct (C1_unreferenced_definition_reported_once
              [] [Project.matchedB] Project.matchedA 10 11 "c:@F@helper#")
    as (AllDecls & pre & post & Hrun & _ & Hsplit & Hpre & Hpost & _ & Hmain
        & _);
    [reflexivity | reflexivity | reflexivity | reflexivity
    | repeat constructor | repeat constructor |].
  exists AllDecls, pre, post. repeat (split; [assumption|]).
  split; [|reflexivity].
  apply (Hmain {| Units := [Project.tuA; Project.tuB]; Err := None |}).
  repeat constructor.
Defined.

(** ** C10: a weak definition that nothing uses *)

(** C10 (as amended).  Let [f] be a weak definition of the symbol [USR] in
    the translation unit [A], not used in [A].  Then [f] is in the range
    [UnusedDefs] of [A] although the weak removal takes it out of [Defs];
    [finalize] on [A] leaves a record of [USR] that carries the definition
    [F] and its site; and when no translation unit of the run counts a use
    of [USR], the run completes and the symbol is reported once: the report
    loop and [main] write one finding for [USR], between the findings of the
    other symbols.  That finding carries the data of the unused definition
    of [USR] that the run recorded last: it is that of the weak definition
    when no translation unit merged after [A] defines the symbol, and
    otherwise that of the later definition. *)
Theorem C10_unused_weak_definition_reported
    (before after : list MatchedTU) (A : MatchedTU) (f F : FunctionDeclPtr)
    (USR : string) :
  forallb matched_ok (before ++ A :: after) = true ->
  isWeak (TU_Context A f) = true ->
  definersOf A USR = [f] ->
  f ∉ Uses (TU_Handler A) ->
  getDefinition (TU_Context A f) = Some F ->
  (f ∈ UnusedDefs (TU_Handler A)
   /\ f ∉ StdSet.discard_if (fun FD => isWeak (TU_Context A FD))
            (Defs (TU_Handler A)))
  /\ (forall AllDecls, counts_bounded AllDecls ->
      exists h' AllDecls' Info,
        finalize (TU_Context A) (TU_SourceMgr A) (TU_Handler A) AllDecls
        = Some (h', AllDecls')
        /\ AllDecls' !! USR = Some Info
        /\ DefInfo.Definition_ Info = Some F
        /\ DefInfo.Name Info = getQualifiedNameAsString (TU_Context A F)
        /\ DefInfo.Filename Info
           = getFilename (TU_SourceMgr A) (getBegin (TU_Context A F))
        /\ DefInfo.Line Info
           = getSpellingLineNumber (TU_SourceMgr A) (getBegin (TU_Context A F)))
  /\ (Forall (fun TU => externalUsesOf TU USR = []) (before ++ A :: after) ->
      exists AllDecls Info pre post,
        finalizeAll (before ++ A :: after) ∅ = Some AllDecls
        /\ filter (fun KV => KV.1 = USR) (findings AllDecls) = [(USR, Info)]
        /\ last (definitionsOf (before ++ A :: after) USR) = Some Info
        /\ findings AllDecls = pre ++ (USR, Info) :: post
        /\ ~ USR ∈ pre.*1
        /\ ~ USR ∈ post.*1
        /\ (forall errs,
              printReport AllDecls errs
              = errs +:+ reportText pre +:+ concatText (findingText Info)
                  +:+ reportText post)
        /\ (forall E,
              Forall2 (fun TU MT => matched TU = Some MT) (Units E)
                (before ++ A :: after) ->
              main (Value E)
              = Some (from_option (fun msg => msg +:+ nl) EmptyString (Err E)
                        +:+ reportText pre +:+ concatText (findingText Info)
                        +:+ reportText post,
                      0%Z))
        /\ (Forall (fun TU => definersOf TU USR = []) after ->
            Info = definitionOf (TU_Context A) (TU_SourceMgr A) F)).
Proof.
  intros Hok Hweak Hdef Hunused HF.
  assert (A ∈ before ++ A :: after) as HA
    by (apply elem_of_app; right; by left).
  pose proof (matched_ok_handler _ _ Hok HA) as HokA.
  assert (f ∈ definersOf A USR) as [HfU HfD]%list_elem_of_filter
    by (rewrite Hdef; by left).
  assert (definitionFor A USR f
          = Some (definitionOf (TU_Context A) (TU_SourceMgr A) F)) as HD.
  { apply definitionFor_Some. exists F. split; [assumption|].
    unfold definitionUSR in HfU. rewrite HF in HfU. by split. }
  assert (f ∈ UnusedDefs (TU_Handler A)) as HfUD
    by (by apply elem_of_UnusedDefs).
  split; [split|split].
  - assumption.
  - rewrite elem_of_discard_if. intros [_ Hw]. congruence.
  - intros AllDecls Hb.
    assert (definitionsFound A = true) as Hfound.
    { apply matched_ok_found in Hok. rewrite forallb_elem_of in Hok. auto. }
    destruct (recordAfter_last_defined (observationsOf USR (tuResult A))
                (AllDecls !! USR)
                (definitionOf (TU_Context A) (TU_SourceMgr A) F))
      as (Info & HInfo & H1 & H2 & H3 & H4 & _).
    { rewrite definedIn_tuResult.
      by rewrite (sole_definer_definition A USR f F). }
    eexists _, _, Info. split; [by apply finalize_merge|].
    split; [by rewrite lookup_merge|]. by repeat split.
  - intros Hnouse.
    destruct (last (definedIn (observationsOf USR
                ((before ++ A :: after) ≫= tuResult)))) as [D|] eqn:Hlast.
    + pose proof Hlast as (TU & g & _ & _ & Hg)%last_Some_elem_of
                          %elem_of_definedIn_run.
      destruct (finding_of_last_definition _ _ g TU D Hok Hlast Hg)
        as (AllDecls & Hrun & Hone); [by apply externalUseCount_zero|].
      destruct (finding_in_report _ _ _ _ Hrun Hone)
        as (pre & post & Hsplit & Hpre & Hpost & Hprint & Hmain).
      exists AllDecls, D, pre, post. split; [assumption|].
      split; [assumption|].
      split; [unfold definitionsOf; by rewrite <-definedIn_run|].
      repeat (split; [assumption|]).
      intros Hafter.
      rewrite (last_definition_of_run before A after USR f F) in Hlast
        by assumption.
      by injection Hlast as <-.
    + exfalso. apply last_None in Hlast.
      assert (definitionOf (TU_Context A) (TU_SourceMgr A) F
              ∈ definedIn (observationsOf USR
                             ((before ++ A :: after) ≫= tuResult))) as Hin
        by (apply elem_of_definedIn_run; eauto).
      rewrite Hlast in Hin. by apply elem_of_nil in Hin.
Qed.

(** C10, as the specification states it, fails on [w.c] followed by a
    [b.cpp] that defines [hook] strongly: the weak definition has a body
    and is used nowhere, no translation unit counts a use of [hook], and the
    report names the definition of [b.cpp], not the weak one of [w.c]. *)
Lemma C10_counterexample :
  isWeak (Project.astW 30) = true
  /\ hasBody (Project.astW 30) = true
  /\ Forall2 (fun TU MT => matched TU = Some MT)
       [Project.tuW; Scenarios.tuH] [Project.matchedW; Scenarios.matchedH]
  /\ 30 ∈ UnusedDefs (TU_Handler Project.matchedW)
  /\ Forall (fun TU => referencesOf TU "c:@F@hook" = [])
       [Project.matchedW; Scenarios.matchedH]
  /\ Forall (fun TU => externalUsesOf TU "c:@F@hook" = [])
       [Project.matchedW; Scenarios.matchedH]
  /\ main (Value {| Units := [Project.tuW; Scenarios.tuH]; Err := None |})
     = Some ("/proj/b.cpp:40: warning: Function 'hook' is unused" +:+ nl,
             0%Z)
  /\ warningLine (definitionOf Project.astW (Project.sourceManager 8) 30)
     = "/proj/w.c:2: warning: Function 'hook' is unused" +:+ nl
  /\ main (Value {| Units := [Project.tuW; Scenarios.tuH]; Err := None |})
     <> Some (warningLine
                (definitionOf Project.astW (Project.sourceManager 8) 30),
              0%Z).
Proof.
  split; [reflexivity|]. split; [reflexivity|].
  split; [repeat constructor|]. split; [by left|].
  split; [repeat constructor|]. split; [repeat constructor|].
  split; [reflexivity|]. split; [reflexivity|].
  vm_compute. discriminate.
Qed.

(** C10 as amended, on the project: the weak [hook] of [w.c], merged
    after [a.cpp] and before [b.cpp], which does not define [hook], is
    reported with its own site. *)
Lemma C10_witness :
  exists AllDecls pre post,
    finalizeAll ([Project.matchedA] ++ Project.matchedW :: [Project.matchedB])
      ∅ = Some AllDecls
    /\ findings AllDecls
       = pre ++ ("c:@F@hook",
                 definitionOf Project.astW (Project.sourceManager 8) 30)
              :: post
    /\ ~ "c:@F@hook" ∈ pre.*1
    /\ ~ "c:@F@hook" ∈ post.*1
    /\ main (Value {| Units := [Project.tuA; Project.tuW; Project.tuB];
                      Err := None |})
       = Some (EmptyString +:+ reportText pre
                 +:+ concatText
                       (findingText
                          (definitionOf Project.astW
                             (Project.sourceManager 8) 30))
                 +:+ reportText post,
               0%Z)
    /\ concatText
         (findingText (definitionOf Project.astW (Project.sourceManager 8) 30))
       = "/proj/w.c:2: warning: Function 'hook' is unused" +:+ nl.
Proof.
  destruct (C10_unused_weak_definition_reported
              [Project.matchedA] [Project.matchedB] Project.matchedW 30 30
              "c:@F@hook")
    as (_ & _ & Hreport);
    [reflexivity | reflexivity | reflexivity | by_decision | reflexivity|].
  destruct Hreport
    as (AllDecls & Info & pre & post & Hrun & _ & _ & Hsplit & Hpre & Hpost
        & _ & Hmain & Hsite); [repeat constructor|].
  rewrite (Hsite ltac:(repeat constructor)) in *.
  exists AllDecls, pre, post. repeat (split; [assumption|]).
  split; [|reflexivity].
  apply (Hmain {| Units := [Project.tuA; Project.tuW; Project.tuB];
                  Err := None |}).
  repeat constructor.
Defined.

(** ** C4: the exemptions of [run] *)

Lemma isOverridingMethod_pure Ctx F :
  isPure (Ctx F) = true -> isOverridingMethod Ctx F = false.
Proof.
  intros Hpure. unfold isOverridingMethod. rewrite Hpure.
  destruct (asCXXMethodDecl (Ctx F)) as [MD|]; [|reflexivity].
  by destruct (isVirtual MD).
Qed.

(** C4 (as amended).  A definition match is turned away, leaving [Defs]
    and [Uses] as they were, when the matched declaration has no body, or
    when the declaration tested is a virtual method that is not pure itself
    and overrides some method (pure or not), or a destructor, or [main].
    In a run that completes, a symbol all of whose definition matches are
    turned away for one of these reasons has no finding, whether or not
    anything references it: the report loop writes the findings of the
    other symbols only.  A method that is pure itself and has a body is not
    turned away as an overriding method, whatever it overrides: unless it is
    a destructor or [main], or begins outside the main file or in a system
    header, its canonical declaration enters [Defs]. *)
Theorem C4_exempt_definitions_never_reported (TUs : list TranslationUnit)
    (AllDecls : AllDeclsMap) :
  execute TUs ∅ = Some AllDecls ->
  (forall TU F h,
      TU ∈ TUs -> exempt (Context TU) F = true ->
      run (Context TU) (SourceMgr TU) (fnDecl F) h = Some h)
  /\ (forall USR,
        (forall TU F, TU ∈ TUs -> fnDecl F ∈ Results TU ->
                      definitionKey (Context TU) F = Some USR ->
                      exempt (Context TU) F = true) ->
        filter (fun KV => KV.1 = USR) (findings AllDecls) = []
        /\ forall errs,
             printReport AllDecls errs
             = errs +:+ reportText (filter (fun KV => KV.1 <> USR)
                                      (findings AllDecls)))
  /\ (forall TU MT F F',
        TU ∈ TUs -> matched TU = Some MT -> fnDecl F ∈ Results TU ->
        hasBody (Context TU F) = true ->
        definitionSubject (Context TU) F = Some F' ->
        isPure (Context TU F') = true ->
        isDestructor (Context TU) F' = false ->
        isMain (Context TU F') = false ->
        isInSystemHeader (SourceMgr TU) (getBegin (Context TU F')) = false ->
        isWrittenInMainFile (SourceMgr TU) (getBegin (Context TU F')) = true ->
        exempt (Context TU) F = false
        /\ getCanonicalDecl (Context TU F') ∈ Defs (TU_Handler MT)).
Proof.
  intros Hrun. split; [intros TU F h _; apply run_exempt|]. split.
  - intros USR Hall.
    assert (filter (fun KV => KV.1 = USR) (findings AllDecls) = []) as Hnone.
    { apply filter_nil_iff. intros [k Info] Hin Hk. cbn in Hk. subst k.
      destruct (finding_has_definition_match _ _ _ _ Hrun Hin)
        as (TU & F & HTU & HF & Hkey & Hex).
      rewrite (Hall TU F) in Hex by assumption. discriminate. }
    split; [assumption|]. intros errs.
    by rewrite printReport_reportText, (filter_other_keys _ _ Hnone).
  - intros TU MT F F' _ HMT HF Hbody Hsub Hpure Hdtor Hmain Hsys Hfile.
    pose proof (isOverridingMethod_pure _ _ Hpure) as Hov. split.
    + unfold exempt. by rewrite Hbody, Hsub, Hov, Hdtor, Hmain.
    + apply matched_Some in HMT as (_ & _ & (HD & _)%matchAST_effect & _).
      apply HD. right. exists F, F'. split; [assumption|].
      split; [|reflexivity]. by apply acceptedSubject_Some.
Qed.

(** C4 as amended, on [d.cpp]: the defaulted constructor, the destructor,
    the overriding [D::g] and [main], which nothing references, have no
    finding; [D::f], which is pure, has a body and overrides [B::f], is in
    [Defs]; the report holds [spare] and [D::f] only. *)
Lemma C4_witness :
  (filter (fun KV => KV.1 = "c:@S@D@F@D#")
     (findings (merge ∅ ([Scenarios.matchedV] ≫= tuResult))) = []
   /\ filter (fun KV => KV.1 = "c:@S@D@F@~D#")
        (findings (merge ∅ ([Scenarios.matchedV] ≫= tuResult))) = []
   /\ filter (fun KV => KV.1 = "c:@S@D@F@g#")
        (findings (merge ∅ ([Scenarios.matchedV] ≫= tuResult))) = []
   /\ filter (fun KV => KV.1 = "c:@F@main")
        (findings (merge ∅ ([Scenarios.matchedV] ≫= tuResult))) = [])
  /\ (exempt Scenarios.astV 8 = true /\ exempt Scenarios.astV 3 = true
      /\ exempt Scenarios.astV 5 = true /\ exempt Scenarios.astV 1 = true
      /\ definitionKey Scenarios.astV 8 = Some "c:@S@D@F@D#"
      /\ definitionKey Scenarios.astV 3 = Some "c:@S@D@F@~D#"
      /\ definitionKey Scenarios.astV 5 = Some "c:@S@D@F@g#"
      /\ definitionKey Scenarios.astV 1 = Some "c:@F@main")
  /\ (overridesNonPureVirtual Scenarios.astV 7 = true
      /\ exempt Scenarios.astV 7 = false
      /\ 6 ∈ Defs (TU_Handler Scenarios.matchedV))
  /\ main (Value {| Units := [Scenarios.tuV]; Err := None |})
     = Some ("/proj/d.cpp:30: warning: Function 'spare' is unused" +:+ nl
             +:+ "/proj/d.cpp:22: warning: Function 'D::f' is unused" +:+ nl
             +:+ "/proj/d.cpp:6: note: declared here" +:+ nl, 0%Z).
Proof.
  assert (execute [Scenarios.tuV] ∅
          = Some (merge ∅ ([Scenarios.matchedV] ≫= tuResult))) as Hrun
    by reflexivity.
  destruct (C4_exempt_definitions_never_reported _ _ Hrun)
    as (_ & Hnone & Hpure).
  assert (forall USR,
            USR ∈ ["c:@S@D@F@D#"; "c:@S@D@F@~D#"; "c:@S@D@F@g#"; "c:@F@main"]
            -> filter (fun KV => KV.1 = USR)
                 (findings (merge ∅ ([Scenarios.matchedV] ≫= tuResult)))
               = []) as Hall.
  { intros USR HUSR. apply (Hnone USR).
    intros TU F ->%list_elem_of_singleton HF Hkey. cbn [Results Scenarios.tuV
      Context] in *.
    rewrite !elem_of_cons, elem_of_nil in HF.
    rewrite !elem_of_cons, elem_of_nil in HUSR.
    destruct HF as [HF|[HF|[HF|[HF|[HF|[HF|[]]]]]]]; injection HF as ->;
      try reflexivity;
      destruct HUSR as [->|[->|[->|[->|[]]]]]; vm_compute in Hkey;
      discriminate Hkey. }
  split.
  { repeat split; apply Hall; rewrite !elem_of_cons; tauto. }
  split; [repeat split; reflexivity|]. split; [|reflexivity].
  split; [reflexivity|].
  apply (Hpure Scenarios.tuV Scenarios.matchedV 7 7);
    solve [reflexivity | by left | by right; right; left].
Defined.

(** ** C5: the order of the merges *)

Lemma StronglySorted_findings (AllDecls : AllDeclsMap) :
  StronglySorted String.le (findings AllDecls).*1.
Proof.
  eapply StronglySorted_sublist; [apply findings_fst_sublist|].
  apply Sorted_StronglySorted; [apply _ | apply Sorted_keys].
Qed.

Lemma NoDup_findings_fst (AllDecls : AllDeclsMap) :
  NoDup (findings AllDecls).*1.
Proof.
  eapply sublist_NoDup; [apply NoDup_keys | apply findings_fst_sublist].
Qed.

Lemma elem_of_findings_fst (AllDecls : AllDeclsMap) USR :
  USR ∈ (findings AllDecls).*1
  <-> exists Info, (USR, Info) ∈ findings AllDecls.
Proof.
  rewrite list_elem_of_fmap. split.
  - intros ([k Info] & -> & Hin). by exists Info.
  - intros (Info & Hin). by exists (USR, Info).
Qed.

(** The symbols that a run reports do not depend on the order of its
    translation units. *)
Lemma reported_perm (TUs1 TUs2 : list MatchedTU) USR :
  TUs1 ≡ₚ TUs2 ->
  (exists Info, (USR, Info) ∈ findings (merge ∅ (TUs1 ≫= tuResult)))
  <-> (exists Info, (USR, Info) ∈ findings (merge ∅ (TUs2 ≫= tuResult))).
Proof.
  intros HP. rewrite !reported_iff, (externalUseTotal_perm _ _ _ HP).
  assert ((exists TU f, TU ∈ TUs1 /\ f ∈ UnusedDefs (TU_Handler TU)
             /\ definitionUSR (TU_Context TU) f = Some USR)
          <-> (exists TU f, TU ∈ TUs2 /\ f ∈ UnusedDefs (TU_Handler TU)
                 /\ definitionUSR (TU_Context TU) f = Some USR)) as ->;
    [|reflexivity].
  split; intros (TU & f & HTU & ?); exists TU, f; (split; [|assumption]).
  - by rewrite <-HP.
  - by rewrite HP.
Qed.

(** C5 (as amended).  Merging the translation units in any order completes
    with the same use counts and the same reported symbols, printed in the
    same order.  What may depend on the order is the data of a finding,
    which are those of the unused definition of the symbol that was merged
    last; so the printed report is the same for any two orders when any two
    definition observations that the run makes of one symbol carry the same
    name, file, line and declaration list (in particular when every symbol
    is an unused candidate of at most one translation unit). *)
Theorem C5_merge_order_changes_the_printed_site_only
    (TUs1 TUs2 : list MatchedTU) :
  TUs1 ≡ₚ TUs2 ->
  forallb definitionsFound TUs1 = true ->
  exists AllDecls1 AllDecls2,
    finalizeAll TUs1 ∅ = Some AllDecls1
    /\ finalizeAll TUs2 ∅ = Some AllDecls2
    /\ (forall USR, usesOf (AllDecls1 !! USR) = usesOf (AllDecls2 !! USR))
    /\ (forall USR, is_Some (AllDecls1 !! USR) <-> is_Some (AllDecls2 !! USR))
    /\ (findings AllDecls1).*1 = (findings AllDecls2).*1
    /\ (forall USR Info,
          (USR, Info) ∈ findings AllDecls1
          <-> last (definitionsOf TUs1 USR) = Some Info
              /\ (externalUseTotal TUs1 USR mod SIZE_MODULUS = 0)%N)
    /\ (forall USR Info,
          (USR, Info) ∈ findings AllDecls2
          <-> last (definitionsOf TUs2 USR) = Some Info
              /\ (externalUseTotal TUs2 USR mod SIZE_MODULUS = 0)%N)
    /\ (forall errs,
          printReport AllDecls1 errs
          = errs +:+ reportText (findings AllDecls1)
          /\ printReport AllDecls2 errs
             = errs +:+ reportText (findings AllDecls2))
    /\ (definitionsAgree TUs1 = true ->
        forall errs, printReport AllDecls1 errs = printReport AllDecls2 errs).
Proof.
  intros HP Hfound.
  assert (forallb definitionsFound TUs2 = true) as Hfound2.
  { rewrite forallb_elem_of in *. intros TU HTU. apply Hfound.
    by rewrite HP. }
  exists (merge ∅ (TUs1 ≫= tuResult)), (merge ∅ (TUs2 ≫= tuResult)).
  split; [by apply finalizeAll_merge|].
  split; [by apply finalizeAll_merge|].
  split; [|split; [|split; [|split; [|split; [|split]]]]].
  - intros USR. by rewrite !run_usesOf, (externalUseTotal_perm _ _ _ HP).
  - intros USR. rewrite !run_lookup, !recordAfter_is_Some_iff,
      !observationsOf_nil_iff.
    assert (USR ∈ (TUs1 ≫= tuResult).*1 <-> USR ∈ (TUs2 ≫= tuResult).*1)
      as Hkeys by (by rewrite HP).
    tauto.
  - apply (StronglySorted_unique String.le);
      [apply StronglySorted_findings..|].
    apply NoDup_Permutation; [apply NoDup_findings_fst..|].
    intros USR. rewrite !elem_of_findings_fst. by apply reported_perm.
  - intros USR Info. apply finding_iff.
  - intros USR Info. apply finding_iff.
  - intros errs. split; apply printReport_reportText.
  - intros Hagree errs. apply printReport_similar. intros k.
    rewrite !run_lookup. by apply run_records_similar.
Qed.

(** C5 as amended, on [w.c] and the [b.cpp] that defines [hook] too, in
    their two orders (the same counts and the same reported symbol), and on
    the two orders of [a.cpp] and [b.cpp], whose definitions agree (the same
    printed report). *)
Lemma C5_witness :
  (exists AllDecls1 AllDecls2,
     finalizeAll [Project.matchedW; Scenarios.matchedH] ∅ = Some AllDecls1
     /\ finalizeAll [Scenarios.matchedH; Project.matchedW] ∅ = Some AllDecls2
     /\ (forall USR, usesOf (AllDecls1 !! USR) = usesOf (AllDecls2 !! USR))
     /\ (findings AllDecls1).*1 = (findings AllDecls2).*1
     /\ (forall USR Info,
           (USR, Info) ∈ findings AllDecls1
           <-> last (definitionsOf [Project.matchedW; Scenarios.matchedH]
                       USR) = Some Info
               /\ (externalUseTotal [Project.matchedW; Scenarios.matchedH]
                     USR mod SIZE_MODULUS = 0)%N))
  /\ (exists AllDecls1 AllDecls2,
        finalizeAll [Project.matchedA; Project.matchedB] ∅ = Some AllDecls1
        /\ finalizeAll [Project.matchedB; Project.matchedA] ∅
           = Some AllDecls2
        /\ forall errs,
             printReport AllDecls1 errs = printReport AllDecls2 errs).
Proof.
  split.
  - destruct (C5_merge_order_changes_the_printed_site_only
                [Project.matchedW; Scenarios.matchedH]
                [Scenarios.matchedH; Project.matchedW])
      as (AllDecls1 & AllDecls2 & H1 & H2 & H3 & _ & H5 & H6 & _);
      [apply perm_swap | reflexivity |].
    by exists AllDecls1, AllDecls2.
  - destruct (C5_merge_order_changes_the_printed_site_only
                [Project.matchedA; Project.matchedB]
                [Project.matchedB; Project.matchedA])
      as (AllDecls1 & AllDecls2 & H1 & H2 & _ & _ & _ & _ & _ & _ & H9);
      [apply perm_swap | reflexivity |].
    exists AllDecls1, AllDecls2. split; [assumption|]. split; [assumption|].
    by apply H9.
Defined.
